(** * klipper_support.py: a shallow embedding and its verified properties

    The script [Linux/klipper_support.py] locates the Klipper service
    definition, reads the environment file it names, copies a fixed set of
    logs and configuration files into a scratch directory, captures three
    system reports and packs everything into a ZIP archive.

    A Python [str] is modelled as a [string] of its code points; the model
    covers the code points below 256.  Pure helpers are Rocq functions,
    fallible ones return a [result], and the parts of the script that talk
    to the operating system are programs over an explicit interface
    ([prog]) that are run against an arbitrary environment. *)

From Stdlib Require Import Bool Arith List String Ascii ZArith Lia.
From Stdlib Require Import Sorting.Sorted Sorting.Permutation.
Import ListNotations.
Local Open Scope string_scope.

Set Implicit Arguments.

(** ** Python string operations *)

Module PyStr.

(** [s.startswith(p)] *)
Definition startswith (s p : string) : bool := prefix p s.

(** [sub in s] *)
Fixpoint contains (sub s : string) : bool :=
  match s with
  | EmptyString => prefix sub EmptyString
  | String _ s' => prefix sub s || contains sub s'
  end.

(** The text before the first occurrence of [sep] (all of [s] when there
    is none): [s.split(sep)[0]]. *)
Fixpoint before (sep s : string) : string :=
  match s with
  | EmptyString => EmptyString
  | String c s' => if prefix sep s then EmptyString else String c (before sep s')
  end.

(** [s.split(sep)] for a non-empty [sep]: the pieces between the
    non-overlapping occurrences of [sep], found from left to right.
    [skip] counts the characters of the occurrence being stepped over;
    the result is the piece under construction and the pieces after it. *)
Fixpoint split_from (sep : string) (skip : nat) (s : string) : string * list string :=
  match s with
  | EmptyString => (EmptyString, [])
  | String c s' =>
      match skip with
      | S k => split_from sep k s'
      | O =>
          if prefix sep s
          then (EmptyString,
                let (h, t) := split_from sep (length sep - 1) s' in h :: t)
          else let (h, t) := split_from sep 0 s' in (String c h, t)
      end
  end.

Definition split (sep s : string) : list string :=
  let (h, t) := split_from sep 0 s in h :: t.

(** [str.isspace] on one character of the Latin-1 range: TAB, LF, VT, FF,
    CR, FS, GS, RS, US, SPACE, NEL and NBSP. *)
Definition is_space (c : ascii) : bool :=
  let n := nat_of_ascii c in
  (((9 <=? n) && (n <=? 13)) || ((28 <=? n) && (n <=? 32))
  || (n =? 133) || (n =? 160))%nat.

Definition is_empty (s : string) : bool :=
  match s with EmptyString => true | _ => false end.

(** [s.split()]: the maximal runs of non-whitespace characters.  The
    first component is the word that starts at the head of [s]. *)
Fixpoint words (s : string) : string * list string :=
  match s with
  | EmptyString => (EmptyString, [])
  | String c s' =>
      let (w, ws) := words s' in
      if is_space c
      then (EmptyString, if is_empty w then ws else w :: ws)
      else (String c w, ws)
  end.

Definition split_ws (s : string) : list string :=
  let (w, ws) := words s in if is_empty w then ws else w :: ws.

(** [s.lstrip(chars)] and [s.rstrip(chars)], the set of characters given
    as a predicate. *)
Fixpoint lstrip (p : ascii -> bool) (s : string) : string :=
  match s with
  | EmptyString => EmptyString
  | String c s' => if p c then lstrip p s' else s
  end.

Fixpoint rstrip (p : ascii -> bool) (s : string) : string :=
  match s with
  | EmptyString => EmptyString
  | String c s' =>
      let r := rstrip p s' in
      if is_empty r && p c then EmptyString else String c r
  end.

Definition strip_chars (p : ascii -> bool) (s : string) : string :=
  rstrip p (lstrip p s).

(** [s.strip()] *)
Definition strip (s : string) : string := strip_chars is_space s.

(** The double-quote character, code point 34. *)
Definition dquote : ascii := Eval cbv in ascii_of_nat 34.

Definition is_dquote (c : ascii) : bool := Ascii.eqb c dquote.

(** [s.strip(chars)] with the double quote as its only character. *)
Definition strip_dquote (s : string) : string := strip_chars is_dquote s.

(** [s.rfind('/') + 1]: the length of the part up to and including the
    last slash. *)
Fixpoint after_last_slash (s : string) : option nat :=
  match s with
  | EmptyString => None
  | String c s' =>
      match after_last_slash s' with
      | Some n => Some (S n)
      | None => if Ascii.eqb c "/"%char then Some 1 else None
      end
  end.

Fixpoint take (n : nat) (s : string) : string :=
  match n, s with
  | S k, String c s' => String c (take k s')
  | _, _ => EmptyString
  end.

Fixpoint drop (n : nat) (s : string) : string :=
  match n, s with
  | S k, String _ s' => drop k s'
  | _, _ => s
  end.

Definition endswith_char (c : ascii) (s : string) : bool :=
  negb (String.eqb (rstrip (Ascii.eqb c) s) s).

End PyStr.

Import PyStr.

(** ** Exceptions and fallible pure code *)

(** The exceptions the script raises itself or receives from the library;
    all of them are subclasses of Python's [Exception].  Each carries the
    text that [str(e)] yields. *)
Inductive exn : Type :=
| FileNotFoundError (msg : string)
| ValueError (msg : string)
| IndexError (msg : string)
| OSError (msg : string).

Definition str_of_exn (e : exn) : string :=
  match e with
  | FileNotFoundError m | ValueError m | IndexError m | OSError m => m
  end.

Inductive result (A : Type) : Type :=
| Ok (a : A)
| Raised (e : exn).

Arguments Ok {A} a.
Arguments Raised {A} e.

Definition rbind {A B} (r : result A) (f : A -> result B) : result B :=
  match r with
  | Ok a => f a
  | Raised e => Raised e
  end.

Declare Scope result_scope.
Delimit Scope result_scope with result.
Notation "x <- r ;; k" := (rbind r (fun x => k))
  (at level 61, r at next level, right associativity) : result_scope.

(** [l[n]] for a non-negative index. *)
Definition index {A} (l : list A) (n : nat) : result A :=
  match nth_error l n with
  | Some a => Ok a
  | None => Raised (IndexError "list index out of range")
  end.

(** ** Dates: [datetime.strptime(s, "%Y-%m-%d")] *)

Module Date.

(** A [datetime] whose time of day is midnight. *)
Record t : Type := mk { year : nat; month : nat; day : nat }.

(** [a < b] on datetimes. *)
Definition ltb (a b : t) : bool :=
  ((year a <? year b)
   || ((year a =? year b)
       && ((month a <? month b)
           || ((month a =? month b) && (day a <? day b)))))%nat.

Definition is_digit (c : ascii) : bool :=
  let n := nat_of_ascii c in ((48 <=? n) && (n <=? 57))%nat.

Definition digit (c : ascii) : nat := nat_of_ascii c - 48.

Definition in_range (lo hi : nat) (c : ascii) : bool :=
  is_digit c && ((lo <=? digit c) && (digit c <=? hi))%nat.

Definition is_char (a c : ascii) : bool := Ascii.eqb a c.

(** The group [(?P<Y>\d\d\d\d)] at the head of [s]: the year and the
    rest of the text. *)
Definition match_Y (s : string) : option (nat * string) :=
  match s with
  | String a (String b (String c (String d r))) =>
      if is_digit a && is_digit b && is_digit c && is_digit d
      then Some (1000 * digit a + 100 * digit b + 10 * digit c + digit d, r)
      else None
  | _ => None
  end.

Definition alt (b : bool) (v : nat) (r : string) : list (nat * string) :=
  if b then [(v, r)] else [].

(** The group [(?P<m>1[0-2]|0[1-9]|[1-9])]: every way it matches at the
    head of [s], in the order the regular expression tries them. *)
Definition match_m (s : string) : list (nat * string) :=
  match s with
  | String a r =>
      match r with
      | String b r' =>
          alt (is_char a "1" && in_range 0 2 b) (10 + digit b) r'
          ++ alt (is_char a "0" && in_range 1 9 b) (digit b) r'
      | EmptyString => []
      end
      ++ alt (in_range 1 9 a) (digit a) r
  | EmptyString => []
  end.

(** The group [(?P<d>3[0-1]|[1-2]\d|0[1-9]|[1-9]| [1-9])]. *)
Definition match_d (s : string) : list (nat * string) :=
  match s with
  | String a r =>
      match r with
      | String b r' =>
          alt (is_char a "3" && in_range 0 1 b) (30 + digit b) r'
          ++ alt (in_range 1 2 a && is_digit b) (10 * digit a + digit b) r'
          ++ alt (is_char a "0" && in_range 1 9 b) (digit b) r'
      | EmptyString => []
      end
      ++ alt (in_range 1 9 a) (digit a) r
      ++ match r with
         | String b r' => alt (is_char a " " && in_range 1 9 b) (digit b) r'
         | EmptyString => []
         end
  | EmptyString => []
  end.

Definition expect (c : ascii) (s : string) : option string :=
  match s with
  | String a r => if is_char a c then Some r else None
  | EmptyString => None
  end.

(** The first alternative after which the rest of the expression matches. *)
Fixpoint first_match {A B} (alts : list A) (k : A -> option B) : option B :=
  match alts with
  | [] => None
  | a :: alts' =>
      match k a with
      | Some b => Some b
      | None => first_match alts' k
      end
  end.

(** [format_regex.match(s)] for the format [%Y-%m-%d]: the three numbers
    and the text left after the match. *)
Definition regex_match (s : string) : option (nat * nat * nat * string) :=
  match match_Y s with
  | Some (y, r1) =>
      match expect "-" r1 with
      | Some r2 =>
          first_match (match_m r2) (fun mr =>
            match expect "-" (snd mr) with
            | Some r3 =>
                match match_d r3 with
                | (d, r4) :: _ => Some (y, fst mr, d, r4)
                | [] => None
                end
            | None => None
            end)
      | None => None
      end
  | None => None
  end.

Definition is_leap (y : nat) : bool :=
  ((y mod 4 =? 0) && (negb (y mod 100 =? 0) || (y mod 400 =? 0)))%nat.

Definition days_in_month (y m : nat) : nat :=
  match m with
  | 2 => if is_leap y then 29 else 28
  | 4 | 6 | 9 | 11 => 30
  | _ => 31
  end.

(** [datetime.date(y, m, d)]: the range checks of the constructor. *)
Definition make (y m d : nat) : result t :=
  if (y <? 1)%nat then Raised (ValueError "year 0 is out of range")
  else if negb ((1 <=? m) && (m <=? 12))%nat
  then Raised (ValueError "month must be in 1..12")
  else if negb ((1 <=? d) && (d <=? days_in_month y m))%nat
  then Raised (ValueError "day is out of range for month")
  else Ok (mk y m d).

(** [datetime.strptime(s, "%Y-%m-%d")].  The text of the two matching
    errors quotes [s] the way [repr] does for a plain string. *)
Definition strptime (s : string) : result t :=
  match regex_match s with
  | None =>
      Raised (ValueError ("time data '" ++ s
                          ++ "' does not match format '%Y-%m-%d'"))
  | Some (y, m, d, rest) =>
      if is_empty rest then make y m d
      else Raised (ValueError ("unconverted data remains: " ++ rest))
  end.

End Date.

(** ** Selecting the newest rotated log (the pure part of [get_newest_log]) *)

(** The line feed, code point 10. *)
Definition LF : ascii := Eval cbv in ascii_of_nat 10.

(** Exactly [\d{4}-\d{2}-\d{2}]. *)
Definition date_shape (s : string) : bool :=
  match list_ascii_of_string s with
  | [y1; y2; y3; y4; h1; m1; m2; h2; d1; d2] =>
      Date.is_digit y1 && Date.is_digit y2 && Date.is_digit y3
      && Date.is_digit y4 && Ascii.eqb h1 "-" && Date.is_digit m1
      && Date.is_digit m2 && Ascii.eqb h2 "-" && Date.is_digit d1
      && Date.is_digit d2
  | _ => false
  end.

(** [\.log\.\d{4}-\d{2}-\d{2}$] at the head of [s]: [$] matches at the
    end of the text and also just before a line feed that ends it. *)
Definition rotation_suffix (s : string) : bool :=
  prefix ".log." s
  && (let r := drop 5 s in
      date_shape r
      || (date_shape (take 10 r) && String.eqb (drop 10 r) (String LF ""))).

(** [re.match(r'^.*\.log\.\d{4}-\d{2}-\d{2}$', s)]: [.*] takes any
    characters but the line feed. *)
Fixpoint re_match_rotation (s : string) : bool :=
  rotation_suffix s
  || match s with
     | String c s' => negb (Ascii.eqb c LF) && re_match_rotation s'
     | EmptyString => false
     end.

(** The list comprehension of lines 46-49. *)
Definition log_files (all_files : list string) (log_prefix : string) : list string :=
  filter (fun f => startswith f log_prefix && re_match_rotation f) all_files.

(** The sort key of line 57. *)
Definition sort_key (f : string) : result Date.t :=
  (d <- index (split ".log." f) 1 ;; Date.strptime d)%result.

(** The keys of all the elements, computed from left to right before any
    comparison is made, as [list.sort] does; the first failure is raised. *)
Fixpoint keyed (fs : list string) : result (list (Date.t * string)) :=
  match fs with
  | [] => Ok []
  | f :: fs' =>
      (k <- sort_key f ;; ks <- keyed fs' ;; Ok ((k, f) :: ks))%result
  end.

(** [list.sort(key=..., reverse=True)] on the keyed elements: descending,
    and stable (equal keys keep their listing order).  [x] comes before
    every element of [l] in the listing. *)
Fixpoint insert_desc (x : Date.t * string) (l : list (Date.t * string)) :
  list (Date.t * string) :=
  match l with
  | [] => [x]
  | y :: l' =>
      if Date.ltb (fst x) (fst y) then y :: insert_desc x l' else x :: l
  end.

Definition sort_desc (l : list (Date.t * string)) : list (Date.t * string) :=
  fold_right insert_desc [] l.

(** Lines 54-59: the file names sorted by date, newest first. *)
Definition sorted_log_files (fs : list string) : result (list string) :=
  (ks <- keyed fs ;; Ok (map snd (sort_desc ks)))%result.

(** ** The Locator's parsing (lines 81-84 and 96-99) *)

Definition is_nil {A} (l : list A) : bool :=
  match l with [] => true | _ => false end.

(** The [EnvironmentFile] lines of the service definition. *)
Definition environment_file_line (lines : list string) : list string :=
  filter (fun line => startswith line "EnvironmentFile") lines.

Definition environment_file_path (lines : list string) : result string :=
  if is_nil (environment_file_line lines)
  then Raised (ValueError "EnvironmentFile not found in klipper.service.")
  else
    (l <- index (environment_file_line lines) 0 ;;
     v <- index (split "=" l) 1 ;;
     Ok (strip v))%result.

(** The argument list of the first line of the environment file. *)
Definition klipper_args (first_line : string) : result (list string) :=
  let klipper_args_line := strip first_line in
  (v <- index (split "=" klipper_args_line) 1 ;;
   Ok (split_ws (strip_dquote v)))%result.

(** [(printer_cfg_path, log_file_path)] *)
Definition klipper_paths (first_line : string) : result (string * string) :=
  (args <- klipper_args first_line ;;
   printer_cfg_path <- index args 1 ;;
   log_file_path <- index args 5 ;;
   Ok (printer_cfg_path, log_file_path))%result.

(** ** Base-path derivation (lines 104-107 and 113-116) *)

Definition derive_base_path (path : string) : string :=
  if contains "printer_data" path
  then hd "" (split "printer_data" path) ++ "printer_data/"
  else path.

(** ** Path helpers of [os.path] (posixpath) *)

Module Path.

(** [os.path.join(a, b)] *)
Definition join (a b : string) : string :=
  if startswith b "/" then b
  else if is_empty a || endswith_char "/" a then a ++ b
  else a ++ "/" ++ b.

Definition join3 (a b c : string) : string := join (join a b) c.

Definition all_slashes (s : string) : bool :=
  is_empty (lstrip (Ascii.eqb "/") s).

(** [os.path.dirname(p)] *)
Definition dirname (p : string) : string :=
  let i := match after_last_slash p with Some n => n | None => 0 end in
  let head := take i p in
  if negb (is_empty head) && negb (all_slashes head)
  then rstrip (Ascii.eqb "/") head
  else head.

(** The components that [normpath] keeps of an absolute path: empty ones
    and [.] are dropped, [..] removes the component before it and is
    itself dropped at the root. *)
Fixpoint norm_comps (comps acc : list string) : list string :=
  match comps with
  | [] => rev acc
  | c :: comps' =>
      if is_empty c || String.eqb c "." then norm_comps comps' acc
      else if String.eqb c ".." then norm_comps comps' (tl acc)
      else norm_comps comps' (c :: acc)
  end.

Definition components (p : string) : list string :=
  norm_comps (split "/" p) [].

Fixpoint strip_common (a b : list string) : list string * list string :=
  match a, b with
  | x :: a', y :: b' => if String.eqb x y then strip_common a' b' else (a, b)
  | _, _ => (a, b)
  end.

Fixpoint join_all (l : list string) : string :=
  match l with
  | [] => ""
  | [x] => x
  | x :: l' => x ++ "/" ++ join_all l'
  end.

(** [os.path.relpath(path, start)] for absolute [path] and [start], the
    only kind the script passes: [start] is the scratch directory and
    [path] a file that [os.walk] found under it.  (A relative argument
    would first be resolved against the working directory.) *)
Definition relpath (path start : string) : result string :=
  if is_empty path then Raised (ValueError "no path specified")
  else
    let (s, p) := strip_common (components start) (components path) in
    let rel_list := (map (fun _ => "..") s ++ p)%list in
    Ok (if is_nil rel_list then "." else join_all rel_list).

End Path.

(** ** Programs over the operating system *)

(** The library calls through which the script reaches the operating
    system.  Each either returns a value or raises. *)
Inductive op : Type :=
| path_exists (path : string)              (* os.path.exists *)
| readlines (path : string)                (* open(path, 'r'), f.readlines() *)
| readline (path : string)                 (* open(path, 'r'), f.readline() *)
| rmtree (path : string)                   (* shutil.rmtree *)
| makedirs (path : string)                 (* os.makedirs(path, exist_ok=True) *)
| listdir (path : string)                  (* os.listdir *)
| copy (src dst : string)                  (* shutil.copy *)
| copytree (src dst : string)              (* shutil.copytree *)
| open_w (path : string)                   (* open(path, 'w') *)
| write (path text : string)               (* f.write *)
| close (path : string)                    (* leaving the [with] block *)
| subprocess_run (args : list string) (stdout : string)
                                           (* subprocess.run(args, stdout=f) *)
| platform_platform                        (* platform.platform() *)
| strftime (format : string)               (* time.strftime *)
| zip_open (path : string)                 (* zipfile.ZipFile(path, 'w', ...) *)
| walk (top : string)                      (* os.walk *)
| zip_write (archive filename arcname : string)   (* zipf.write *)
| zip_close (path : string).               (* leaving the [with] block *)

(** What a call returns: [subprocess.run] returns the exit status of the
    command, [os.walk] the [(root, dirs, files)] triples. *)
Definition response (o : op) : Type :=
  match o with
  | path_exists _ => bool
  | readlines _ => list string
  | readline _ => string
  | listdir _ => list string
  | subprocess_run _ _ => Z
  | platform_platform => string
  | strftime _ => string
  | walk _ => list (string * list string * list string)
  | _ => unit
  end.

Inductive prog (A : Type) : Type :=
| Ret (a : A)
| Raise (e : exn)
| Call (o : op) (k : result (response o) -> prog A)
| Print (line : string) (k : prog A).

Arguments Ret {A} a.
Arguments Raise {A} e.
Arguments Call {A} o k.
Arguments Print {A} line k.

Fixpoint bind {A B} (p : prog A) (f : A -> prog B) : prog B :=
  match p with
  | Ret a => f a
  | Raise e => Raise e
  | Call o k => Call o (fun r => bind (k r) f)
  | Print s k => Print s (bind k f)
  end.

(** A call whose exception propagates. *)
Definition call (o : op) : prog (response o) :=
  Call o (fun r => match r with Ok x => Ret x | Raised e => Raise e end).

Definition print (line : string) : prog unit := Print line (Ret tt).

Definition lift {A} (r : result A) : prog A :=
  match r with Ok a => Ret a | Raised e => Raise e end.

(** [try: p except Exception as e: h e] *)
Fixpoint try_except {A} (p : prog A) (h : exn -> prog A) : prog A :=
  match p with
  | Ret a => Ret a
  | Raise e => h e
  | Call o k => Call o (fun r => try_except (k r) h)
  | Print s k => Print s (try_except k h)
  end.

(** [q] runs when [p] is left, normally or by an exception. *)
Fixpoint finally {A} (p : prog A) (q : prog unit) : prog A :=
  match p with
  | Ret a => bind q (fun _ => Ret a)
  | Raise e => bind q (fun _ => Raise e)
  | Call o k => Call o (fun r => finally (k r) q)
  | Print s k => Print s (finally k q)
  end.

Declare Scope prog_scope.
Delimit Scope prog_scope with prog.
Notation "x <- p ;; k" := (bind p (fun x => k))
  (at level 61, p at next level, right associativity) : prog_scope.
Notation "p ;; k" := (bind p (fun _ => k))
  (at level 61, right associativity) : prog_scope.

(** [for x in l: body x] *)
Fixpoint for_each {X} (l : list X) (body : X -> prog unit) : prog unit :=
  match l with
  | [] => Ret tt
  | x :: l' => (body x ;; for_each l' body)%prog
  end.

(** ** Running a program in an environment *)

(** What happened during a run: the calls with their results and the
    lines printed, in order. *)
Inductive event : Type :=
| Called (o : op) (r : result (response o))
| Printed (line : string).

(** An environment answers every call from its current state. *)
Record env : Type := {
  state : Type;
  handle : forall o : op, state -> result (response o) * state
}.

Record run_result (A St : Type) : Type := {
  outcome : result A;
  trace : list event;
  final : St
}.

Fixpoint run {A} (E : env) (p : prog A) (st : state E) : run_result A (state E) :=
  match p with
  | Ret a => {| outcome := Ok a; trace := []; final := st |}
  | Raise e => {| outcome := Raised e; trace := []; final := st |}
  | Call o k =>
      let (r, st') := handle E o st in
      let R := run E (k r) st' in
      {| outcome := outcome R; trace := Called o r :: trace R; final := final R |}
  | Print s k =>
      let R := run E k st in
      {| outcome := outcome R; trace := Printed s :: trace R; final := final R |}
  end.

(** ** The script *)

Local Open Scope prog_scope.

(** The ANSI colour codes of class [Colors]. *)
Module Colors.
Definition ESC : string := Eval cbv in String (ascii_of_nat 27) "".
Definition OKCYAN : string := ESC ++ "[96m".
Definition OKGREEN : string := ESC ++ "[92m".
Definition WARNING : string := ESC ++ "[93m".
Definition FAIL : string := ESC ++ "[91m".
Definition ENDC : string := ESC ++ "[0m".
Definition BOLD : string := ESC ++ "[1m".
End Colors.

Definition nl : string := String LF "".

Definition ok_line (message : string) : string :=
  Colors.OKGREEN ++ "[OK] " ++ message ++ Colors.ENDC.

Definition fail_line (message : string) : string :=
  Colors.FAIL ++ "[FAIL] " ++ message ++ Colors.ENDC.

Definition step_line (message : string) : string :=
  Colors.OKCYAN ++ message ++ "..." ++ Colors.ENDC.

Definition status_message (message : string) (success : bool) : prog unit :=
  if success then print (ok_line message) else print (fail_line message).

Definition step_message (message : string) : prog unit :=
  print (step_line message).

Definition ensure_empty_dir (path : string) : prog unit :=
  b <- call (path_exists path) ;;
  (if b then call (rmtree path) else Ret tt) ;;
  call (makedirs path).

(** Lines 45-65 of [get_newest_log], after the directory was listed. *)
Definition newest_of (all_files : list string) (log_prefix : string) :
  prog (option string) :=
  let log_files := log_files all_files log_prefix in
  if is_nil log_files then Ret None
  else
    match sorted_log_files log_files with
    | Raised e =>
        print ("Error while parsing log filenames: " ++ str_of_exn e) ;;
        Ret None
    | Ok sorted =>
        newest <- lift (index sorted 0) ;;
        Ret (Some newest)
    end.

Definition get_newest_log (log_dir log_prefix : string) : prog (option string) :=
  all_files <- call (listdir log_dir) ;;
  newest_of all_files log_prefix.

Definition klipper_service_path : string := "/etc/systemd/system/klipper.service".
Definition support_dir : string := "/tmp/klipper_support".
Definition zip_path : string := "/tmp/klipper_support.zip".
Definition timestamp_format : string := "%Y%m%d_%H%M%S".

(** 1. Check if klipper.service exists (lines 69-74). *)
Definition check_klipper_service : prog unit :=
  step_message "Checking klipper.service" ;;
  b <- call (path_exists klipper_service_path) ;;
  (if negb b
   then Raise (FileNotFoundError (klipper_service_path ++ " does not exist."))
   else Ret tt) ;;
  status_message "klipper.service found" true.

(** 2. Read klipper.service and extract EnvironmentFile (lines 76-85). *)
Definition read_klipper_service : prog string :=
  step_message "Reading klipper.service content" ;;
  lines <- call (readlines klipper_service_path) ;;
  path <- lift (environment_file_path lines) ;;
  status_message "EnvironmentFile path extracted" true ;;
  Ret path.

(** 3. Check if EnvironmentFile exists (lines 87-91). *)
Definition check_environment_file (environment_file_path : string) : prog unit :=
  step_message "Checking EnvironmentFile existence" ;;
  b <- call (path_exists environment_file_path) ;;
  (if negb b
   then Raise (FileNotFoundError (environment_file_path ++ " does not exist."))
   else Ret tt) ;;
  status_message "EnvironmentFile found" true.

(** 4. Read EnvironmentFile and extract the paths (lines 93-100). *)
Definition read_environment_file (environment_file_path : string) :
  prog (string * string) :=
  step_message "Reading EnvironmentFile content" ;;
  first_line <- call (readline environment_file_path) ;;
  paths <- lift (klipper_paths first_line) ;;
  status_message "Paths extracted from EnvironmentFile" true ;;
  Ret paths.

(** 5. and 6. Determine a base path (lines 102-109 and 111-118): [what]
    and [label] are the two texts in which the copies differ. *)
Definition determine_base_path (what label path : string) : prog string :=
  step_message ("Determining base_path for " ++ what) ;;
  let base_path := derive_base_path path in
  (if contains "printer_data" path then Ret tt
   else print (Colors.WARNING ++ "Warning: Non-standard installation for "
               ++ what ++ " at " ++ base_path ++ Colors.ENDC)) ;;
  status_message (label ++ base_path) true ;;
  Ret base_path.

(** 7. Prepare support directory (lines 120-124). *)
Definition prepare_support_directory : prog unit :=
  step_message "Preparing support directory" ;;
  ensure_empty_dir support_dir ;;
  status_message "Support directory prepared" true.

Definition no_archived_log : prog unit :=
  status_message "No archived klippy log found." true.

(** Copy selective logs (lines 126-147). *)
Definition copy_selective_logs (log_file_path : string) : prog unit :=
  step_message "Copying selective logs" ;;
  (if contains "printer_data" log_file_path
   then
     let log_dir := Path.dirname log_file_path in
     for_each ["klippy.log"; "moonraker.log"] (fun file =>
       let file_path := Path.join log_dir file in
       b <- call (path_exists file_path) ;;
       if b
       then call (copy file_path (Path.join support_dir file)) ;;
            status_message ("Copied " ++ file) true
       else Ret tt) ;;
     newest_log <- get_newest_log log_dir "klippy.log" ;;
     match newest_log with
     | Some name =>
         if is_empty name then no_archived_log
         else
           call (copy (Path.join log_dir name) (Path.join support_dir name)) ;;
           status_message ("Copied last rolled-over log: " ++ name) true
     | None => no_archived_log
     end
   else call (copy log_file_path (Path.join support_dir "klippy.log"))) ;;
  status_message "Selective logs copied" true.

(** Copy printer.cfg (lines 149-155). *)
Definition copy_printer_cfg (printer_cfg_path : string) : prog unit :=
  step_message "Copying printer.cfg" ;;
  (if contains "printer_data" printer_cfg_path
   then call (copytree (Path.dirname printer_cfg_path)
                       (Path.join support_dir "config"))
   else call (copy printer_cfg_path (Path.join support_dir "printer.cfg"))) ;;
  status_message "Printer.cfg copied" true.

(** [with open(path, 'w') as f: body] *)
Definition with_open_w {A} (path : string) (body : prog A) : prog A :=
  call (open_w path) ;;
  finally body (call (close path)).

(** Collect OS information (lines 157-166). *)
Definition collect_os_information : prog unit :=
  step_message "Collecting OS information" ;;
  let os_info_path := Path.join support_dir "OS_Information.txt" in
  with_open_w os_info_path
    (call (subprocess_run ["uname"; "-a"] os_info_path) ;;
     call (write os_info_path nl) ;;
     call (subprocess_run ["cat"; "/etc/os-release"] os_info_path) ;;
     call (write os_info_path nl) ;;
     platform <- call platform_platform ;;
     call (write os_info_path ("Platform: " ++ platform ++ nl))) ;;
  status_message "OS information collected" true.

(** Collect network information (lines 168-173). *)
Definition collect_network_information : prog unit :=
  step_message "Collecting network information" ;;
  let network_info_path := Path.join support_dir "Network_Information.txt" in
  with_open_w network_info_path
    (call (subprocess_run ["ip"; "-details"; "-s"; "link"; "show"]
                          network_info_path) ;;
     Ret tt) ;;
  status_message "Network information collected" true.

(** Collect dmesg information (lines 175-180). *)
Definition collect_dmesg_information : prog unit :=
  step_message "Collecting dmesg information" ;;
  let dmesg_path := Path.join support_dir "dmesg.txt" in
  with_open_w dmesg_path
    (call (subprocess_run ["sudo"; "dmesg"] dmesg_path) ;;
     Ret tt) ;;
  status_message "dmesg information collected" true.

(** The three reports (lines 157-180). *)
Definition collect_system_reports : prog unit :=
  collect_os_information ;;
  collect_network_information ;;
  collect_dmesg_information.

(** The body of the inner loop (lines 188-192). *)
Definition add_to_archive (root file : string) : prog unit :=
  let abs_path := Path.join root file in
  arcname <- lift (Path.relpath abs_path support_dir) ;;
  timestamp <- call (strftime timestamp_format) ;;
  let arcname_with_timestamp := arcname ++ "_" ++ timestamp in
  call (zip_write zip_path abs_path arcname_with_timestamp).

(** Compress the folder (lines 182-193).  [os.walk] is taken as one call
    that yields all its triples. *)
Definition compress_support_folder : prog unit :=
  step_message "Compressing support folder" ;;
  call (zip_open zip_path) ;;
  finally
    (triples <- call (walk support_dir) ;;
     for_each triples (fun '(root, dirs, files) =>
       for_each files (fun file => add_to_archive root file)))
    (call (zip_close zip_path)) ;;
  status_message "Support folder compressed" true.

Definition created_line (final_path : string) : string :=
  Colors.BOLD ++ Colors.OKGREEN ++ "Support ZIP created: " ++ final_path
  ++ Colors.ENDC.

(** Final message (lines 195-205). *)
Definition final_message (base_path : string) : prog unit :=
  timestamp <- call (strftime timestamp_format) ;;
  if contains "printer_data" base_path
  then
    let final_path :=
      Path.join3 base_path "logs" ("klipper_support_" ++ timestamp ++ ".zip") in
    call (copy zip_path final_path) ;;
    print (created_line final_path) ;;
    print (Colors.BOLD ++ Colors.WARNING
           ++ "Get the file in the logs section of the webinterface. Refresh might be needed!"
           ++ Colors.ENDC)
  else
    let final_path := "/tmp/klipper_support_" ++ timestamp ++ ".zip" in
    call (copy zip_path final_path) ;;
    print (created_line final_path).

(** The Locator: steps 1 to 4. *)
Definition locate : prog (string * string) :=
  check_klipper_service ;;
  environment_file_path <- read_klipper_service ;;
  check_environment_file environment_file_path ;;
  read_environment_file environment_file_path.

(** The Collector: step 7 and the copies and reports after it. *)
Definition collect (printer_cfg_path log_file_path : string) : prog unit :=
  prepare_support_directory ;;
  copy_selective_logs log_file_path ;;
  copy_printer_cfg printer_cfg_path ;;
  collect_system_reports.

(** The [try] block of [main] (lines 69-205). *)
Definition main_body : prog unit :=
  paths <- locate ;;
  let printer_cfg_path := fst paths in
  let log_file_path := snd paths in
  base_path <- determine_base_path "printer.cfg" "Printer config path: "
                                   printer_cfg_path ;;
  base_path_log <- determine_base_path "log file" "Log file path: "
                                       log_file_path ;;
  collect printer_cfg_path log_file_path ;;
  compress_support_folder ;;
  final_message base_path.

(** [main] (lines 67-208). *)
Definition main : prog unit :=
  try_except main_body (fun e => status_message (str_of_exn e) false).

(** ** Concrete environments *)

(** A host described by what the script can observe of it.  The state of
    the environment is the number of times the clock was read. *)
Record scenario : Type := {
  service_lines : list string;       (* the lines of klipper.service *)
  env_first_line : string;           (* the first line of the environment file *)
  log_listing : list string;         (* the names in the log directory *)
  present : string -> bool;          (* the paths that exist *)
  missing_commands : list string;    (* executables that are not installed *)
  exit_code : list string -> Z;      (* the exit status of each command *)
  tree : list (string * list string * list string);
                                     (* what os.walk finds in the scratch directory *)
  clock : nat -> string              (* the successive readings of the clock *)
}.

Definition run_command (s : scenario) (args : list string) : result Z :=
  match args with
  | cmd :: _ =>
      if existsb (String.eqb cmd) (missing_commands s)
      then Raised (FileNotFoundError
                     ("[Errno 2] No such file or directory: '" ++ cmd ++ "'"))
      else Ok (exit_code s args)
  | [] => Raised (IndexError "list index out of range")
  end.

Definition scenario_handle (s : scenario) (o : op) (n : nat) :
  result (response o) * nat :=
  match o return result (response o) * nat with
  | path_exists p => (Ok (present s p), n)
  | readlines p =>
      (if String.eqb p klipper_service_path then Ok (service_lines s)
       else Raised (FileNotFoundError
                      ("[Errno 2] No such file or directory: '" ++ p ++ "'")), n)
  | readline _ => (Ok (env_first_line s), n)
  | listdir _ => (Ok (log_listing s), n)
  | subprocess_run args _ => (run_command s args, n)
  | platform_platform => (Ok "Linux-6.1.21-v8+-aarch64-with-glibc2.31", n)
  | strftime _ => (Ok (clock s n), S n)
  | walk _ => (Ok (tree s), n)
  | rmtree _ | makedirs _ | copy _ _ | copytree _ _ | open_w _ | write _ _
  | close _ | zip_open _ | zip_write _ _ _ | zip_close _ => (Ok tt, n)
  end.

Definition scenario_env (s : scenario) : env :=
  {| state := nat; handle := scenario_handle s |}.

(** The environment file of a standard installation. *)
Definition standard_env_line : string :=
  "KLIPPER_ARGS=" ++ String dquote
    ("/home/pi/klipper/klippy/klippy.py /home/pi/printer_data/config/printer.cfg"
     ++ " -I /home/pi/printer_data/comms/klippy.serial"
     ++ " -l /home/pi/printer_data/logs/klippy.log"
     ++ " -a /home/pi/printer_data/comms/klippy.sock")
  ++ String dquote nl.

Definition standard_clock (n : nat) : string :=
  match n with
  | 0 => "20240315_101559"
  | 1 => "20240315_101559"
  | 2 => "20240315_101600"
  | _ => "20240315_101601"
  end.

Definition standard : scenario := {|
  service_lines :=
    ["[Unit]" ++ nl; "Description=Klipper 3D Printer Firmware SV1" ++ nl;
     "[Service]" ++ nl;
     "EnvironmentFile=/home/pi/printer_data/systemd/klipper.env" ++ nl;
     "ExecStart=/home/pi/klippy-env/bin/python $KLIPPER_ARGS" ++ nl];
  env_first_line := standard_env_line;
  log_listing :=
    ["klippy.log"; "klippy.log.2024-01-01"; "klippy.log.2024-03-15";
     "klippy.log.2023-12-31"; "moonraker.log"];
  present := fun _ => true;
  missing_commands := [];
  exit_code := fun _ => 0%Z;
  tree :=
    [("/tmp/klipper_support", ["config"],
      ["klippy.log"; "moonraker.log"; "dmesg.txt"]);
     ("/tmp/klipper_support/config", [], ["printer.cfg"])];
  clock := standard_clock
|}.

(** The standard host with given executables removed. *)
Definition without_commands (cmds : list string) : scenario := {|
  service_lines := service_lines standard;
  env_first_line := env_first_line standard;
  log_listing := log_listing standard;
  present := present standard;
  missing_commands := cmds;
  exit_code := exit_code standard;
  tree := tree standard;
  clock := clock standard
|}.

(** ** Reasoning about every run *)

(** [wp p Q]: whatever the environment answers, the outcome and the trace
    of [p] satisfy [Q]. *)
Fixpoint wp {A} (p : prog A) (Q : result A -> list event -> Prop) : Prop :=
  match p with
  | Ret a => Q (Ok a) []
  | Raise e => Q (Raised e) []
  | Call o k => forall r, wp (k r) (fun out tr => Q out (Called o r :: tr))
  | Print s k => wp k (fun out tr => Q out (Printed s :: tr))
  end.

(** ** Observations on traces *)

(** A call that raised. *)
Definition raised (ev : event) : bool :=
  match ev with
  | Called _ (Raised _) => true
  | _ => false
  end.

Definition is_fail_line (line : string) : bool :=
  prefix (Colors.FAIL ++ "[FAIL] ") line.

(** The failure messages on the console. *)
Fixpoint fail_lines (tr : list event) : list string :=
  match tr with
  | [] => []
  | Printed line :: tr' =>
      if is_fail_line line then line :: fail_lines tr' else fail_lines tr'
  | Called _ _ :: tr' => fail_lines tr'
  end.

(** [s.endswith(suffix)] *)
Definition endswith (s suffix : string) : bool :=
  (length suffix <=? length s)%nat
  && String.eqb (drop (length s - length suffix) s) suffix.

(** A completed copy of the archive to a [.zip] destination: the final
    placement of lines 199 and 204. *)
Definition archive_copied (ev : event) : bool :=
  match ev with
  | Called (copy src dst) (Ok _) => String.eqb src zip_path && endswith dst ".zip"
  | _ => false
  end.

(** The calls that only read: they create, change or remove nothing and
    start no command. *)
Definition read_only (o : op) : bool :=
  match o with
  | path_exists _ | readlines _ | readline _ | listdir _ | walk _
  | platform_platform | strftime _ => true
  | _ => false
  end.

Definition harmless (ev : event) : bool :=
  match ev with
  | Called o _ => read_only o
  | Printed _ => true
  end.

(** The first line read from an environment file, if [ev] is such a read. *)
Definition line_read (ev : event) : option string :=
  match ev with
  | Called (readline _) (Ok line) => Some line
  | _ => None
  end.

(** The lines read from a file, if [ev] is such a read. *)
Definition lines_read (ev : event) : option (list string) :=
  match ev with
  | Called (readlines _) (Ok lines) => Some lines
  | _ => None
  end.

(** The names listed, if [ev] is a directory listing. *)
Definition listed (ev : event) : option (list string) :=
  match ev with
  | Called (listdir _) (Ok names) => Some names
  | _ => None
  end.

(** ** Vocabulary of the statements *)

(** [x] is the first of the elements of [l] with the greatest key. *)
Definition first_greatest (l : list (Date.t * string)) (x : Date.t * string) : Prop :=
  exists pre post,
    l = (pre ++ x :: post)%list
    /\ (forall y, In y pre -> Date.ltb (fst y) (fst x) = true)
    /\ (forall y, In y post -> Date.ltb (fst x) (fst y) = false).

(** [f] is the first of the names [fs] whose date is the most recent. *)
Definition newest_in (fs : list string) (f : string) : Prop :=
  exists k pre post,
    fs = (pre ++ f :: post)%list
    /\ sort_key f = Ok k
    /\ (forall g, In g pre ->
          exists k', sort_key g = Ok k' /\ Date.ltb k' k = true)
    /\ (forall g, In g post ->
          exists k', sort_key g = Ok k' /\ Date.ltb k k' = false).

Fixpoint all_chars (p : ascii -> bool) (s : string) : bool :=
  match s with
  | EmptyString => true
  | String c s' => p c && all_chars p s'
  end.

Definition first_char (s : string) : option ascii :=
  match s with
  | EmptyString => None
  | String c _ => Some c
  end.

Fixpoint last_char (s : string) : option ascii :=
  match s with
  | EmptyString => None
  | String c s' =>
      match last_char s' with
      | Some d => Some d
      | None => Some c
      end
  end.

Definition holds_at (p : ascii -> bool) (c : option ascii) : bool :=
  match c with
  | Some a => p a
  | None => false
  end.

(** [key], blanks, [=], blanks, the double-quoted [value], and what ends
    the line. *)
Definition env_line (key ws1 ws2 value trail : string) : string :=
  key ++ ws1 ++ "=" ++ ws2 ++ String dquote (value ++ String dquote trail).

(** The [EnvironmentFile] line of a service definition. *)
Definition service_line (ws1 ws2 path trail : string) : string :=
  "EnvironmentFile" ++ ws1 ++ "=" ++ ws2 ++ path ++ trail.

(** The files that [os.walk] reported, in order, by their joined paths. *)
Definition walked_files (triples : list (string * list string * list string)) :
  list string :=
  flat_map (fun t => map (Path.join (fst (fst t))) (snd t)) triples.

(** One entry of the archive: the file, its name relative to the scratch
    directory and the clock reading taken for it. *)
Record entry : Type := {
  abs_path : string;
  arcname : string;
  timestamp : string
}.

(** What adding one entry leaves in the trace: the clock is read, then
    the file is written under its stamped name. *)
Definition entry_events (en : entry) : list event :=
  [Called (strftime timestamp_format) (Ok (timestamp en));
   Called (zip_write zip_path (abs_path en)
                     (arcname en ++ "_" ++ timestamp en)) (Ok tt)].

(** ** Further vocabulary of the statements and the proofs *)

Unset Implicit Arguments.

(** [P] holds of every event of the trace, whatever the outcome. *)
Definition always (P : event -> Prop) {A} : result A -> list event -> Prop :=
  fun _ tr => Forall P tr.

(** [ev] is not a printed failure message. *)
Definition quiet (ev : event) : Prop := fail_lines [ev] = [].



(** What [l[n]] raises when [n] is out of range. *)
Definition index_error : exn := IndexError "list index out of range".

(** [ev] reads no environment file. *)
Definition no_line_read_by (ev : event) : Prop := line_read ev = None.

(** A host whose environment file starts with a line without [=]. *)
Definition with_env_line (line : string) : scenario := {|
  service_lines := service_lines standard;
  env_first_line := line;
  log_listing := log_listing standard;
  present := present standard;
  missing_commands := missing_commands standard;
  exit_code := exit_code standard;
  tree := tree standard;
  clock := clock standard
|}.

(** A host with the given names in its log directory. *)
Definition with_listing (names : list string) : scenario := {|
  service_lines := service_lines standard;
  env_first_line := env_first_line standard;
  log_listing := names;
  present := present standard;
  missing_commands := missing_commands standard;
  exit_code := exit_code standard;
  tree := tree standard;
  clock := clock standard
|}.

(** The text after the first occurrence of [sep]. *)
Fixpoint after (sep s : string) : string :=
  match s with
  | EmptyString => EmptyString
  | String _ s' => if prefix sep s then drop (length sep) s else after sep s'
  end.

(** No name of the listing that starts with the prefix matches the
    rotation pattern. *)
Definition no_rotation (all_files : list string) (log_prefix : string) : Prop :=
  forall f, In f all_files ->
    startswith f log_prefix = true -> re_match_rotation f = false.

(** [ev] lists no directory. *)
Definition lists_nothing (ev : event) : Prop := listed ev = None.

(** The lines that follow an empty selection. *)
Definition no_rotation_lines : list string :=
  [ok_line "No archived klippy log found."; ok_line "Selective logs copied";
   step_line "Copying printer.cfg"].

(** Every listing without a rotated log is followed by the three lines. *)
Definition reports_no_rotation (tr : list event) : Prop :=
  forall names,
    In (Some names) (map listed tr) ->
    no_rotation names "klippy.log" ->
    forall line, In line no_rotation_lines -> In (Printed line) tr.








(** [en] is named after its path relative to the scratch directory. *)
Definition named_relative (en : entry) : Prop :=
  Path.relpath (abs_path en) support_dir = Ok (arcname en).

(** A loop that ends normally leaves the entries of its rounds, in order. *)
Definition adds {A} (S : list entry -> Prop) (out : result A) (tr : list event) :
  Prop :=
  (exists a, out = Ok a) ->
  exists entries, S entries /\ tr = flat_map entry_events entries.

(** The trace of a packaging that ends normally. *)
Definition packaged (triples : list (string * list string * list string))
           (entries : list entry) : list event :=
  ([Printed (step_line "Compressing support folder");
    Called (zip_open zip_path) (Ok tt);
    Called (walk support_dir) (Ok triples)]
   ++ flat_map entry_events entries
   ++ [Called (zip_close zip_path) (Ok tt);
       Printed (ok_line "Support folder compressed")])%list.

(** Under condition [C], a run in which no call raises ends normally. *)
Definition progresses {A} (C : Prop) (out : result A) (tr : list event) : Prop :=
  C -> existsb raised tr = false -> exists a, out = Ok a.

(** The triples of a walk, if [ev] is one. *)
Definition walked (ev : event) : option (list (string * list string * list string)) :=
  match ev with
  | Called (walk _) (Ok triples) => Some triples
  | _ => None
  end.

(** The path and the first line of an environment file, if [ev] reads one. *)
Definition line_read_at (ev : event) : option (string * string) :=
  match ev with
  | Called (readline path) (Ok line) => Some (path, line)
  | _ => None
  end.

(** ** Vocabulary of the further properties *)

(** *** What a run may touch *)

(** [ev] removes nothing but the scratch directory. *)
Definition removes_only_scratch (ev : event) : Prop :=
  match ev with
  | Called (rmtree path) _ => path = support_dir
  | _ => True
  end.

(** The scratch directory itself or a path below it. *)
Definition inside_scratch (path : string) : bool :=
  String.eqb path support_dir || startswith path "/tmp/klipper_support/".

(** Whatever [ev] creates, writes, removes or redirects output to lies in
    the scratch directory or is the archive at its temporary path; the
    one exception is a copy of that archive to another place. *)
Definition confined (ev : event) : bool :=
  match ev with
  | Called (copy src dst) _ => String.eqb src zip_path || inside_scratch dst
  | Called (copytree _ dst) _ => inside_scratch dst
  | Called (rmtree path) _ | Called (makedirs path) _
  | Called (open_w path) _ | Called (write path _) _
  | Called (close path) _ => inside_scratch path
  | Called (subprocess_run _ stdout) _ => inside_scratch stdout
  | Called (zip_open path) _ | Called (zip_close path) _ =>
      String.eqb path zip_path
  | Called (zip_write archive _ _) _ => String.eqb archive zip_path
  | _ => true
  end.

Definition is_confined (ev : event) : Prop := confined ev = true.

(** *** More on [get_newest_log] *)

(** [a] is not older than [b]. *)
Definition not_older (a b : Date.t * string) : Prop :=
  Date.ltb (fst a) (fst b) = false.

(** Of two names with dates, the first is not the older one. *)
Definition not_older_name (f g : string) : Prop :=
  forall kf kg, sort_key f = Ok kf -> sort_key g = Ok kg -> Date.ltb kf kg = false.

(** A host whose log directory cannot be listed. *)
Definition unlistable_handle (o : op) (n : nat) : result (response o) * nat :=
  match o return result (response o) * nat with
  | listdir path =>
      (Raised (FileNotFoundError
                 ("[Errno 2] No such file or directory: '" ++ path ++ "'")), n)
  | other => scenario_handle standard other n
  end.

Definition unlistable : env := {| state := nat; handle := unlistable_handle |}.

(** *** Dated names *)

(** The character of a decimal digit. *)
Definition digit_char (n : nat) : ascii := ascii_of_nat (48 + n).

Definition two_digits (n : nat) : string :=
  String (digit_char (n / 10)) (String (digit_char (n mod 10)) "").

Definition four_digits (n : nat) : string :=
  String (digit_char (n / 1000))
    (String (digit_char (n / 100 mod 10))
       (String (digit_char (n / 10 mod 10))
          (String (digit_char (n mod 10)) ""))).

(** [YYYY-MM-DD] with leading zeros, as [date.isoformat()] writes it. *)
Definition isoformat (d : Date.t) : string :=
  four_digits (Date.year d) ++ "-" ++ two_digits (Date.month d) ++ "-"
  ++ two_digits (Date.day d).

(** A date of the calendar, within the years that [datetime] supports. *)
Definition valid_date (d : Date.t) : bool :=
  ((1 <=? Date.year d) && (Date.year d <? 10 * 1000)
   && (1 <=? Date.month d) && (Date.month d <=? 12)
   && (1 <=? Date.day d)
   && (Date.day d <=? Date.days_in_month (Date.year d) (Date.month d)))%nat.

(** *** The outcome of the Locator and the final placement *)

(** The answer of an existence test, if [ev] is one. *)
Definition found (ev : event) : option (string * bool) :=
  match ev with
  | Called (path_exists path) (Ok b) => Some (path, b)
  | _ => None
  end.

(** The text of the timestamp taken, if [ev] is a reading of the clock. *)
Definition clock_read (ev : event) : option string :=
  match ev with
  | Called (strftime _) (Ok timestamp) => Some timestamp
  | _ => None
  end.

(** The destination of a completed copy of the archive. *)
Definition archive_copied_to (ev : event) : option string :=
  match ev with
  | Called (copy src dst) (Ok _) =>
      if String.eqb src zip_path then Some dst else None
  | _ => None
  end.

(** The lines printed. *)
Definition printed (ev : event) : option string :=
  match ev with
  | Printed line => Some line
  | _ => None
  end.

(** The archive was copied to [dst], whose name carries a timestamp that
    was read from the clock, and the console names [dst]. *)
Definition placed (dst timestamp : string) (tr : list event) : Prop :=
  In (Some timestamp) (map clock_read tr)
  /\ In (Some dst) (map archive_copied_to tr)
  /\ In (Some (created_line dst)) (map printed tr).

(** Where lines 197-204 put the archive, written out as one text. *)
Definition final_place (printer_cfg_path timestamp : string) : string :=
  if contains "printer_data" printer_cfg_path
  then before "printer_data" printer_cfg_path
       ++ "printer_data/logs/klipper_support_" ++ timestamp ++ ".zip"
  else "/tmp/klipper_support_" ++ timestamp ++ ".zip".

Definition without_service : scenario := {|
  service_lines := service_lines standard;
  env_first_line := env_first_line standard;
  log_listing := log_listing standard;
  present := fun path => negb (String.eqb path klipper_service_path);
  missing_commands := [];
  exit_code := exit_code standard;
  tree := tree standard;
  clock := clock standard
|}.

Definition with_service_lines (lines : list string) : scenario := {|
  service_lines := lines;
  env_first_line := env_first_line standard;
  log_listing := log_listing standard;
  present := present standard;
  missing_commands := [];
  exit_code := exit_code standard;
  tree := tree standard;
  clock := clock standard
|}.

(** *** The scratch directory is reset before it is used *)

(** [ev] puts something into the scratch directory, the archive or the
    final place: a copy, a file opened for writing or written to, a
    command started with its output redirected, an archive opened or
    extended. *)
Definition fills (ev : event) : bool :=
  match ev with
  | Called (copy _ _) _ | Called (copytree _ _) _ | Called (open_w _) _
  | Called (write _ _) _ | Called (subprocess_run _ _) _
  | Called (zip_open _) _ | Called (zip_write _ _ _) _ => true
  | _ => false
  end.

(** The scratch directory was found absent or removed, and then made. *)
Definition scratch_reset (tr : list event) : Prop :=
  In (Called (makedirs support_dir) (Ok tt)) tr
  /\ (In (Called (path_exists support_dir) (Ok false)) tr
      \/ In (Called (rmtree support_dir) (Ok tt)) tr).

(** Every event of [tr] that fills comes after a reset. *)
Definition reset_before_use (tr : list event) : Prop :=
  forall pre ev post,
    tr = (pre ++ ev :: post)%list -> fills ev = true -> scratch_reset pre.

(** [reset_before_use], and a reset was made if the stage succeeded. *)
Definition resets {A} (out : result A) (tr : list event) : Prop :=
  reset_before_use tr /\ ((exists a, out = Ok a) -> scratch_reset tr).

(** An exception that leaves [p] was raised by one of its calls. *)
Definition blames {A} (out : result A) (tr : list event) : Prop :=
  forall e, out = Raised e -> exists o, In (Called o (Raised e)) tr.

(** *** The names of the archive entries *)

(** The name of a file or directory as [os.walk] reports it: not empty,
    without a slash, and neither [.] nor [..]. *)
Definition plain_name (c : string) : bool :=
  negb (is_empty c) && negb (contains "/" c)
  && negb (String.eqb c ".") && negb (String.eqb c "..").

(** The directory that [os.walk] reaches from [top] through the
    directories [dirs], formed by [os.path.join] at each level. *)
Definition below (top : string) (dirs : list string) : string :=
  fold_left Path.join dirs top.

(** Each name with a slash before it. *)
Fixpoint slashed (l : list string) : string :=
  match l with
  | [] => ""
  | c :: l' => "/" ++ c ++ slashed l'
  end.

(** The file and the name under which an entry was written, if [ev]
    writes one to the archive. *)
Definition written (ev : event) : option (string * string) :=
  match ev with
  | Called (zip_write _ filename arcname) _ => Some (filename, arcname)
  | _ => None
  end.

(** *** What a run collects *)

(** What a run may copy, list and start, given the config path and the
    log path of the environment file: the archive; the log file or the
    config file itself when it lies outside a managed data root; from the
    directory of a managed log file the two candidates and a dated
    rotation of [klippy.log], each under its own name; the directory of a
    managed config file; and the four commands of the reports. *)
Definition permitted (cfg log : string) (ev : event) : Prop :=
  match ev with
  | Called (copy src dst) _ =>
      src = "/tmp/klipper_support.zip"
      \/ (contains "printer_data" log = false
          /\ src = log /\ dst = "/tmp/klipper_support/klippy.log")
      \/ (contains "printer_data" cfg = false
          /\ src = cfg /\ dst = "/tmp/klipper_support/printer.cfg")
      \/ (contains "printer_data" log = true
          /\ exists name,
               src = Path.join (Path.dirname log) name
               /\ dst = "/tmp/klipper_support/" ++ name
               /\ (name = "klippy.log" \/ name = "moonraker.log"
                   \/ (startswith name "klippy.log" = true
                       /\ re_match_rotation name = true)))
  | Called (copytree src dst) _ =>
      contains "printer_data" cfg = true
      /\ src = Path.dirname cfg /\ dst = "/tmp/klipper_support/config"
  | Called (listdir dir) _ =>
      contains "printer_data" log = true /\ dir = Path.dirname log
  | Called (subprocess_run args _) _ =>
      In args [["uname"; "-a"]; ["cat"; "/etc/os-release"];
               ["ip"; "-details"; "-s"; "link"; "show"]; ["sudo"; "dmesg"]]
  | _ => True
  end.

(** [ev] is no copy from [src]. *)
Definition not_copied_from (src : string) (ev : event) : Prop :=
  match ev with
  | Called (copy s _) _ => s <> src
  | _ => True
  end.

(** The candidate [file] of the directory [dir] was looked for; it was
    copied into the scratch directory under its name if it was found,
    and not copied at all if it was not. *)
Definition candidate_handled (dir file : string) (tr : list event) : Prop :=
  exists b,
    In (Called (path_exists (Path.join dir file)) (Ok b)) tr
    /\ if b
       then In (Called (copy (Path.join dir file)
                             ("/tmp/klipper_support/" ++ file)) (Ok tt)) tr
       else Forall (not_copied_from (Path.join dir file)) tr.

(** *** Files that were opened are closed *)

(** If [ev] opened a file for writing or an archive, [post] closes it. *)
Definition closed_later (ev : event) (post : list event) : Prop :=
  match ev with
  | Called (open_w path) (Ok _) => exists r, In (Called (close path) r) post
  | Called (zip_open path) (Ok _) =>
      exists r, In (Called (zip_close path) r) post
  | _ => True
  end.

(** Whatever [tr] opened it closes afterwards. *)
Definition all_closed (tr : list event) : Prop :=
  forall pre ev post, tr = (pre ++ ev :: post)%list -> closed_later ev post.

(** [ev] opens nothing. *)
Definition opens_nothing (ev : event) : Prop :=
  match ev with
  | Called (open_w _) (Ok _) | Called (zip_open _) (Ok _) => False
  | _ => True
  end.

Definition with_service_line (line : string) : scenario := {|
  service_lines := ["[Service]" ++ nl; line];
  env_first_line := env_first_line standard;
  log_listing := log_listing standard;
  present := present standard;
  missing_commands := [];
  exit_code := exit_code standard;
  tree := tree standard;
  clock := clock standard
|}.

(** *** Installations outside a managed data root *)

(** The warning of lines 108 and 117. *)
Definition warning_line (what path : string) : string :=
  Colors.WARNING ++ "Warning: Non-standard installation for " ++ what
  ++ " at " ++ path ++ Colors.ENDC.

Definition outside_root_env_line : string :=
  "KLIPPER_ARGS=" ++ String dquote
    ("/home/pi/klipper/klippy/klippy.py /home/pi/printer.cfg"
     ++ " -I /tmp/printer -l /tmp/klippy.log -a /tmp/klippy_uds")
  ++ String dquote nl.

(** ** Vocabulary of the line formats, the archive and the scratch layout *)

(** [l'] is [l] with text added to its last element, or with one more
    element at its end. *)
Definition grown_at_end (l l' : list string) : Prop :=
  (exists b, l' = (l ++ [b])%list)
  \/ (exists pre y b, l = (pre ++ [y])%list /\ l' = (pre ++ [(y ++ b)%string])%list).

Definition full (wl : string * list string) : list string :=
  if is_empty (fst wl) then snd wl else fst wl :: snd wl.

(** The part of the value that the cut at [=] keeps. *)
Definition kept (value : string) : string := before "=" value.

(** The value begins with double quotes that whitespace, or nothing,
    follows: a quote that stands alone as the first token. *)
Definition begins_with_loose_quote (value : string) : bool :=
  holds_at is_dquote (first_char value)
  && negb (holds_at (fun c => negb (is_space c))
                    (first_char (lstrip is_dquote value))).

(** Stripping and splitting keep the first token in its place: with the
    opening quote right after [=], the value does not begin with a loose
    quote; with blanks between them, it does not begin with whitespace. *)
Definition opening_kept (ws2 value : string) : bool :=
  if is_empty ws2 then negb (begins_with_loose_quote value)
  else holds_at (fun c => negb (is_space c)) (first_char value).

(** Stripping keeps the token at position 5: the value has a seventh
    token or does not end with a double quote. *)
Definition closing_kept (value : string) : bool :=
  (7 <=? List.length (split_ws value))%nat
  || negb (holds_at is_dquote (last_char value)).

(** After any double quotes at its beginning the value goes on with a
    character that is not whitespace. *)
Definition begins_with_token (value : string) : bool :=
  holds_at (fun c => negb (is_space c)) (first_char (lstrip is_dquote value)).

(** The value of a standard installation. *)
Definition standard_value : string :=
  "/home/pi/klipper/klippy/klippy.py /home/pi/printer_data/config/printer.cfg"
  ++ " -I /home/pi/printer_data/comms/klippy.serial"
  ++ " -l /home/pi/printer_data/logs/klippy.log"
  ++ " -a /home/pi/printer_data/comms/klippy.sock".

(** A value whose log path has an [=] in it. *)
Definition value_with_equals : string :=
  "/home/pi/klipper/klippy/klippy.py /home/pi/printer_data/config/printer.cfg"
  ++ " -I /home/pi/printer_data/comms/klippy.serial"
  ++ " -l /home/pi/printer_data/logs/run=1/klippy.log".

(** The opening quote does not become a token of its own: it stands
    right after [=], or the value does not begin with whitespace. *)
Definition opening_glued (ws2 value : string) : bool :=
  is_empty ws2 || negb (holds_at is_space (first_char value)).

(** A first line [key = "value"] whose value has fewer than six tokens. *)
Definition short_quoted_line (first_line : string) : Prop :=
  exists key ws1 ws2 value trail,
    first_line = env_line key ws1 ws2 value trail
    /\ contains "=" key = false
    /\ all_chars is_space ws1 = true
    /\ all_chars is_space ws2 = true
    /\ all_chars is_space trail = true
    /\ opening_glued ws2 value = true
    /\ (List.length (split_ws value) < 6)%nat.

(** A first line with four arguments. *)
Definition four_arguments_line : string :=
  env_line "KLIPPER_ARGS" "" ""
           "-c /home/pi/printer_data/config/printer.cfg -l /tmp/klippy.log" nl.

(** Five tokens between the quotes and a sixth after the closing quote. *)
Definition text_after_quote_line : string :=
  env_line "K" "" "" "a b c d e" " x".

(** Five tokens after a blank between the quotes, and a blank after [=]. *)
Definition blank_after_equals_line : string :=
  env_line "K" "" " " " a b c d e" nl.







(** What [os.walk] reports for the directory that lies below the scratch
    directory under the names [fst (fst t)]: its path
    [/tmp/klipper_support/d1/.../dn], its subdirectories and its files. *)
Definition scratch_triple (t : list string * list string * list string) :
  string * list string * list string :=
  ("/tmp/klipper_support" ++ slashed (fst (fst t)), snd (fst t), snd t).

(** The paths of the files relative to the scratch directory, in the
    order of the walk: the directories down to the file and the file
    name, with a slash between them. *)
Definition relative_names
           (layout : list (list string * list string * list string)) :
  list string :=
  flat_map (fun t => map (fun file => String.concat "/" (fst (fst t) ++ [file]))
                         (snd t))
           layout.

(** Every directory and file of the layout has a plain name. *)
Definition plain_layout
           (layout : list (list string * list string * list string)) : bool :=
  forallb (fun t => forallb plain_name (fst (fst t))
                    && forallb plain_name (snd t))
          layout.

(** What the standard host has in its scratch directory. *)
Definition standard_layout : list (list string * list string * list string) :=
  [([], ["config"], ["klippy.log"; "moonraker.log"; "dmesg.txt"]);
   (["config"], [], ["printer.cfg"])].

(** * Properties *)

(** ** The model on concrete inputs *)

Example split_at_each_occurrence :
  split ".log." "klippy.log.x.log.2024-01-01" = ["klippy"; "x"; "2024-01-01"].
Proof. reflexivity. Qed.

Example split_without_overlap : split "aa" "aaaaa" = [""; ""; "a"].
Proof. reflexivity. Qed.

Example split_ws_runs : split_ws "  a b   c " = ["a"; "b"; "c"].
Proof. reflexivity. Qed.

Example strptime_leap_day :
  Date.strptime "2024-02-29" = Ok (Date.mk 2024 2 29).
Proof. reflexivity. Qed.

Example strptime_no_leap_day :
  Date.strptime "2023-02-29" = Raised (ValueError "day is out of range for month").
Proof. reflexivity. Qed.

Example strptime_without_padding :
  Date.strptime "2024-1-1" = Ok (Date.mk 2024 1 1).
Proof. reflexivity. Qed.

Example strptime_month_99 :
  Date.strptime "2024-99-01"
  = Raised (ValueError "time data '2024-99-01' does not match format '%Y-%m-%d'").
Proof. reflexivity. Qed.

Example re_match_rotation_examples :
  re_match_rotation "klippy.log.2024-03-15" = true
  /\ re_match_rotation "klippy.log" = false
  /\ re_match_rotation "klippy.log.2024-3-15" = false
  /\ re_match_rotation "klippy.log.2024-99-01" = true.
Proof. repeat split. Qed.

Example dirname_of_log :
  Path.dirname "/home/pi/printer_data/logs/klippy.log"
  = "/home/pi/printer_data/logs".
Proof. reflexivity. Qed.

Example join_examples :
  Path.join "/tmp/klipper_support" "klippy.log" = "/tmp/klipper_support/klippy.log"
  /\ Path.join3 "/home/pi/printer_data/" "logs" "a.zip"
     = "/home/pi/printer_data/logs/a.zip".
Proof. split; reflexivity. Qed.

Example relpath_under_scratch :
  Path.relpath "/tmp/klipper_support/config/printer.cfg" support_dir
  = Ok "config/printer.cfg".
Proof. reflexivity. Qed.

Example derive_base_path_standard :
  derive_base_path "/home/pi/printer_data/config/printer.cfg"
  = "/home/pi/printer_data/"
  /\ derive_base_path "/home/pi/klipper_config/printer.cfg"
     = "/home/pi/klipper_config/printer.cfg".
Proof. split; reflexivity. Qed.

Example klipper_paths_standard :
  klipper_paths standard_env_line
  = Ok ("/home/pi/printer_data/config/printer.cfg",
        "/home/pi/printer_data/logs/klippy.log").
Proof. reflexivity. Qed.

(** The run on the standard host ends with the archive in the log
    directory of the printer. *)
Example standard_run :
  outcome (run (scenario_env standard) main 0) = Ok tt
  /\ existsb archive_copied (trace (run (scenario_env standard) main 0)) = true
  /\ In (Printed (created_line
                    "/home/pi/printer_data/logs/klipper_support_20240315_101601.zip"))
        (trace (run (scenario_env standard) main 0)).
Proof.
  split; [reflexivity | split; [vm_compute; reflexivity |]].
  vm_compute. repeat (first [left; reflexivity | right]).
Qed.

(** ** Strings *)

Lemma append_empty_r (s : string) : s ++ "" = s.
Proof. induction s as [|c s IH]; simpl; [reflexivity | now rewrite IH]. Qed.

Lemma append_assoc (a b c : string) : (a ++ b) ++ c = a ++ b ++ c.
Proof. induction a as [|x a IH]; simpl; [reflexivity | now rewrite IH]. Qed.

Lemma prefix_empty (s : string) : prefix "" s = true.
Proof. destruct s; reflexivity. Qed.

Lemma prefix_cons (c d : ascii) (m s : string) :
  prefix (String c m) (String d s) = Ascii.eqb c d && prefix m s.
Proof.
  simpl. destruct (ascii_dec c d) as [->|Hne].
  - now rewrite Ascii.eqb_refl.
  - apply Ascii.eqb_neq in Hne. now rewrite Hne.
Qed.

Lemma prefix_append (m r : string) : prefix m (m ++ r) = true.
Proof.
  induction m as [|c m IH]; [apply prefix_empty|].
  change (String c m ++ r) with (String c (m ++ r)).
  now rewrite prefix_cons, Ascii.eqb_refl, IH.
Qed.

Lemma prefix_split (m s : string) :
  prefix m s = true -> exists r, s = m ++ r.
Proof.
  revert s; induction m as [|c m IH]; intros s H.
  - now exists s.
  - destruct s as [|d s]; [discriminate|].
    rewrite prefix_cons in H. apply andb_prop in H as [Hc Hm].
    apply Ascii.eqb_eq in Hc as ->. destruct (IH _ Hm) as [r ->].
    now exists r.
Qed.

(** Whether [m] starts a text is decided by the first [length m]
    characters of the text. *)
Lemma prefix_app_ext (m u x y : string) :
  length m <= length u -> prefix m (u ++ x) = prefix m (u ++ y).
Proof.
  revert u; induction m as [|c m IH]; intros u Hlen.
  - now rewrite !prefix_empty.
  - destruct u as [|d u]; [simpl in Hlen; lia|].
    change (String d u ++ x) with (String d (u ++ x)).
    change (String d u ++ y) with (String d (u ++ y)).
    rewrite !prefix_cons. f_equal. apply IH. simpl in Hlen. lia.
Qed.

Lemma length_append (a b : string) : length (a ++ b) = length a + length b.
Proof. induction a as [|c a IH]; simpl; [reflexivity | now rewrite IH]. Qed.

Lemma hd_split (sep s : string) : hd "" (split sep s) = before sep s.
Proof.
  unfold split.
  assert (H : fst (split_from sep 0 s) = before sep s).
  { induction s as [|c s IH]; [reflexivity|].
    cbn [split_from before]. destruct (prefix sep (String c s)); [reflexivity|].
    destruct (split_from sep 0 s) as [h t]. simpl in *. now rewrite IH. }
  destruct (split_from sep 0 s) as [h t]. exact H.
Qed.

(** A text that contains [m] is the part before the first occurrence,
    then [m], then the rest. *)
Lemma contains_split (m s : string) :
  contains m s = true -> exists r, s = before m s ++ m ++ r.
Proof.
  induction s as [|c s IH]; intros H.
  - exists "". simpl in H. destruct m; [reflexivity | discriminate].
  - cbn [contains before] in *. destruct (prefix m (String c s)) eqn:Hp.
    + apply prefix_split in Hp as [r Hr]. now exists r.
    + simpl in H. destruct (IH H) as [r Hr]. exists r.
      change (String c (before m s) ++ m ++ r) with (String c (before m s ++ m ++ r)).
      now rewrite <- Hr.
Qed.

Lemma prefix_contains (m s : string) : prefix m s = true -> contains m s = true.
Proof. intros H. destruct s; cbn [contains]; now rewrite H. Qed.

Lemma prefix_before (m s : string) : prefix m s = true -> before m s = "".
Proof. intros H. destruct s; cbn [before]; [reflexivity | now rewrite H]. Qed.

Lemma contains_append (m a x : string) : contains m (a ++ m ++ x) = true.
Proof.
  induction a as [|c a IH].
  - change ("" ++ m ++ x) with (m ++ x). apply prefix_contains, prefix_append.
  - change (String c a ++ m ++ x) with (String c (a ++ m ++ x)).
    cbn [contains]. rewrite IH. apply orb_true_r.
Qed.

(** Cutting after the first occurrence of [m] does not move it. *)
Lemma before_cut (m s x : string) :
  m <> "" -> contains m s = true -> before m (before m s ++ m ++ x) = before m s.
Proof.
  intros Hm. induction s as [|c s IH]; intros H.
  - simpl in H. destruct m; [congruence | discriminate].
  - cbn [contains before] in *. destruct (prefix m (String c s)) eqn:Hp.
    + change ("" ++ m ++ x) with (m ++ x). apply prefix_before, prefix_append.
    + simpl in H.
      change (String c (before m s) ++ m ++ x)
        with (String c (before m s ++ m ++ x)).
      cbn [before].
      destruct (contains_split m s H) as [r Hr].
      assert (Hq : prefix m (String c (before m s ++ m ++ x)) = false).
      { rewrite <- Hp. rewrite Hr at 2.
        replace (String c (before m s ++ m ++ x))
          with ((String c (before m s ++ m)) ++ x)
          by (simpl; now rewrite append_assoc).
        replace (String c (before m s ++ m ++ r))
          with ((String c (before m s ++ m)) ++ r)
          by (simpl; now rewrite append_assoc).
        apply prefix_app_ext. simpl. rewrite length_append. lia. }
      rewrite Hq. now rewrite IH.
Qed.

(** C3: base-path derivation is idempotent: for every path, deriving the
    base path of a derived base path gives that base path again. *)
Theorem derive_base_path_idempotent (p : string) :
  derive_base_path (derive_base_path p) = derive_base_path p.
Proof.
  unfold derive_base_path. destruct (contains "printer_data" p) eqn:Hc.
  - rewrite !hd_split.
    change "printer_data/" with ("printer_data" ++ "/").
    rewrite contains_append, before_cut; [reflexivity | discriminate | exact Hc].
  - now rewrite Hc.
Qed.

(** ** Dates and the newest rotation *)

Lemma date_ltb_spec (a b : Date.t) :
  Date.ltb a b = true <->
  (Date.year a < Date.year b
   \/ (Date.year a = Date.year b
       /\ (Date.month a < Date.month b
           \/ (Date.month a = Date.month b /\ Date.day a < Date.day b)))).
Proof.
  unfold Date.ltb.
  rewrite !orb_true_iff, !andb_true_iff, !orb_true_iff, !andb_true_iff,
    !Nat.ltb_lt, !Nat.eqb_eq.
  tauto.
Qed.

Lemma date_ltb_false (a b : Date.t) :
  Date.ltb a b = false <-> ~ (Date.ltb a b = true).
Proof. destruct (Date.ltb a b); intuition congruence. Qed.

Lemma date_ltb_asym (a b : Date.t) :
  Date.ltb a b = true -> Date.ltb b a = false.
Proof. rewrite date_ltb_false, !date_ltb_spec. lia. Qed.

Lemma date_ltb_irrefl (a : Date.t) : Date.ltb a a = false.
Proof. rewrite date_ltb_false, !date_ltb_spec. lia. Qed.

(** If [a] is not before [x] and [x] is not before [y], then [a] is not
    before [y]. *)
Lemma date_not_ltb_trans (a x y : Date.t) :
  Date.ltb a x = false -> Date.ltb x y = false -> Date.ltb a y = false.
Proof. rewrite !date_ltb_false, !date_ltb_spec. lia. Qed.

Lemma first_greatest_bound l x y :
  first_greatest l x -> In y l -> Date.ltb (fst x) (fst y) = false.
Proof.
  intros (pre & post & -> & Hpre & Hpost) Hy.
  apply in_app_or in Hy as [Hy | [<- | Hy]].
  - now apply date_ltb_asym, Hpre.
  - apply date_ltb_irrefl.
  - now apply Hpost.
Qed.

Lemma sort_desc_head (l : list (Date.t * string)) :
  l <> [] -> exists x rest, sort_desc l = x :: rest /\ first_greatest l x.
Proof.
  induction l as [|a l IH]; [congruence | intros _].
  destruct l as [|b l].
  - exists a, []. split; [reflexivity|].
    exists [], []. repeat split; intros y [].
  - destruct IH as (x & rest & Hs & Hx); [discriminate|].
    change (sort_desc (a :: b :: l)) with (insert_desc a (sort_desc (b :: l))).
    rewrite Hs. cbn [insert_desc].
    destruct (Date.ltb (fst a) (fst x)) eqn:Hax.
    + exists x, (insert_desc a rest). split; [reflexivity|].
      destruct Hx as (pre & post & Hl & Hpre & Hpost).
      exists (a :: pre), post. rewrite Hl. repeat split; auto.
      intros y [<- | Hy]; auto.
    + exists a, (x :: rest). split; [reflexivity|].
      exists [], (b :: l). repeat split; [intros y [] |].
      intros y Hy. apply date_not_ltb_trans with (x := fst x); auto.
      eapply first_greatest_bound; eauto.
Qed.

Lemma keyed_ok (fs : list string) (ks : list (Date.t * string)) :
  keyed fs = Ok ks ->
  map snd ks = fs /\ Forall (fun kf => sort_key (snd kf) = Ok (fst kf)) ks.
Proof.
  revert ks; induction fs as [|f fs IH]; intros ks H.
  - inversion H. split; constructor.
  - cbn [keyed] in H. destruct (sort_key f) as [k|e] eqn:Hk; [|discriminate].
    cbn [rbind] in H. destruct (keyed fs) as [ks'|e] eqn:Hks; [|discriminate].
    inversion H; subst. destruct (IH _ eq_refl) as [Hm Hf].
    split; [simpl; now rewrite Hm | constructor; auto].
Qed.

Lemma keyed_raised (fs : list string) (f : string) (e : exn) :
  In f fs -> sort_key f = Raised e -> exists e', keyed fs = Raised e'.
Proof.
  induction fs as [|g fs IH]; intros Hin Hf; [destruct Hin|].
  cbn [keyed]. destruct (sort_key g) as [k|e0] eqn:Hg; [|now exists e0].
  cbn [rbind]. destruct Hin as [-> | Hin]; [congruence|].
  destruct (IH Hin Hf) as [e' ->]. now exists e'.
Qed.

Lemma keyed_total (fs : list string) :
  (forall f, In f fs -> exists k, sort_key f = Ok k) ->
  exists ks, keyed fs = Ok ks.
Proof.
  induction fs as [|f fs IH]; intros H; [now exists []|].
  destruct (H f (or_introl eq_refl)) as [k Hk].
  destruct IH as [ks Hks]; [intros g Hg; apply H; now right|].
  exists ((k, f) :: ks). cbn [keyed]. now rewrite Hk, Hks.
Qed.

Lemma sorted_log_files_head (fs : list string) :
  fs <> [] ->
  (forall f, In f fs -> exists k, sort_key f = Ok k) ->
  exists newest rest,
    sorted_log_files fs = Ok (newest :: rest) /\ newest_in fs newest.
Proof.
  intros Hne Hall. destruct (keyed_total fs Hall) as [ks Hks].
  destruct (keyed_ok _ _ Hks) as [Hmap Hkeys].
  assert (Hks_ne : ks <> []) by (intros ->; simpl in Hmap; congruence).
  destruct (sort_desc_head _ Hks_ne) as ([k f] & rest & Hs & pre & post & Hl & Hpre & Hpost).
  exists f, (map snd rest). unfold sorted_log_files. rewrite Hks. cbn [rbind].
  rewrite Hs. split; [reflexivity|].
  subst ks. rewrite Forall_app in Hkeys. destruct Hkeys as [Hk1 Hk2].
  apply Forall_cons_iff in Hk2 as [Hkf Hk3]. simpl in Hkf.
  exists k, (map snd pre), (map snd post). repeat split.
  - rewrite <- Hmap, map_app. reflexivity.
  - exact Hkf.
  - intros g Hg. apply in_map_iff in Hg as ([k' g'] & <- & Hg).
    exists k'. split; [| exact (Hpre _ Hg)].
    rewrite Forall_forall in Hk1. exact (Hk1 _ Hg).
  - intros g Hg. apply in_map_iff in Hg as ([k' g'] & <- & Hg).
    exists k'. split; [| exact (Hpost _ Hg)].
    rewrite Forall_forall in Hk3. exact (Hk3 _ Hg).
Qed.

(** ** The program logic *)

Lemma wp_sound {A} (p : prog A) (Q : result A -> list event -> Prop) :
  wp p Q ->
  forall (E : env) (st : state E),
    Q (outcome (run E p st)) (trace (run E p st)).
Proof.
  revert Q; induction p as [a|e|o k IH|s k IH]; intros Q H E st; simpl.
  - exact H.
  - exact H.
  - destruct (handle E o st) as [r st']. simpl. exact (IH r _ (H r) E st').
  - exact (IH _ H E st).
Qed.

Lemma wp_mono {A} (p : prog A) (Q Q' : result A -> list event -> Prop) :
  (forall out tr, Q out tr -> Q' out tr) -> wp p Q -> wp p Q'.
Proof.
  revert Q Q'; induction p as [a|e|o k IH|s k IH]; intros Q Q' HQ H; simpl in *.
  - now apply HQ.
  - now apply HQ.
  - intros r. eapply IH; [|exact (H r)]. intros out tr. apply HQ.
  - eapply IH; [|exact H]. intros out tr. apply HQ.
Qed.

Lemma wp_conj {A} (p : prog A) (Q1 Q2 : result A -> list event -> Prop) :
  wp p Q1 -> wp p Q2 -> wp p (fun out tr => Q1 out tr /\ Q2 out tr).
Proof.
  revert Q1 Q2; induction p as [a|e|o k IH|s k IH]; intros Q1 Q2 H1 H2; simpl in *.
  - now split.
  - now split.
  - intros r. exact (IH r _ _ (H1 r) (H2 r)).
  - exact (IH _ _ H1 H2).
Qed.

Lemma wp_bind {A B} (p : prog A) (f : A -> prog B)
      (Q : result B -> list event -> Prop) :
  wp p (fun out tr =>
          match out with
          | Ok a => wp (f a) (fun out' tr' => Q out' (tr ++ tr')%list)
          | Raised e => Q (Raised e) tr
          end) ->
  wp (bind p f) Q.
Proof.
  revert Q; induction p as [a|e|o k IH|s k IH]; intros Q H; simpl in *.
  - exact H.
  - exact H.
  - intros r. apply IH. exact (H r).
  - apply IH. exact H.
Qed.

Lemma wp_try_except {A} (p : prog A) (h : exn -> prog A)
      (Q : result A -> list event -> Prop) :
  wp p (fun out tr =>
          match out with
          | Ok a => Q (Ok a) tr
          | Raised e => wp (h e) (fun out' tr' => Q out' (tr ++ tr')%list)
          end) ->
  wp (try_except p h) Q.
Proof.
  revert Q; induction p as [a|e|o k IH|s k IH]; intros Q H; simpl in *.
  - exact H.
  - exact H.
  - intros r. apply IH. exact (H r).
  - apply IH. exact H.
Qed.

Lemma wp_finally {A} (p : prog A) (q : prog unit)
      (Q : result A -> list event -> Prop) :
  wp p (fun out tr =>
          wp q (fun out' tr' =>
                  match out' with
                  | Ok _ => Q out (tr ++ tr')%list
                  | Raised e' => Q (Raised e') (tr ++ tr')%list
                  end)) ->
  wp (finally p q) Q.
Proof.
  revert Q; induction p as [a|e|o k IH|s k IH]; intros Q H; simpl in *.
  - apply wp_bind. eapply wp_mono; [|exact H].
    intros [[]|e'] tr; simpl; [rewrite app_nil_r|]; auto.
  - apply wp_bind. eapply wp_mono; [|exact H].
    intros [[]|e'] tr; simpl; [rewrite app_nil_r|]; auto.
  - intros r. apply IH. exact (H r).
  - apply IH. exact H.
Qed.

(** *** Properties of every event of a trace *)

Lemma always_bind {A B} (P : event -> Prop) (p : prog A) (f : A -> prog B) :
  wp p (always P) -> (forall a, wp (f a) (always P)) -> wp (bind p f) (always P).
Proof.
  intros Hp Hf. apply wp_bind. eapply wp_mono; [|exact Hp].
  intros [a|e] tr Htr; [|exact Htr].
  eapply wp_mono; [|exact (Hf a)]. intros out tr' Htr'.
  apply Forall_app. now split.
Qed.

Lemma always_finally {A} (P : event -> Prop) (p : prog A) (q : prog unit) :
  wp p (always P) -> wp q (always P) -> wp (finally p q) (always P).
Proof.
  intros Hp Hq. apply wp_finally. eapply wp_mono; [|exact Hp].
  intros out tr Htr. eapply wp_mono; [|exact Hq].
  intros [[]|e] tr' Htr'; apply Forall_app; now split.
Qed.

Lemma always_for_each {X} (P : event -> Prop) (l : list X) (body : X -> prog unit) :
  (forall x, wp (body x) (always P)) -> wp (for_each l body) (always P).
Proof.
  intros Hb. induction l as [|x l IH]; simpl.
  - constructor.
  - apply always_bind; auto.
Qed.

Lemma always_call (P : event -> Prop) (o : op) :
  (forall r, P (Called o r)) -> wp (call o) (always P).
Proof. intros H [x|e]; simpl; repeat constructor; apply H. Qed.

Lemma always_print (P : event -> Prop) (line : string) :
  P (Printed line) -> wp (print line) (always P).
Proof. intros H. simpl. repeat constructor. exact H. Qed.

Lemma always_lift {A} (P : event -> Prop) (r : result A) : wp (lift r) (always P).
Proof. destruct r; simpl; constructor. Qed.

Lemma always_ret {A} (P : event -> Prop) (a : A) : wp (Ret a) (always P).
Proof. constructor. Qed.

Lemma always_raise {A} (P : event -> Prop) (e : exn) :
  wp (@Raise A e) (always P).
Proof. constructor. Qed.


(** ** What the stages of the script never do *)

Ltac always_step :=
  lazymatch goal with
  | |- wp (bind _ _) (always _) => apply always_bind; [| intros ?]
  | |- wp (finally _ _) (always _) => apply always_finally
  | |- wp (for_each _ _) (always _) => apply always_for_each; intros ?
  | |- @wp _ (call ?o) (@always ?P _) => refine (always_call P o _); intros ?
  | |- wp (print _) (always _) => apply always_print
  | |- wp (lift _) (always _) => apply always_lift
  | |- wp (Ret _) (always _) => apply always_ret
  | |- wp (Raise _) (always _) => apply always_raise
  | |- wp (if ?b then _ else _) (always _) => destruct b
  | |- wp (match ?x with Some _ => _ | None => _ end) (always _) => destruct x
  | |- wp (match ?x with Ok _ => _ | Raised _ => _ end) (always _) => destruct x
  | |- wp (let (_, _) := ?x in _) (always _) => destruct x
  end.

Ltac unfold_script :=
  unfold main_body, locate, collect, check_klipper_service,
    read_klipper_service, check_environment_file, read_environment_file,
    determine_base_path, prepare_support_directory, ensure_empty_dir,
    copy_selective_logs, no_archived_log, get_newest_log, newest_of,
    copy_printer_cfg, collect_system_reports, collect_os_information,
    collect_network_information, collect_dmesg_information, with_open_w,
    compress_support_folder, add_to_archive, final_message,
    status_message, step_message.

Ltac always_auto leaf := unfold_script; repeat always_step; leaf.

Ltac quiet_leaf :=
  idtac; lazymatch goal with
  | |- quiet (Called _ _) => reflexivity
  | |- quiet (Printed _) => reflexivity
  end.

(** No stage of the [try] block prints a failure message. *)
Lemma main_body_quiet : wp main_body (always quiet).
Proof. always_auto quiet_leaf. Qed.

Lemma fail_lines_app (tr tr' : list event) :
  fail_lines (tr ++ tr') = (fail_lines tr ++ fail_lines tr')%list.
Proof.
  induction tr as [|[o r|line] tr IH]; simpl; auto.
  destruct (is_fail_line line); simpl; now rewrite IH.
Qed.

Lemma quiet_fail_lines (tr : list event) : Forall quiet tr -> fail_lines tr = [].
Proof.
  induction 1 as [|ev tr Hev _ IH]; [reflexivity|].
  change (ev :: tr) with ([ev] ++ tr)%list. now rewrite fail_lines_app, Hev, IH.
Qed.

Lemma is_fail_line_fail_line (m : string) : is_fail_line (fail_line m) = true.
Proof.
  unfold is_fail_line, fail_line.
  rewrite <- append_assoc. apply prefix_append.
Qed.

(** *** Membership in the sorted names *)

Lemma insert_desc_In (x y : Date.t * string) (l : list (Date.t * string)) :
  In y (insert_desc x l) -> y = x \/ In y l.
Proof.
  induction l as [|z l IH]; simpl.
  - intros [<- | []]; now left.
  - destruct (Date.ltb (fst x) (fst z)); simpl.
    + intros [<- | H]; [right; now left|]. destruct (IH H); auto.
    + intros [<- | [<- | H]]; auto.
Qed.

Lemma sort_desc_In (y : Date.t * string) (l : list (Date.t * string)) :
  In y (sort_desc l) -> In y l.
Proof.
  induction l as [|x l IH]; simpl; [auto|].
  intros H. apply insert_desc_In in H as [-> | H]; auto.
Qed.

Lemma sorted_log_files_In (fs sorted : list string) (f : string) :
  sorted_log_files fs = Ok sorted -> In f sorted -> In f fs.
Proof.
  unfold sorted_log_files. destruct (keyed fs) as [ks|e] eqn:Hks; [|discriminate].
  cbn [rbind]. intros [= <-] Hf.
  destruct (keyed_ok _ _ Hks) as [<- _].
  apply in_map_iff in Hf as (y & <- & Hy). apply in_map, sort_desc_In, Hy.
Qed.

Lemma index_In {A} (l : list A) (n : nat) (a : A) : index l n = Ok a -> In a l.
Proof.
  unfold index. destruct (nth_error l n) eqn:H; [|discriminate].
  intros [= <-]. eapply nth_error_In; eauto.
Qed.

(** Whatever [get_newest_log] returns passed the filter of lines 46-49. *)
Lemma get_newest_log_filtered (log_dir log_prefix : string) :
  wp (get_newest_log log_dir log_prefix)
     (fun out _ =>
        forall name, out = Ok (Some name) ->
          startswith name log_prefix = true /\ re_match_rotation name = true).
Proof.
  unfold get_newest_log, newest_of. intros [all_files|e]; simpl.
  2: { intros name [=]. }
  destruct (is_nil (log_files all_files log_prefix)); simpl.
  { intros name [=]. }
  destruct (sorted_log_files (log_files all_files log_prefix)) as [sorted|e] eqn:Hs;
    simpl.
  2: { intros name [=]. }
  destruct (index sorted 0) as [newest|e] eqn:Hi; simpl.
  2: { intros name [=]. }
  intros name [= <-].
  apply index_In in Hi. eapply sorted_log_files_In in Hi; [|exact Hs].
  unfold log_files in Hi. apply filter_In in Hi as [_ Hi].
  now apply andb_prop in Hi.
Qed.

(** ** The last character of a name *)

Lemma last_char_append (a b : string) :
  b <> "" -> last_char (a ++ b) = last_char b.
Proof.
  intros Hb. induction a as [|c a IH]; [reflexivity|].
  simpl. rewrite IH. destruct (last_char b) eqn:E; [reflexivity|].
  destruct b; [congruence | simpl in E].
  destruct (last_char b); discriminate.
Qed.




Lemma take_drop (n : nat) (s : string) : take n s ++ drop n s = s.
Proof.
  revert s; induction n as [|n IH]; intros [|c s]; simpl; auto.
  now rewrite IH.
Qed.





(** ** No stage but the last copies the archive *)

Lemma always_bind_with {A B} (P : event -> Prop) (R : result A -> Prop)
      (p : prog A) (f : A -> prog B) :
  wp p (always P) ->
  wp p (fun out _ => R out) ->
  (forall a, R (Ok a) -> wp (f a) (always P)) ->
  wp (bind p f) (always P).
Proof.
  intros Hp HR Hf. apply wp_bind.
  eapply wp_mono; [|exact (wp_conj _ _ _ Hp HR)].
  intros [a|e] tr [Htr Hout]; [|exact Htr].
  eapply wp_mono; [|exact (Hf a Hout)]. intros out tr' Htr'.
  apply Forall_app. now split.
Qed.











(** ** The top-level handler *)

Lemma run_try_except_ok (E : env) {A} (p : prog A) (h : exn -> prog A)
      (st : state E) (a : A) :
  outcome (run E p st) = Ok a ->
  outcome (run E (try_except p h) st) = Ok a
  /\ trace (run E (try_except p h) st) = trace (run E p st).
Proof.
  revert st; induction p as [b|e|o k IH|s k IH]; intros st H; simpl in *.
  - now split.
  - discriminate.
  - destruct (handle E o st) as [r st']. simpl in *.
    destruct (IH r st' H) as [H1 H2]. split; [exact H1 | now rewrite H2].
  - destruct (IH st H) as [H1 H2]. split; [exact H1 | now rewrite H2].
Qed.

Lemma run_try_except_raised (E : env) {A} (p : prog A) (h : exn -> prog A)
      (st : state E) (e : exn) :
  outcome (run E p st) = Raised e ->
  outcome (run E (try_except p h) st)
  = outcome (run E (h e) (final (run E p st)))
  /\ trace (run E (try_except p h) st)
     = (trace (run E p st) ++ trace (run E (h e) (final (run E p st))))%list.
Proof.
  revert st; induction p as [b|e0|o k IH|s k IH]; intros st H; simpl in *.
  - discriminate.
  - injection H as ->. now split.
  - destruct (handle E o st) as [r st']. simpl in *.
    destruct (IH r st' H) as [H1 H2]. split; [exact H1 | now rewrite H2].
  - destruct (IH st H) as [H1 H2]. split; [exact H1 | now rewrite H2].
Qed.

(** What [main] adds to a run of its [try] block. *)
Lemma main_after_error (E : env) (st : state E) (e : exn) :
  outcome (run E main_body st) = Raised e ->
  outcome (run E main st) = Ok tt
  /\ trace (run E main st)
     = (trace (run E main_body st) ++ [Printed (fail_line (str_of_exn e))])%list
  /\ fail_lines (trace (run E main st)) = [fail_line (str_of_exn e)].
Proof.
  intros Hout.
  pose proof (wp_sound _ _ main_body_quiet E st) as Hquiet.
  unfold always in Hquiet. apply quiet_fail_lines in Hquiet.
  destruct (run_try_except_raised E main_body
              (fun e => status_message (str_of_exn e) false) st e Hout)
    as [H1 H2].
  unfold main. rewrite H1, H2. cbn [status_message print run outcome trace].
  repeat split. rewrite fail_lines_app, Hquiet. simpl.
  now rewrite is_fail_line_fail_line.
Qed.

Lemma main_after_success (E : env) (st : state E) :
  outcome (run E main_body st) = Ok tt ->
  outcome (run E main st) = Ok tt
  /\ trace (run E main st) = trace (run E main_body st)
  /\ fail_lines (trace (run E main st)) = [].
Proof.
  intros Hout.
  pose proof (wp_sound _ _ main_body_quiet E st) as Hquiet.
  unfold always in Hquiet. apply quiet_fail_lines in Hquiet.
  destruct (run_try_except_ok E main_body
              (fun e => status_message (str_of_exn e) false) st tt Hout)
    as [H1 H2].
  unfold main. rewrite H1, H2. repeat split. exact Hquiet.
Qed.

(** ** Lines without a separator *)

Lemma split_from_absent (sep s : string) :
  contains sep s = false -> split_from sep 0 s = (s, []).
Proof.
  induction s as [|c s IH]; intros H; [reflexivity|].
  cbn [contains] in H. apply orb_false_elim in H as [Hp Hc].
  cbn [split_from]. rewrite Hp, (IH Hc). reflexivity.
Qed.

Lemma split_absent (sep s : string) :
  contains sep s = false -> split sep s = [s].
Proof. intros H. unfold split. now rewrite split_from_absent. Qed.

Lemma contains_app_r (m a b : string) :
  contains m b = true -> contains m (a ++ b) = true.
Proof.
  intros H. induction a as [|c a IH]; [exact H|].
  change (String c a ++ b) with (String c (a ++ b)).
  cbn [contains]. rewrite IH. apply orb_true_r.
Qed.

Lemma contains_app_l (m a b : string) :
  contains m a = true -> contains m (a ++ b) = true.
Proof.
  intros H. destruct (contains_split _ _ H) as [r Hr].
  rewrite Hr, !append_assoc. apply contains_append.
Qed.

Lemma lstrip_suffix (p : ascii -> bool) (s : string) :
  exists a, s = a ++ lstrip p s.
Proof.
  induction s as [|c s [a Ha]]; [now exists ""|].
  simpl. destruct (p c); [|now exists ""].
  exists (String c a). simpl. now rewrite <- Ha.
Qed.

Lemma rstrip_prefix (p : ascii -> bool) (s : string) :
  exists t, s = rstrip p s ++ t.
Proof.
  induction s as [|c s [t Ht]]; [now exists ""|].
  simpl. destruct (is_empty (rstrip p s) && p c).
  - now exists (String c s).
  - exists t. simpl. now rewrite <- Ht.
Qed.

Lemma contains_strip (m s : string) :
  contains m s = false -> contains m (strip s) = false.
Proof.
  intros H. destruct (contains m (strip s)) eqn:E; [|reflexivity].
  unfold strip, strip_chars in E.
  destruct (rstrip_prefix is_space (lstrip is_space s)) as [t Ht].
  destruct (lstrip_suffix is_space s) as [a Ha].
  rewrite Ha, Ht in H. rewrite contains_app_r in H; [discriminate|].
  now apply contains_app_l.
Qed.

Lemma index_short {A} (l : list A) (n : nat) :
  (List.length l <= n)%nat -> index l n = Raised index_error.
Proof.
  intros H. unfold index. apply nth_error_None in H. now rewrite H.
Qed.

Lemma index_raised {A} (l : list A) (n : nat) (e : exn) :
  index l n = Raised e -> e = index_error.
Proof. unfold index. destruct (nth_error l n); [discriminate|]. now intros [= <-]. Qed.

(** A first line without [=], or with fewer than six arguments, makes the
    extraction raise [IndexError]. *)
Lemma klipper_paths_malformed (first_line : string) :
  contains "=" first_line = false
  \/ (exists args, klipper_args first_line = Ok args /\ (List.length args < 6)%nat) ->
  klipper_paths first_line = Raised index_error.
Proof.
  unfold klipper_paths. intros [H | (args & Hargs & Hlen)].
  - unfold klipper_args. rewrite split_absent by now apply contains_strip.
    reflexivity.
  - rewrite Hargs. cbn [rbind].
    destruct (index args 1) as [cfg|e] eqn:H1.
    + cbn [rbind]. rewrite index_short by lia. reflexivity.
    + now rewrite (index_raised _ _ _ H1).
Qed.

(** ** The Locator *)

Lemma locate_harmless : wp locate (always (fun ev => harmless ev = true)).
Proof. always_auto reflexivity. Qed.

Ltac no_line_read :=
  let H := fresh in
  intros ? H; simpl in H;
  repeat (destruct H as [H | H]; try discriminate H); contradiction.

(** What the Locator returns is computed from the first line it read. *)
Lemma locate_returns :
  wp locate (fun out tr =>
    forall line, In (Some line) (map line_read tr) -> out = klipper_paths line).
Proof.
  unfold locate, check_klipper_service, read_klipper_service,
    check_environment_file, read_environment_file, status_message, step_message.
  simpl. intros [[|]|e]; simpl; try solve [no_line_read].
  intros [lines|e]; simpl; try solve [no_line_read].
  destruct (environment_file_path lines) as [path|e]; simpl;
    try solve [no_line_read].
  intros [[|]|e]; simpl; try solve [no_line_read].
  intros [first_line|e]; simpl; try solve [no_line_read].
  destruct (klipper_paths first_line) as [paths|e] eqn:Hp; simpl;
    intros line H; simpl in H;
    repeat (destruct H as [H | H]; try discriminate; try contradiction);
    injection H as <-; now rewrite Hp.
Qed.

(** After the Locator no environment file is read. *)
Lemma after_locate_reads_no_line (paths : string * string) :
  wp (base_path <- determine_base_path "printer.cfg" "Printer config path: "
                                       (fst paths) ;;
      base_path_log <- determine_base_path "log file" "Log file path: "
                                           (snd paths) ;;
      collect (fst paths) (snd paths) ;;
      compress_support_folder ;;
      final_message base_path)%prog
     (always no_line_read_by).
Proof. always_auto reflexivity. Qed.

Lemma main_body_malformed :
  wp main_body (fun out tr =>
    forall line, In (Some line) (map line_read tr) ->
      klipper_paths line = Raised index_error ->
      out = Raised index_error /\ Forall (fun ev => harmless ev = true) tr).
Proof.
  unfold main_body. apply wp_bind.
  eapply wp_mono; [| exact (wp_conj _ _ _ locate_returns locate_harmless)].
  intros [paths|e] tr [Hret Hharm].
  - eapply wp_mono; [| exact (after_locate_reads_no_line paths)].
    intros out tr' Hno line Hin Hbad. exfalso.
    rewrite map_app in Hin. apply in_app_or in Hin as [Hin | Hin].
    + specialize (Hret line Hin). congruence.
    + apply in_map_iff in Hin as (ev & Hev & Hin).
      unfold always in Hno. rewrite Forall_forall in Hno.
      specialize (Hno ev Hin). unfold no_line_read_by in Hno. congruence.
  - intros line Hin Hbad. split; [|exact Hharm].
    specialize (Hret line Hin). rewrite Hbad in Hret. now injection Hret as ->.
Qed.

(** ** [get_newest_log] *)

Lemma run_get_newest_log (E : env) (st : state E) (log_dir log_prefix : string)
      (all_files : list string) :
  fst (handle E (listdir log_dir) st) = Ok all_files ->
  outcome (run E (get_newest_log log_dir log_prefix) st)
  = outcome (run E (newest_of all_files log_prefix)
                 (snd (handle E (listdir log_dir) st)))
  /\ trace (run E (get_newest_log log_dir log_prefix) st)
     = Called (listdir log_dir) (Ok all_files)
       :: trace (run E (newest_of all_files log_prefix)
                     (snd (handle E (listdir log_dir) st))).
Proof.
  intros H. unfold get_newest_log. simpl.
  destruct (handle E (listdir log_dir) st) as [r st']. simpl in *. subst r.
  simpl. split; reflexivity.
Qed.

Lemma is_nil_false {A} (l : list A) : l <> [] -> is_nil l = false.
Proof. destruct l; [congruence | reflexivity]. Qed.

Lemma no_rotation_log_files (all_files : list string) (log_prefix : string) :
  no_rotation all_files log_prefix -> log_files all_files log_prefix = [].
Proof.
  unfold no_rotation, log_files. induction all_files as [|f l IH]; intros H.
  - reflexivity.
  - simpl. destruct (startswith f log_prefix) eqn:Hs; simpl.
    + rewrite (H f (or_introl eq_refl) Hs). apply IH.
      intros g Hg. apply H. now right.
    + apply IH. intros g Hg. apply H. now right.
Qed.

(** C4, as amended: when the filter keeps at least one name and every
    name it keeps carries a valid date between its first [.log.] and the
    next, [get_newest_log] returns the first-listed of the names with the
    most recent date; in particular it returns [klippy.log.2024-03-15]
    for the three names of the specification. *)
Theorem get_newest_log_returns_newest :
  (forall (E : env) (st : state E) (log_dir log_prefix : string)
          (all_files : list string),
      fst (handle E (listdir log_dir) st) = Ok all_files ->
      log_files all_files log_prefix <> [] ->
      (forall f, In f (log_files all_files log_prefix) ->
                 exists k, sort_key f = Ok k) ->
      exists newest,
        outcome (run E (get_newest_log log_dir log_prefix) st) = Ok (Some newest)
        /\ newest_in (log_files all_files log_prefix) newest)
  /\ (forall (E : env) (st : state E) (log_dir : string),
        fst (handle E (listdir log_dir) st)
        = Ok ["klippy.log.2024-01-01"; "klippy.log.2024-03-15";
              "klippy.log.2023-12-31"] ->
        outcome (run E (get_newest_log log_dir "klippy.log") st)
        = Ok (Some "klippy.log.2024-03-15")).
Proof.
  split.
  - intros E st log_dir log_prefix all_files Hls Hne Hall.
    destruct (run_get_newest_log E st log_dir log_prefix all_files Hls) as [-> _].
    destruct (sorted_log_files_head _ Hne Hall) as (newest & rest & Hs & Hn).
    exists newest. split; [|exact Hn].
    unfold newest_of. rewrite (is_nil_false _ Hne), Hs. reflexivity.
  - intros E st log_dir Hls.
    destruct (run_get_newest_log E st log_dir "klippy.log" _ Hls) as [-> _].
    reflexivity.
Qed.

Lemma get_newest_log_returns_newest_witness :
  exists newest,
    outcome (run (scenario_env standard)
                 (get_newest_log "/home/pi/printer_data/logs" "klippy.log") 0)
    = Ok (Some newest)
    /\ newest_in (log_files (log_listing standard) "klippy.log") newest.
Proof.
  refine (proj1 get_newest_log_returns_newest (scenario_env standard) 0
            "/home/pi/printer_data/logs" "klippy.log" (log_listing standard)
            _ _ _).
  - reflexivity.
  - replace (log_files (log_listing standard) "klippy.log")
      with ["klippy.log.2024-01-01"; "klippy.log.2024-03-15";
            "klippy.log.2023-12-31"] by (vm_compute; reflexivity).
    discriminate.
  - replace (log_files (log_listing standard) "klippy.log")
      with ["klippy.log.2024-01-01"; "klippy.log.2024-03-15";
            "klippy.log.2023-12-31"] by (vm_compute; reflexivity).
    intros f [<- | [<- | [<- | []]]]; eexists; vm_compute; reflexivity.
Defined.

(** The claim C4 as the specification states it fails: a name with an
    impossible date makes the selection return nothing although a valid
    rotation is listed. *)
Lemma get_newest_log_not_always_newest :
  let all_files := ["klippy.log.2024-01-01"; "klippy.log.2024-99-01"] in
  log_files all_files "klippy.log" = all_files
  /\ sort_key "klippy.log.2024-01-01" = Ok (Date.mk 2024 1 1)
  /\ outcome (run (scenario_env (with_listing all_files))
                  (get_newest_log "/home/pi/printer_data/logs" "klippy.log") 0)
     = Ok None.
Proof. vm_compute. repeat split. Qed.

(** C9, as amended: one name that passes the filter but whose text
    between its first [.log.] and the next one (or the end of the name)
    does not parse as a date makes [get_newest_log] return nothing,
    whatever else is listed. *)
Theorem unparseable_rotation_suppresses_selection
        (E : env) (st : state E) (log_dir log_prefix : string)
        (all_files : list string) (f d : string) (e : exn) :
  fst (handle E (listdir log_dir) st) = Ok all_files ->
  In f all_files ->
  startswith f log_prefix = true ->
  re_match_rotation f = true ->
  nth_error (split ".log." f) 1 = Some d ->
  Date.strptime d = Raised e ->
  outcome (run E (get_newest_log log_dir log_prefix) st) = Ok None.
Proof.
  intros Hls Hin Hs Hm Hd He.
  destruct (run_get_newest_log E st log_dir log_prefix all_files Hls) as [-> _].
  assert (Hf : In f (log_files all_files log_prefix)).
  { unfold log_files. apply filter_In. split; [exact Hin | now rewrite Hs, Hm]. }
  assert (Hk : sort_key f = Raised e).
  { unfold sort_key, index. rewrite Hd. exact He. }
  destruct (keyed_raised _ _ _ Hf Hk) as [e' He'].
  unfold newest_of. rewrite is_nil_false by (intros E0; now rewrite E0 in Hf).
  unfold sorted_log_files. rewrite He'. reflexivity.
Qed.

Lemma unparseable_rotation_suppresses_selection_witness :
  outcome (run (scenario_env
                  (with_listing ["klippy.log.2024-01-01";
                                 "klippy.log.bak.log.2024-03-15"]))
               (get_newest_log "/home/pi/printer_data/logs" "klippy.log") 0)
  = Ok None.
Proof.
  refine (unparseable_rotation_suppresses_selection
            (scenario_env (with_listing ["klippy.log.2024-01-01";
                                         "klippy.log.bak.log.2024-03-15"]))
            0 "/home/pi/printer_data/logs" "klippy.log"
            ["klippy.log.2024-01-01"; "klippy.log.bak.log.2024-03-15"]
            "klippy.log.bak.log.2024-03-15" "bak"
            (ValueError "time data 'bak' does not match format '%Y-%m-%d'")
            _ _ _ _ _ _).
  - reflexivity.
  - simpl. right. left. reflexivity.
  - reflexivity.
  - reflexivity.
  - reflexivity.
  - reflexivity.
Defined.

(** The claim C9 as stated fails: the text after the first [.log.] of
    this name is not a date, yet the name is selected, because only the
    text up to the second [.log.] is parsed. *)
Lemma text_after_first_log_not_parsed_whole :
  let f := "klippy.log.2024-1-1.log.2024-01-01" in
  startswith f "klippy.log" = true
  /\ re_match_rotation f = true
  /\ after ".log." f = "2024-1-1.log.2024-01-01"
  /\ Date.strptime (after ".log." f)
     = Raised (ValueError "unconverted data remains: .log.2024-01-01")
  /\ outcome (run (scenario_env (with_listing [f]))
                  (get_newest_log "/home/pi/printer_data/logs" "klippy.log") 0)
     = Ok (Some f).
Proof. vm_compute. repeat split. Qed.

(** ** A log directory without rotated logs *)

Lemma wp_true {A} (p : prog A) : wp p (fun _ _ => True).
Proof. induction p; simpl; auto. Qed.

Lemma not_listed (tr : list event) (names : list string) :
  Forall lists_nothing tr -> ~ In (Some names) (map listed tr).
Proof.
  intros H Hin. apply in_map_iff in Hin as (ev & Hev & Hin).
  rewrite Forall_forall in H. specialize (H ev Hin).
  unfold lists_nothing in H. congruence.
Qed.

Lemma reports_no_rotation_before {A B} (p : prog A) (f : A -> prog B) :
  wp p (always lists_nothing) ->
  (forall a, wp (f a) (fun _ tr => reports_no_rotation tr)) ->
  wp (bind p f) (fun _ tr => reports_no_rotation tr).
Proof.
  intros Hp Hf. apply wp_bind. eapply wp_mono; [|exact Hp].
  intros [a|e] tr Htr.
  - eapply wp_mono; [|exact (Hf a)]. intros out' tr' Hq names Hin Hno line Hl.
    rewrite map_app in Hin. apply in_app_or in Hin as [Hin | Hin].
    + now apply not_listed in Hin.
    + apply in_or_app. right. exact (Hq names Hin Hno line Hl).
  - intros names Hin. now apply not_listed in Hin.
Qed.

Lemma reports_no_rotation_after {A B} (p : prog A) (f : A -> prog B) :
  wp p (fun _ tr => reports_no_rotation tr) ->
  (forall a, wp (f a) (always lists_nothing)) ->
  wp (bind p f) (fun _ tr => reports_no_rotation tr).
Proof.
  intros Hp Hf. apply wp_bind. eapply wp_mono; [|exact Hp].
  intros [a|e] tr Hq; [|exact Hq].
  eapply wp_mono; [|exact (Hf a)]. intros out' tr' Htr' names Hin Hno line Hl.
  rewrite map_app in Hin. apply in_app_or in Hin as [Hin | Hin].
  - apply in_or_app. left. exact (Hq names Hin Hno line Hl).
  - now apply not_listed in Hin.
Qed.

Ltac find_line := repeat (first [left; reflexivity | right]).

Ltac listing_leaf :=
  let names := fresh "names" in
  let Hin := fresh "Hin" in
  let Hno := fresh "Hno" in
  intros names Hin Hno; cbn [map listed In] in Hin;
  repeat (destruct Hin as [Hin | Hin]; try discriminate Hin);
  try contradiction;
  injection Hin as <-;
  first
    [ apply no_rotation_log_files in Hno;
      match goal with
      | Hnil : is_nil _ = false |- _ => rewrite Hno in Hnil; discriminate Hnil
      end
    | repeat split; find_line ].

Ltac exec_step :=
  lazymatch goal with
  | |- forall r : result bool, _ => intros [[|]|?]
  | |- forall r : result unit, _ => intros [[]|?]
  | |- forall r : result (list string), _ => intros [?|?]
  | |- context [if is_nil ?l then _ else _] => destruct (is_nil l) eqn:?
  | |- context [match sorted_log_files ?l with Ok _ => _ | Raised _ => _ end] =>
      destruct (sorted_log_files l)
  | |- context [lift (index ?l 0)] => destruct (index l 0)
  | |- context [if is_empty ?n then _ else _] => destruct (is_empty n)
  end;
  cbn [lift bind wp response];
  try solve [listing_leaf].

(** The copy of the logs: an empty selection is reported and the step
    ends normally. *)
Lemma copy_selective_logs_no_rotation (log_file_path : string) :
  wp (copy_selective_logs log_file_path)
     (fun out tr =>
        forall names,
          In (Some names) (map listed tr) ->
          no_rotation names "klippy.log" ->
          out = Ok tt
          /\ In (Printed (ok_line "No archived klippy log found.")) tr
          /\ In (Printed (ok_line "Selective logs copied")) tr).
Proof.
  unfold copy_selective_logs, no_archived_log, get_newest_log, newest_of,
    status_message, step_message, print, call.
  cbn [bind wp].
  destruct (contains "printer_data" log_file_path);
    cbn [for_each bind wp response]; repeat exec_step.
Qed.

Lemma copy_printer_cfg_starts {B} (printer_cfg_path : string) (k : prog B) :
  wp (copy_printer_cfg printer_cfg_path ;; k)%prog
     (fun _ tr => In (Printed (step_line "Copying printer.cfg")) tr).
Proof.
  unfold copy_printer_cfg, step_message, print. cbn [bind wp].
  eapply wp_mono; [|apply wp_true]. intros out tr _. now left.
Qed.

Lemma collect_no_rotation (printer_cfg_path log_file_path : string) :
  wp (collect printer_cfg_path log_file_path)
     (fun _ tr => reports_no_rotation tr).
Proof.
  unfold collect. apply reports_no_rotation_before.
  { always_auto reflexivity. }
  intros _. apply wp_bind.
  eapply wp_mono; [|apply copy_selective_logs_no_rotation].
  intros [[]|e] tr Hlogs.
  - eapply wp_mono.
    2: { apply wp_conj.
         - apply (copy_printer_cfg_starts printer_cfg_path).
         - assert (H : wp (copy_printer_cfg printer_cfg_path ;;
                           collect_system_reports)%prog
                          (always lists_nothing))
             by (always_auto reflexivity).
           exact H. }
    intros out tr' [Hstart Hnone] names Hin Hno line Hline.
    rewrite map_app in Hin. apply in_app_or in Hin as [Hin | Hin].
    2: { now apply not_listed in Hin. }
    destruct (Hlogs names Hin Hno) as (_ & H1 & H2).
    apply in_or_app.
    destruct Hline as [<- | [<- | [<- | []]]]; auto.
  - intros names Hin Hno. destruct (Hlogs names Hin Hno) as [H _].
    discriminate H.
Qed.

Lemma main_body_no_rotation : wp main_body (fun _ tr => reports_no_rotation tr).
Proof.
  unfold main_body.
  apply reports_no_rotation_before; [always_auto reflexivity | intros paths].
  apply reports_no_rotation_before; [always_auto reflexivity | intros bp].
  apply reports_no_rotation_before; [always_auto reflexivity | intros bpl].
  apply reports_no_rotation_after; [apply collect_no_rotation | intros _].
  always_auto reflexivity.
Qed.

(** What is in the trace of [main] but not in that of its [try] block is
    a printed line. *)
Lemma main_trace_incl (E : env) (st : state E) (o : op) (r : result (response o)) :
  In (Called o r) (trace (run E main st)) ->
  In (Called o r) (trace (run E main_body st)).
Proof.
  intros Hin. destruct (outcome (run E main_body st)) as [[]|e] eqn:Hout.
  - destruct (main_after_success E st Hout) as (_ & H2 & _). now rewrite <- H2.
  - destruct (main_after_error E st e Hout) as (_ & H2 & _).
    rewrite H2 in Hin. apply in_app_or in Hin as [Hin | [Hin | []]];
      [exact Hin | discriminate Hin].
Qed.

Lemma main_body_trace_incl (E : env) (st : state E) (ev : event) :
  In ev (trace (run E main_body st)) -> In ev (trace (run E main st)).
Proof.
  intros Hin. destruct (outcome (run E main_body st)) as [[]|e] eqn:Hout.
  - destruct (main_after_success E st Hout) as (_ & H2 & _). now rewrite H2.
  - destruct (main_after_error E st e Hout) as (_ & H2 & _).
    rewrite H2. apply in_or_app. now left.
Qed.

(** C5: when no name of the log directory matches the rotation pattern,
    [get_newest_log] returns nothing without raising, the copy of the
    logs ends normally, and the run prints "No archived klippy log
    found.", ends the step and starts the next one. *)
Theorem no_rotation_is_not_an_error (E : env) (st : state E) :
  (forall log_dir all_files,
      fst (handle E (listdir log_dir) st) = Ok all_files ->
      no_rotation all_files "klippy.log" ->
      outcome (run E (get_newest_log log_dir "klippy.log") st) = Ok None)
  /\ (forall log_file_path log_dir all_files,
        In (Called (listdir log_dir) (Ok all_files))
           (trace (run E (copy_selective_logs log_file_path) st)) ->
        no_rotation all_files "klippy.log" ->
        outcome (run E (copy_selective_logs log_file_path) st) = Ok tt)
  /\ (forall log_dir all_files,
        In (Called (listdir log_dir) (Ok all_files)) (trace (run E main st)) ->
        no_rotation all_files "klippy.log" ->
        In (Printed (ok_line "No archived klippy log found."))
           (trace (run E main st))
        /\ In (Printed (ok_line "Selective logs copied")) (trace (run E main st))
        /\ In (Printed (step_line "Copying printer.cfg"))
              (trace (run E main st))).
Proof.
  split; [|split].
  - intros log_dir all_files Hls Hno.
    destruct (run_get_newest_log E st log_dir "klippy.log" all_files Hls)
      as [-> _].
    unfold newest_of. now rewrite (no_rotation_log_files _ _ Hno).
  - intros log_file_path log_dir all_files Hin Hno.
    pose proof (wp_sound _ _ (copy_selective_logs_no_rotation log_file_path) E st)
      as H.
    apply (in_map listed) in Hin. exact (proj1 (H all_files Hin Hno)).
  - intros log_dir all_files Hin Hno.
    apply main_trace_incl in Hin. apply (in_map listed) in Hin.
    pose proof (wp_sound _ _ main_body_no_rotation E st all_files Hin Hno) as H.
    repeat split; apply main_body_trace_incl, H; simpl; auto.
Qed.

Lemma no_rotation_is_not_an_error_witness :
  In (Printed (ok_line "No archived klippy log found."))
     (trace (run (scenario_env (with_listing ["klippy.log"; "moonraker.log"]))
                 main 0)).
Proof.
  refine (proj1 (proj2 (proj2
    (no_rotation_is_not_an_error
       (scenario_env (with_listing ["klippy.log"; "moonraker.log"])) 0))
    "/home/pi/printer_data/logs" ["klippy.log"; "moonraker.log"] _ _)).
  - vm_compute. find_line.
  - intros f [<- | [<- | []]] _; reflexivity.
Defined.

(** ** The system reports *)












(** ** The Packager *)

Lemma for_each_adds {X} (l : list X) (body : X -> prog unit)
      (S : X -> list entry -> Prop) :
  (forall x, wp (body x) (adds (S x))) ->
  wp (for_each l body)
     (adds (fun entries =>
              exists rounds, Forall2 S l rounds /\ entries = List.concat rounds)).
Proof.
  intros Hbody. induction l as [|x l IH]; cbn [for_each].
  - intros _. exists []. split; [|reflexivity]. exists []. now split.
  - apply wp_bind. eapply wp_mono; [|exact (Hbody x)].
    intros [[]|e] tr Hx.
    + eapply wp_mono; [|exact IH]. intros out tr' Hl Hok.
      destruct (Hx (ex_intro _ tt eq_refl)) as (ens & Hens & ->).
      destruct (Hl Hok) as (ens' & (rounds & Hr & ->) & ->).
      exists (ens ++ List.concat rounds)%list. split.
      * exists (ens :: rounds). split; [now constructor | reflexivity].
      * now rewrite flat_map_app.
    + intros [a Ha]. discriminate Ha.
Qed.

Lemma add_to_archive_adds (root file : string) :
  wp (add_to_archive root file)
     (adds (fun entries =>
              exists en, entries = [en]
                         /\ abs_path en = Path.join root file
                         /\ named_relative en)).
Proof.
  unfold add_to_archive, adds, named_relative, call.
  destruct (Path.relpath (Path.join root file) support_dir) as [arc|e] eqn:Hrel;
    cbn [lift bind wp response].
  2: { intros [a Ha]. discriminate Ha. }
  intros [ts|e]; cbn [bind wp response].
  2: { intros [a Ha]. discriminate Ha. }
  intros [[]|e]; cbn [bind wp response].
  2: { intros [a Ha]. discriminate Ha. }
  intros _.
  exists [{| abs_path := Path.join root file; arcname := arc; timestamp := ts |}].
  split; [|reflexivity]. eexists. split; [reflexivity|]. split; [reflexivity|].
  exact Hrel.
Qed.

Lemma concat_singletons (files : list string) (root : string)
      (rounds : list (list entry)) :
  Forall2 (fun file entries =>
             exists en, entries = [en]
                        /\ abs_path en = Path.join root file
                        /\ named_relative en) files rounds ->
  map abs_path (List.concat rounds) = map (Path.join root) files
  /\ Forall named_relative (List.concat rounds).
Proof.
  induction 1 as [|file ens files rounds (en & -> & Habs & Hrel) _ [IH1 IH2]].
  - split; constructor.
  - simpl. rewrite Habs, IH1. split; [reflexivity | now constructor].
Qed.

Lemma walk_loop_adds (triples : list (string * list string * list string)) :
  wp (for_each triples (fun '(root, dirs, files) =>
        for_each files (fun file => add_to_archive root file)))
     (adds (fun entries =>
              map abs_path entries = walked_files triples
              /\ Forall named_relative entries)).
Proof.
  eapply wp_mono.
  2: { apply (for_each_adds triples _
                (fun t entries =>
                   map abs_path entries = map (Path.join (fst (fst t))) (snd t)
                   /\ Forall named_relative entries)).
       intros [[root dirs] files]. eapply wp_mono.
       2: { apply (for_each_adds files _
                     (fun file entries =>
                        exists en, entries = [en]
                                   /\ abs_path en = Path.join root file
                                   /\ named_relative en)).
            intros file. apply add_to_archive_adds. }
       intros out tr H Hok. destruct (H Hok) as (ens & (rounds & Hr & ->) & ->).
       exists (List.concat rounds). split; [|reflexivity].
       now apply concat_singletons. }
  intros out tr H Hok. destruct (H Hok) as (ens & (rounds & Hr & ->) & ->).
  exists (List.concat rounds). split; [|reflexivity].
  clear -Hr. induction Hr as [|t ens triples rounds [H1 H2] _ [IH1 IH2]].
  - split; constructor.
  - unfold walked_files in *. simpl. rewrite map_app, H1, IH1.
    split; [reflexivity | now apply Forall_app].
Qed.

Lemma compress_support_folder_spec :
  wp compress_support_folder
     (fun out tr =>
        out = Ok tt ->
        exists triples entries,
          map abs_path entries = walked_files triples
          /\ Forall named_relative entries
          /\ tr = packaged triples entries).
Proof.
  unfold compress_support_folder, status_message, step_message, print.
  cbn [bind wp]. unfold call at 1. cbn [bind wp response].
  intros [[]|e]; cbn [bind wp]; [|discriminate].
  apply wp_bind. apply wp_finally.
  unfold call at 1. cbn [bind wp response].
  intros [triples|e]; cbn [bind wp].
  2: { intros [[]|e']; cbn [bind wp]; discriminate. }
  eapply wp_mono; [|apply walk_loop_adds].
  intros out tr Hloop. unfold call. cbn [wp response].
  intros [[]|e']; cbn [wp]; [|discriminate].
  destruct out as [[]|e]; cbn [wp]; [|discriminate].
  intros _. destruct (Hloop (ex_intro _ tt eq_refl)) as (entries & [H1 H2] & ->).
  exists triples, entries. repeat split; auto.
  unfold packaged. cbn [app]. rewrite <- !app_assoc. reflexivity.
Qed.

(** *** Packaging ends normally when nothing raises *)

Lemma relpath_defined (path start : string) :
  path <> "" -> exists rel, Path.relpath path start = Ok rel.
Proof.
  intros H. unfold Path.relpath. destruct path; [congruence|]. cbn [is_empty].
  destruct (Path.strip_common _ _). eexists. reflexivity.
Qed.

Lemma for_each_progresses {X} (l : list X) (body : X -> prog unit)
      (C : X -> Prop) :
  (forall x, wp (body x) (progresses (C x))) ->
  wp (for_each l body) (progresses (Forall C l)).
Proof.
  intros Hbody. induction l as [|x l IH]; cbn [for_each].
  - intros _ _. now exists tt.
  - apply wp_bind. eapply wp_mono; [|exact (Hbody x)].
    intros [[]|e] tr Hx.
    + eapply wp_mono; [|exact IH]. intros out tr' Hl HC Hno.
      rewrite existsb_app in Hno. apply orb_false_elim in Hno as [_ Hno].
      apply Hl; [now inversion HC | exact Hno].
    + intros HC Hno. destruct (Hx (Forall_inv HC) Hno) as [a Ha].
      discriminate Ha.
Qed.

Lemma add_to_archive_progresses (root file : string) :
  wp (add_to_archive root file) (progresses (Path.join root file <> "")).
Proof.
  unfold add_to_archive, progresses, call.
  destruct (Path.relpath (Path.join root file) support_dir) as [arc|e] eqn:Hrel;
    cbn [lift bind wp response].
  2: { intros H _. destruct (relpath_defined _ support_dir H) as [rel Hr].
       congruence. }
  intros [ts|e]; cbn [bind wp response]; [|intros _ H; discriminate H].
  intros [[]|e]; cbn [bind wp response]; [|intros _ H; discriminate H].
  intros _ _. now exists tt.
Qed.

Lemma compress_support_folder_progresses :
  wp compress_support_folder
     (fun out tr =>
        (forall triples, In (Some triples) (map walked tr) ->
                         Forall (fun path => path <> "") (walked_files triples)) ->
        existsb raised tr = false ->
        out = Ok tt).
Proof.
  unfold compress_support_folder, status_message, step_message, print.
  cbn [bind wp]. unfold call at 1. cbn [bind wp response].
  intros [[]|e]; cbn [bind wp]; [|intros _ H; discriminate H].
  apply wp_bind. apply wp_finally.
  unfold call at 1. cbn [bind wp response].
  intros [triples|e]; cbn [bind wp].
  2: { intros [[]|e']; cbn [bind wp]; intros _ H; discriminate H. }
  eapply wp_mono.
  2: { apply (for_each_progresses triples _
                (fun t => Forall (fun file => Path.join (fst (fst t)) file <> "")
                                 (snd t))).
       intros [[root dirs] files]. cbn [fst snd].
       apply (for_each_progresses files _ (fun file => Path.join root file <> "")).
       intros file. apply add_to_archive_progresses. }
  intros out tr Hloop. unfold call. cbn [wp response].
  assert (Hfiles : (forall triples0,
                       In (Some triples0)
                          (map walked (Called (walk support_dir) (Ok triples) :: tr)) ->
                       Forall (fun path => path <> "") (walked_files triples0)) ->
                   Forall (fun t => Forall (fun file =>
                                              Path.join (fst (fst t)) file <> "")
                                           (snd t)) triples).
  { intros H. specialize (H triples (or_introl eq_refl)).
    clear -H. unfold walked_files in H. induction triples as [|t l IH].
    - constructor.
    - cbn [flat_map] in H. apply Forall_app in H as [H1 H2].
      constructor; [|now apply IH].
      rewrite Forall_map in H1. exact H1. }
  intros [[]|e']; cbn [wp].
  - destruct out as [[]|e]; cbn [wp].
    + reflexivity.
    + intros Hw Hno. exfalso. cbn [existsb raised orb app] in Hno.
      rewrite existsb_app in Hno. apply orb_false_elim in Hno as [Hno _].
      assert (Hw' : forall triples0,
                 In (Some triples0)
                    (map walked (Called (walk support_dir) (Ok triples) :: tr)) ->
                 Forall (fun path => path <> "") (walked_files triples0)).
      { intros t0 Hin. apply Hw. cbn [map walked In app] in *.
        right. right. destruct Hin as [Hin | Hin]; [now left | right].
        rewrite map_app. apply in_or_app. now left. }
      destruct (Hloop (Hfiles Hw') Hno) as [a Ha]. discriminate Ha.
  - assert (Hclose : forall (out' : result unit),
               (forall triples0 : list (string * list string * list string),
                   In (Some triples0)
                      (map walked
                         (Printed (step_line "Compressing support folder")
                          :: Called (zip_open zip_path) (Ok tt)
                          :: (Called (walk support_dir) (Ok triples) :: tr)
                             ++ [Called (zip_close zip_path) (Raised e')])) ->
                   Forall (fun path => path <> "") (walked_files triples0)) ->
               existsb raised
                 (Printed (step_line "Compressing support folder")
                  :: Called (zip_open zip_path) (Ok tt)
                  :: (Called (walk support_dir) (Ok triples) :: tr)
                     ++ [Called (zip_close zip_path) (Raised e')]) = false ->
               out' = Ok tt).
    { intros out' _ Hno. exfalso. cbn [existsb raised orb app] in Hno.
      rewrite existsb_app in Hno. cbn [existsb raised orb] in Hno.
      rewrite orb_true_r in Hno. discriminate Hno. }
    destruct out as [[]|e]; cbn [wp]; apply Hclose.
Qed.

(** On the standard host the four files are stamped with three different
    readings of the clock. *)
Example standard_archive_names :
  map (fun ev => match ev with
                 | Called (zip_write _ _ name) _ => name
                 | _ => ""
                 end)
      (filter (fun ev => match ev with
                         | Called (zip_write _ _ _) _ => true
                         | _ => false
                         end)
              (trace (run (scenario_env standard) compress_support_folder 0)))
  = ["klippy.log_20240315_101559"; "moonraker.log_20240315_101559";
     "dmesg.txt_20240315_101600"; "config/printer.cfg_20240315_101601"].
Proof. vm_compute. reflexivity. Qed.

(** ** Stripping and splitting lines *)

Lemma lstrip_stop (p : ascii -> bool) (a : string) (c : ascii) (y : string) :
  p c = false -> lstrip p (a ++ String c y) = lstrip p a ++ String c y.
Proof.
  intros Hc. induction a as [|x a IH]; simpl.
  - now rewrite Hc.
  - destruct (p x); [exact IH | reflexivity].
Qed.

Lemma lstrip_id (p : ascii -> bool) (s : string) :
  holds_at (fun c => negb (p c)) (first_char s) = true -> lstrip p s = s.
Proof.
  destruct s as [|c s]; simpl; [reflexivity|].
  intros H. apply negb_true_iff in H. now rewrite H.
Qed.

Lemma lstrip_all (p : ascii -> bool) (ws s : string) :
  all_chars p ws = true -> lstrip p (ws ++ s) = lstrip p s.
Proof.
  induction ws as [|c ws IH]; simpl; [reflexivity|].
  intros H. apply andb_prop in H as [Hc Hws]. rewrite Hc. now apply IH.
Qed.

Lemma rstrip_all (p : ascii -> bool) (t : string) :
  all_chars p t = true -> rstrip p t = "".
Proof.
  induction t as [|c t IH]; simpl; [reflexivity|].
  intros H. apply andb_prop in H as [Hc Ht]. now rewrite (IH Ht), Hc.
Qed.

Lemma rstrip_nonempty (p : ascii -> bool) (a : string) :
  holds_at (fun c => negb (p c)) (last_char a) = true ->
  rstrip p a = a.
Proof.
  induction a as [|c a IH]; simpl; [discriminate|].
  destruct (last_char a) as [d|] eqn:Hl.
  - intros H. rewrite (IH H). destruct a; [discriminate Hl | reflexivity].
  - intros H. simpl in H. apply negb_true_iff in H.
    destruct a as [|x a]; [simpl; now rewrite H|].
    simpl in Hl. destruct (last_char a); discriminate.
Qed.

Lemma rstrip_trailing (p : ascii -> bool) (a t : string) :
  holds_at (fun c => negb (p c)) (last_char a) = true ->
  all_chars p t = true ->
  rstrip p (a ++ t) = a.
Proof.
  intros Ha Ht. induction a as [|c a IH]; [discriminate|].
  change (String c a ++ t) with (String c (a ++ t)). cbn [rstrip].
  destruct a as [|x a].
  - simpl in *. rewrite (rstrip_all _ _ Ht). simpl.
    apply negb_true_iff in Ha. now rewrite Ha.
  - assert (Hx : holds_at (fun c => negb (p c)) (last_char (String x a)) = true).
    { simpl in *. destruct (last_char a); exact Ha. }
    rewrite (IH Hx). reflexivity.
Qed.

Lemma last_char_snoc (a : string) (c : ascii) (t : string) :
  last_char (a ++ String c t) = last_char (String c t).
Proof. apply last_char_append. discriminate. Qed.

(** *** Splitting at a character *)

Lemma prefix_char (c d : ascii) (s : string) :
  prefix (String c "") (String d s) = Ascii.eqb c d.
Proof. rewrite prefix_cons, prefix_empty. apply andb_true_r. Qed.

Lemma contains_char_cons (c d : ascii) (s : string) :
  contains (String c "") (String d s) = Ascii.eqb c d || contains (String c "") s.
Proof. cbn [contains]. now rewrite prefix_char. Qed.

Lemma contains_char_app (c : ascii) (a b : string) :
  contains (String c "") (a ++ b)
  = contains (String c "") a || contains (String c "") b.
Proof.
  induction a as [|d a IH]; [reflexivity|].
  change (String d a ++ b) with (String d (a ++ b)).
  rewrite !contains_char_cons, IH. apply orb_assoc.
Qed.

Lemma all_chars_without (p : ascii -> bool) (c : ascii) (s : string) :
  all_chars p s = true -> p c = false -> contains (String c "") s = false.
Proof.
  intros Hs Hc. induction s as [|d s IH]; [reflexivity|].
  simpl in Hs. apply andb_prop in Hs as [Hd Hs].
  rewrite contains_char_cons, (IH Hs), orb_false_r.
  apply Ascii.eqb_neq. intros ->. congruence.
Qed.

Lemma split_char_app (c : ascii) (k v : string) :
  contains (String c "") k = false ->
  split (String c "") (k ++ String c v) = k :: split (String c "") v.
Proof.
  unfold split. induction k as [|d k IH]; intros Hk.
  - cbn [append split_from]. rewrite prefix_char, Ascii.eqb_refl.
    cbn [length Nat.sub]. destruct (split_from (String c "") 0 v). reflexivity.
  - rewrite contains_char_cons in Hk. apply orb_false_elim in Hk as [Hd Hk].
    change (String d k ++ String c v) with (String d (k ++ String c v)).
    cbn [split_from]. rewrite prefix_char, Hd.
    specialize (IH Hk).
    destruct (split_from (String c "") 0 (k ++ String c v)) as [h t].
    now injection IH as -> ->.
Qed.

Lemma contains_lstrip (m : string) (p : ascii -> bool) (s : string) :
  contains m s = false -> contains m (lstrip p s) = false.
Proof.
  intros H. destruct (contains m (lstrip p s)) eqn:E; [|reflexivity].
  destruct (lstrip_suffix p s) as [a Ha].
  rewrite Ha, contains_app_r in H; [discriminate | exact E].
Qed.

(** *** Splitting at whitespace *)

Lemma split_ws_blank (ws s : string) :
  all_chars is_space ws = true -> split_ws (ws ++ s) = split_ws s.
Proof.
  unfold split_ws. induction ws as [|c ws IH]; [reflexivity|].
  intros H. simpl in H. apply andb_prop in H as [Hc Hws].
  change (String c ws ++ s) with (String c (ws ++ s)). cbn [words].
  specialize (IH Hws). destruct (words (ws ++ s)) as [w l].
  rewrite Hc. cbn [is_empty]. exact IH.
Qed.

Lemma words_token (t s : string) :
  all_chars (fun c => negb (is_space c)) t = true ->
  words (t ++ s) = (t ++ fst (words s), snd (words s)).
Proof.
  induction t as [|c t IH]; intros H.
  - simpl. now destruct (words s).
  - simpl in H. apply andb_prop in H as [Hc Ht]. apply negb_true_iff in Hc.
    change (String c t ++ s) with (String c (t ++ s)). cbn [words].
    rewrite (IH Ht), Hc. reflexivity.
Qed.

(** ** The environment file *)

Lemma app_cons_assoc (a : string) (c : ascii) (b t : string) :
  (a ++ String c b) ++ t = a ++ String c (b ++ t).
Proof. now rewrite append_assoc. Qed.

(** The line without the blanks and the line feed around it. *)
Lemma strip_env_line (key ws1 ws2 value trail : string) :
  all_chars is_space trail = true ->
  strip (env_line key ws1 ws2 value trail)
  = lstrip is_space (key ++ ws1)
    ++ String "=" (ws2 ++ String dquote (value ++ String dquote "")).
Proof.
  intros Htrail. unfold strip, strip_chars, env_line.
  change ("=" ++ ws2 ++ String dquote (value ++ String dquote trail))
    with (String "=" (ws2 ++ String dquote (value ++ String dquote trail))).
  rewrite <- append_assoc, lstrip_stop by reflexivity.
  replace (lstrip is_space (key ++ ws1)
           ++ String "=" (ws2 ++ String dquote (value ++ String dquote trail)))
    with ((lstrip is_space (key ++ ws1)
           ++ String "=" (ws2 ++ String dquote (value ++ String dquote "")))
          ++ trail).
  - apply rstrip_trailing; [|exact Htrail].
    rewrite last_char_snoc.
    change (String "=" (ws2 ++ String dquote (value ++ String dquote "")))
      with (String "=" ws2 ++ String dquote (value ++ String dquote "")).
    rewrite last_char_snoc.
    change (String dquote (value ++ String dquote ""))
      with (String dquote value ++ String dquote "").
    rewrite last_char_snoc. reflexivity.
  - rewrite app_cons_assoc, app_cons_assoc.
    change (String dquote (value ++ String dquote "") ++ trail)
      with (String dquote ((value ++ String dquote "") ++ trail)).
    now rewrite app_cons_assoc.
Qed.

Lemma space_not_dquote (c : ascii) : is_space c = true -> is_dquote c = false.
Proof.
  intros H. unfold is_dquote. apply Ascii.eqb_neq. intros ->. discriminate H.
Qed.

Lemma index_nth {A} (l : list A) (n : nat) (d : A) :
  (n < List.length l)%nat -> index l n = Ok (nth n l d).
Proof.
  intros H. unfold index. now rewrite (nth_error_nth' l d H).
Qed.

(** ** The service definition *)

Ltac no_read :=
  let H1 := fresh in
  let H2 := fresh in
  intros ? ? ? H1 H2; cbn [map lines_read line_read_at In] in H1, H2;
  repeat (destruct H2 as [H2 | H2]; try discriminate H2); contradiction.

(** What the Locator returns is a function of what it read: the path of
    the environment file comes from the lines of the service definition
    and the two paths from the first line of the environment file. *)
Lemma locate_deterministic :
  wp locate (fun out tr =>
    forall lines path line,
      In (Some lines) (map lines_read tr) ->
      In (Some (path, line)) (map line_read_at tr) ->
      environment_file_path lines = Ok path /\ out = klipper_paths line).
Proof.
  unfold locate, check_klipper_service, read_klipper_service,
    check_environment_file, read_environment_file, status_message,
    step_message, print, call.
  cbn [bind wp response negb].
  intros [[|]|e]; cbn [bind wp response negb]; try solve [no_read].
  intros [lines|e]; cbn [bind wp response negb]; try solve [no_read].
  destruct (environment_file_path lines) as [path|e] eqn:Hpath;
    cbn [lift bind wp response negb]; try solve [no_read].
  intros [[|]|e]; cbn [bind wp response negb]; try solve [no_read].
  intros [first_line|e]; cbn [bind wp response negb]; try solve [no_read].
  destruct (klipper_paths first_line) as [paths|e] eqn:Hp;
    cbn [lift bind wp response negb];
    intros lines' path' line' H1 H2;
    cbn [map lines_read line_read_at In] in H1, H2;
    repeat (destruct H1 as [H1 | H1]; try discriminate H1); try contradiction;
    repeat (destruct H2 as [H2 | H2]; try discriminate H2); try contradiction;
    injection H1 as <-; injection H2 as <- <-; now rewrite Hpath, Hp.
Qed.

Example service_line_with_blanks :
  environment_file_path
    ["[Service]" ++ nl;
     service_line " " " " "/home/pi/printer_data/systemd/klipper.env" nl]
  = Ok "/home/pi/printer_data/systemd/klipper.env".
Proof. reflexivity. Qed.

(** * Further properties *)

(** ** What a run may touch *)

Ltac removes_leaf :=
  idtac;
  lazymatch goal with
  | |- removes_only_scratch (Called (rmtree _) _) => reflexivity
  | |- removes_only_scratch _ => exact I
  end.

Lemma main_body_removes_only_scratch :
  wp main_body (always removes_only_scratch).
Proof. always_auto removes_leaf. Qed.

(** X1: whatever the environment answers, the only directory tree that a
    run of [main] removes is the scratch directory. *)
Theorem main_removes_only_scratch (E : env) (st : state E) (path : string)
        (r : result unit) :
  In (Called (rmtree path) r) (trace (run E main st)) ->
  path = "/tmp/klipper_support".
Proof.
  intros Hin. apply main_trace_incl in Hin.
  pose proof (wp_sound _ _ main_body_removes_only_scratch E st) as H.
  unfold always in H. rewrite Forall_forall in H. exact (H _ Hin).
Qed.

Lemma main_removes_only_scratch_witness :
  "/tmp/klipper_support" = "/tmp/klipper_support".
Proof.
  refine (main_removes_only_scratch (scenario_env standard) 0
            "/tmp/klipper_support" (Ok tt) _).
  vm_compute. repeat (first [left; reflexivity | right]).
Defined.

Lemma join_scratch (name : string) :
  startswith name "/" = false ->
  Path.join support_dir name = "/tmp/klipper_support/" ++ name.
Proof. intros H. unfold Path.join. rewrite H. reflexivity. Qed.

Lemma inside_scratch_join (name : string) :
  startswith name "/" = false -> inside_scratch (Path.join support_dir name) = true.
Proof.
  intros H. rewrite (join_scratch _ H). unfold inside_scratch, startswith.
  rewrite prefix_append. apply orb_true_r.
Qed.

Lemma klippy_not_absolute (name : string) :
  startswith name "klippy.log" = true -> startswith name "/" = false.
Proof.
  unfold startswith. intros H. apply prefix_split in H as [r ->]. reflexivity.
Qed.

Ltac confined_leaf :=
  idtac;
  lazymatch goal with
  | |- confined _ = true =>
      first [ reflexivity
            | apply orb_true_iff; right; reflexivity
            | apply orb_true_iff; left; reflexivity ]
  end.

Lemma get_newest_log_confined (d p : string) :
  wp (get_newest_log d p) (always is_confined).
Proof. always_auto reflexivity. Qed.

Lemma copy_selective_logs_confined (log_file_path : string) :
  wp (copy_selective_logs log_file_path) (always is_confined).
Proof.
  unfold copy_selective_logs, no_archived_log, status_message, step_message.
  cbn [for_each].
  always_step; [apply always_print; reflexivity|].
  always_step; [| apply always_print; reflexivity].
  destruct (contains "printer_data" log_file_path).
  2: { always_step. unfold is_confined. confined_leaf. }
  always_step.
  { repeat always_step; unfold is_confined; confined_leaf. }
  eapply always_bind_with;
    [apply get_newest_log_confined | apply get_newest_log_filtered |].
  intros [name|] Hname; [|apply always_print; reflexivity].
  destruct (is_empty name); [apply always_print; reflexivity|].
  destruct (Hname name eq_refl) as [Hpre _].
  always_step; [| apply always_print; reflexivity].
  always_step. unfold is_confined. cbn [confined].
  rewrite inside_scratch_join by now apply klippy_not_absolute.
  apply orb_true_r.
Qed.

Lemma main_body_confined : wp main_body (always is_confined).
Proof.
  unfold main_body, locate, collect, check_klipper_service,
    read_klipper_service, check_environment_file, read_environment_file,
    determine_base_path, prepare_support_directory, ensure_empty_dir,
    copy_printer_cfg, collect_system_reports, collect_os_information,
    collect_network_information, collect_dmesg_information, with_open_w,
    compress_support_folder, add_to_archive, final_message,
    status_message, step_message.
  repeat first [ apply copy_selective_logs_confined | always_step ];
    unfold is_confined; confined_leaf.
Qed.

(** X2: every call of a run of [main] that creates, writes, removes or
    redirects output targets the scratch directory or the archive at its
    temporary path; only that archive is ever copied anywhere else. *)
Theorem main_is_confined (E : env) (st : state E) :
  forallb confined (trace (run E main st)) = true.
Proof.
  apply forallb_forall. intros ev Hin.
  destruct ev as [o r | line]; [|reflexivity].
  apply main_trace_incl in Hin.
  pose proof (wp_sound _ _ main_body_confined E st) as H.
  unfold always in H. rewrite Forall_forall in H. exact (H _ Hin).
Qed.

(** ** More on [get_newest_log] *)

Lemma keyed_key (fs : list string) (ks : list (Date.t * string)) (f : string) :
  keyed fs = Ok ks -> In f fs -> exists k, sort_key f = Ok k /\ In (k, f) ks.
Proof.
  intros Hks Hin. destruct (keyed_ok _ _ Hks) as [Hmap Hall].
  rewrite <- Hmap in Hin. apply in_map_iff in Hin as ([k g] & Hg & Hin).
  simpl in Hg. subst g. exists k. split; [|exact Hin].
  rewrite Forall_forall in Hall. exact (Hall _ Hin).
Qed.

Lemma insert_desc_length (x : Date.t * string) (l : list (Date.t * string)) :
  List.length (insert_desc x l) = S (List.length l).
Proof.
  induction l as [|y l IH]; [reflexivity|]. simpl.
  destruct (Date.ltb (fst x) (fst y)); simpl; [now rewrite IH | reflexivity].
Qed.

Lemma sort_desc_length (l : list (Date.t * string)) :
  List.length (sort_desc l) = List.length l.
Proof.
  induction l as [|x l IH]; [reflexivity|].
  simpl. now rewrite insert_desc_length, IH.
Qed.

Lemma sorted_log_files_length (fs sorted : list string) :
  sorted_log_files fs = Ok sorted -> List.length sorted = List.length fs.
Proof.
  unfold sorted_log_files. destruct (keyed fs) as [ks|e] eqn:Hks; [|discriminate].
  cbn [rbind]. intros [= <-]. destruct (keyed_ok _ _ Hks) as [<- _].
  now rewrite !length_map, sort_desc_length.
Qed.

(** The part of [get_newest_log] after the listing never raises. *)
Lemma newest_of_returns (E : env) (st : state E) (all_files : list string)
      (log_prefix : string) :
  exists r, outcome (run E (newest_of all_files log_prefix) st) = Ok r.
Proof.
  unfold newest_of.
  destruct (is_nil (log_files all_files log_prefix)) eqn:Hnil;
    [now exists None|].
  destruct (sorted_log_files (log_files all_files log_prefix)) as [sorted|e]
    eqn:Hs; [|now exists None].
  apply sorted_log_files_length in Hs.
  destruct sorted as [|newest rest].
  - destruct (log_files all_files log_prefix); discriminate.
  - now exists (Some newest).
Qed.

(** X3: a name that [get_newest_log] returns is one of the listed names,
    starts with the prefix, matches the rotation pattern and carries a
    date that parses. *)
Theorem get_newest_log_returns_listed
        (E : env) (st : state E) (log_dir log_prefix : string)
        (all_files : list string) (name : string) :
  fst (handle E (listdir log_dir) st) = Ok all_files ->
  outcome (run E (get_newest_log log_dir log_prefix) st) = Ok (Some name) ->
  In name all_files
  /\ startswith name log_prefix = true
  /\ re_match_rotation name = true
  /\ exists k, sort_key name = Ok k.
Proof.
  intros Hls Hout.
  destruct (run_get_newest_log E st log_dir log_prefix all_files Hls) as [H _].
  rewrite H in Hout. clear H. unfold newest_of in Hout.
  destruct (is_nil (log_files all_files log_prefix)); [discriminate|].
  destruct (sorted_log_files (log_files all_files log_prefix)) as [sorted|e]
    eqn:Hs; [|discriminate].
  destruct (index sorted 0) as [newest|e] eqn:Hi; [|discriminate].
  simpl in Hout. injection Hout as ->.
  apply index_In in Hi. pose proof (sorted_log_files_In _ _ _ Hs Hi) as Hin.
  pose proof Hin as Hf. unfold log_files in Hf. apply filter_In in Hf as [Hl Hf].
  apply andb_prop in Hf as [Hp Hm]. repeat split; auto.
  unfold sorted_log_files in Hs.
  destruct (keyed (log_files all_files log_prefix)) as [ks|e] eqn:Hks;
    [|discriminate].
  destruct (keyed_key _ _ _ Hks Hin) as (k & Hk & _). now exists k.
Qed.

Lemma get_newest_log_returns_listed_witness :
  In "klippy.log.2024-03-15" (log_listing standard)
  /\ startswith "klippy.log.2024-03-15" "klippy.log" = true
  /\ re_match_rotation "klippy.log.2024-03-15" = true
  /\ exists k, sort_key "klippy.log.2024-03-15" = Ok k.
Proof.
  refine (get_newest_log_returns_listed (scenario_env standard) 0
            "/home/pi/printer_data/logs" "klippy.log" (log_listing standard)
            "klippy.log.2024-03-15" _ _); reflexivity.
Defined.

(** X4: [get_newest_log] raises only what [os.listdir] raised: a name
    that does not parse is reported on the console and swallowed, and the
    access to the first sorted name is always in range. *)
Theorem get_newest_log_raises_only_from_listdir
        (E : env) (st : state E) (log_dir log_prefix : string) (e : exn) :
  outcome (run E (get_newest_log log_dir log_prefix) st) = Raised e ->
  fst (handle E (listdir log_dir) st) = Raised e.
Proof.
  intros Hout. destruct (fst (handle E (listdir log_dir) st)) as [all_files|e']
    eqn:Hls.
  - destruct (run_get_newest_log E st log_dir log_prefix all_files Hls) as [H _].
    rewrite H in Hout.
    destruct (newest_of_returns E (snd (handle E (listdir log_dir) st))
                all_files log_prefix) as [r Hr].
    congruence.
  - unfold get_newest_log in Hout. simpl in Hout.
    destruct (handle E (listdir log_dir) st) as [r st']. simpl in *. subst r.
    simpl in Hout. now injection Hout as ->.
Qed.

Lemma get_newest_log_raises_only_from_listdir_witness :
  fst (handle unlistable (listdir "/home/pi/printer_data/logs") 0)
  = Raised (FileNotFoundError
              "[Errno 2] No such file or directory: '/home/pi/printer_data/logs'").
Proof.
  refine (get_newest_log_raises_only_from_listdir unlistable 0
            "/home/pi/printer_data/logs" "klippy.log" _ _).
  reflexivity.
Defined.

Lemma rotation_suffix_contains (s : string) :
  rotation_suffix s = true -> contains ".log." s = true.
Proof.
  unfold rotation_suffix. intros H. apply andb_prop in H as [H _].
  now apply prefix_contains.
Qed.

Lemma re_match_rotation_contains (s : string) :
  re_match_rotation s = true -> contains ".log." s = true.
Proof.
  induction s as [|c s IH]; intros H; cbn [re_match_rotation] in H.
  - rewrite orb_false_r in H. now apply rotation_suffix_contains.
  - apply orb_prop in H as [H | H]; [now apply rotation_suffix_contains|].
    apply andb_prop in H as [_ H]. cbn [contains]. rewrite (IH H).
    apply orb_true_r.
Qed.

Lemma split_from_present (sep s : string) :
  contains sep s = true -> sep <> "" ->
  exists h d t, split_from sep 0 s = (h, d :: t).
Proof.
  intros H Hsep. induction s as [|c s IH].
  - simpl in H. destruct sep; [congruence | discriminate].
  - cbn [split_from]. destruct (prefix sep (String c s)) eqn:Hp.
    + destruct (split_from sep (length sep - 1) s) as [h t]. now exists "", h, t.
    + cbn [contains] in H. rewrite Hp in H. simpl in H.
      destruct (IH H) as (h & d & t & ->). now exists (String c h), d, t.
Qed.

(** X5: a name that matches the rotation pattern has a piece after its
    first [.log.], so the index access of the sort key is always in range
    and the key fails only when [strptime] rejects that piece. *)
Theorem rotation_has_date_piece (f : string) :
  re_match_rotation f = true ->
  exists d, nth_error (split ".log." f) 1 = Some d
            /\ sort_key f = Date.strptime d.
Proof.
  intros H. apply re_match_rotation_contains in H.
  destruct (split_from_present _ _ H) as (h & d & t & Hs); [discriminate|].
  exists d. unfold sort_key, index, split. rewrite Hs. now split.
Qed.

Lemma rotation_has_date_piece_witness :
  exists d, nth_error (split ".log." "klippy.log.bak.log.2024-03-15") 1 = Some d
            /\ sort_key "klippy.log.bak.log.2024-03-15" = Date.strptime d.
Proof.
  refine (rotation_has_date_piece "klippy.log.bak.log.2024-03-15" _).
  reflexivity.
Defined.

(** *** The whole sort *)

Lemma insert_desc_perm (x : Date.t * string) (l : list (Date.t * string)) :
  Permutation (x :: l) (insert_desc x l).
Proof.
  induction l as [|y l IH]; [reflexivity|]. simpl.
  destruct (Date.ltb (fst x) (fst y)); [|reflexivity].
  rewrite perm_swap. now constructor.
Qed.

Lemma sort_desc_perm (l : list (Date.t * string)) : Permutation l (sort_desc l).
Proof.
  induction l as [|x l IH]; [constructor|]. simpl.
  rewrite <- insert_desc_perm. now constructor.
Qed.

Lemma insert_desc_sorted (x : Date.t * string) (l : list (Date.t * string)) :
  StronglySorted not_older l -> StronglySorted not_older (insert_desc x l).
Proof.
  induction 1 as [|y l Hl IH Hy]; simpl.
  - repeat constructor.
  - destruct (Date.ltb (fst x) (fst y)) eqn:Hxy.
    + constructor; [exact IH|].
      rewrite Forall_forall in *. intros z Hz.
      apply insert_desc_In in Hz as [-> | Hz]; [|now apply Hy].
      now apply date_ltb_asym.
    + constructor; [now constructor|].
      constructor; [exact Hxy|].
      rewrite Forall_forall in *. intros z Hz.
      apply date_not_ltb_trans with (x := fst y); [exact Hxy | now apply Hy].
Qed.

Lemma sort_desc_sorted (l : list (Date.t * string)) :
  StronglySorted not_older (sort_desc l).
Proof.
  induction l as [|x l IH]; [constructor|]. simpl. now apply insert_desc_sorted.
Qed.

Lemma sorted_names (ks : list (Date.t * string)) :
  Forall (fun kf => sort_key (snd kf) = Ok (fst kf)) ks ->
  StronglySorted not_older ks ->
  StronglySorted not_older_name (map snd ks).
Proof.
  intros Hkeys. induction 1 as [|x l Hl IH Hx]; [constructor|].
  apply Forall_cons_iff in Hkeys as [Hkx Hkl]. simpl. constructor; [now apply IH|].
  rewrite Forall_forall in *. intros g Hg.
  apply in_map_iff in Hg as (y & <- & Hy).
  intros kf kg Hf Hgk. specialize (Hx y Hy). unfold not_older in Hx.
  rewrite Hkx in Hf. rewrite (Hkl y Hy) in Hgk. congruence.
Qed.

(** X6: when every key parses, the sort of lines 56-59 returns the same
    names, rearranged so that no name comes before one with a more recent
    date. *)
Theorem sorted_log_files_sorts (fs sorted : list string) :
  sorted_log_files fs = Ok sorted ->
  Permutation fs sorted /\ StronglySorted not_older_name sorted.
Proof.
  unfold sorted_log_files. destruct (keyed fs) as [ks|e] eqn:Hks; [|discriminate].
  cbn [rbind]. intros [= <-]. destruct (keyed_ok _ _ Hks) as [Hmap Hkeys].
  split.
  - rewrite <- Hmap. apply Permutation_map, sort_desc_perm.
  - apply sorted_names; [|apply sort_desc_sorted].
    rewrite Forall_forall in *. intros kf Hin. apply Hkeys.
    eapply Permutation_in; [symmetry; apply sort_desc_perm | exact Hin].
Qed.

Lemma sorted_log_files_sorts_witness :
  Permutation ["klippy.log.2024-01-01"; "klippy.log.2024-03-15";
               "klippy.log.2023-12-31"]
              ["klippy.log.2024-03-15"; "klippy.log.2024-01-01";
               "klippy.log.2023-12-31"]
  /\ StronglySorted not_older_name
       ["klippy.log.2024-03-15"; "klippy.log.2024-01-01";
        "klippy.log.2023-12-31"].
Proof.
  refine (sorted_log_files_sorts _ _ _). reflexivity.
Defined.

(** ** Dated names *)

Lemma digit_char_digit (n : nat) :
  (n < 10)%nat ->
  Date.is_digit (digit_char n) = true /\ Date.digit (digit_char n) = n.
Proof.
  intros H. do 10 (destruct n as [|n]; [split; reflexivity|]). lia.
Qed.

Lemma is_digit_not_dot (c : ascii) :
  Date.is_digit c = true -> Ascii.eqb "." c = false.
Proof.
  intros H. apply Ascii.eqb_neq. intros <-. discriminate H.
Qed.

Lemma match_Y_four_digits (y : nat) (r : string) :
  (y < 10 * 1000)%nat -> Date.match_Y (four_digits y ++ r) = Some (y, r).
Proof.
  intros Hy. unfold four_digits. cbn [append Date.match_Y].
  assert (H1 : (y / 1000 < 10)%nat) by (apply Nat.Div0.div_lt_upper_bound; lia).
  assert (H2 : (y / 100 mod 10 < 10)%nat) by (apply Nat.mod_upper_bound; lia).
  assert (H3 : (y / 10 mod 10 < 10)%nat) by (apply Nat.mod_upper_bound; lia).
  assert (H4 : (y mod 10 < 10)%nat) by (apply Nat.mod_upper_bound; lia).
  destruct (digit_char_digit _ H1) as [-> ->].
  destruct (digit_char_digit _ H2) as [-> ->].
  destruct (digit_char_digit _ H3) as [-> ->].
  destruct (digit_char_digit _ H4) as [-> ->].
  cbn [andb]. do 2 f_equal.
  assert (E1 : (y / 100 = y / 10 / 10)%nat) by now rewrite Nat.Div0.div_div.
  assert (E2 : (y / 1000 = y / 100 / 10)%nat)
    by now rewrite E1, !Nat.Div0.div_div.
  pose proof (Nat.div_mod_eq y 10).
  pose proof (Nat.div_mod_eq (y / 10) 10).
  pose proof (Nat.div_mod_eq (y / 100) 10).
  lia.
Qed.

Lemma match_m_two_digits (m : nat) (r : string) :
  (1 <= m <= 12)%nat -> exists l, Date.match_m (two_digits m ++ r) = (m, r) :: l.
Proof.
  intros H. do 13 (destruct m as [|m]; [try lia; eexists; reflexivity|]). lia.
Qed.

Lemma match_d_two_digits (d : nat) (r : string) :
  (1 <= d <= 31)%nat -> exists l, Date.match_d (two_digits d ++ r) = (d, r) :: l.
Proof.
  intros H. do 32 (destruct d as [|d]; [try lia; eexists; reflexivity|]). lia.
Qed.

Lemma days_in_month_le (y m : nat) : (Date.days_in_month y m <= 31)%nat.
Proof.
  unfold Date.days_in_month.
  do 12 (destruct m as [|m]; [try destruct (Date.is_leap y); lia|]). lia.
Qed.

Lemma valid_date_bounds (d : Date.t) :
  valid_date d = true ->
  (1 <= Date.year d < 10 * 1000 /\ 1 <= Date.month d <= 12
   /\ 1 <= Date.day d <= Date.days_in_month (Date.year d) (Date.month d))%nat.
Proof.
  unfold valid_date. rewrite !andb_true_iff, !Nat.leb_le, Nat.ltb_lt. tauto.
Qed.

Lemma regex_match_isoformat (d : Date.t) :
  valid_date d = true ->
  Date.regex_match (isoformat d)
  = Some (Date.year d, Date.month d, Date.day d, "").
Proof.
  intros Hv. apply valid_date_bounds in Hv as (Hy & Hm & Hd).
  pose proof (days_in_month_le (Date.year d) (Date.month d)) as Hle.
  unfold isoformat, Date.regex_match.
  rewrite match_Y_four_digits by lia.
  change ("-" ++ two_digits (Date.month d) ++ "-" ++ two_digits (Date.day d))
    with (String "-" (two_digits (Date.month d)
                      ++ String "-" (two_digits (Date.day d) ++ ""))).
  cbn [Date.expect Date.is_char Ascii.eqb Bool.eqb].
  destruct (match_m_two_digits (Date.month d)
              (String "-" (two_digits (Date.day d) ++ "")) Hm) as [l ->].
  cbn [Date.first_match snd fst Date.expect Date.is_char Ascii.eqb Bool.eqb].
  destruct (match_d_two_digits (Date.day d) "") as [l' ->]; [lia|].
  reflexivity.
Qed.

(** Parsing what [isoformat] wrote gives the date back. *)
Lemma strptime_isoformat (d : Date.t) :
  valid_date d = true -> Date.strptime (isoformat d) = Ok d.
Proof.
  intros Hv. unfold Date.strptime. rewrite regex_match_isoformat by exact Hv.
  apply valid_date_bounds in Hv as (Hy & Hm & Hd).
  cbn [is_empty]. unfold Date.make.
  replace (Date.year d <? 1)%nat with false by (symmetry; apply Nat.ltb_ge; lia).
  replace ((1 <=? Date.month d) && (Date.month d <=? 12))%nat with true
    by (symmetry; apply andb_true_iff; rewrite !Nat.leb_le; lia).
  replace ((1 <=? Date.day d)
           && (Date.day d <=? Date.days_in_month (Date.year d) (Date.month d)))%nat
    with true by (symmetry; apply andb_true_iff; rewrite !Nat.leb_le; lia).
  cbn [negb]. now destruct d.
Qed.

Lemma date_shape_isoformat (d : Date.t) :
  valid_date d = true -> date_shape (isoformat d) = true.
Proof.
  intros Hv. apply valid_date_bounds in Hv as (Hy & Hm & Hd).
  pose proof (days_in_month_le (Date.year d) (Date.month d)) as Hle.
  unfold isoformat, four_digits, two_digits, date_shape.
  cbn [append list_ascii_of_string].
  assert (H1 : (Date.year d / 1000 < 10)%nat)
    by (apply Nat.Div0.div_lt_upper_bound; lia).
  assert (H5 : (Date.month d / 10 < 10)%nat)
    by (apply Nat.Div0.div_lt_upper_bound; lia).
  assert (H6 : (Date.day d / 10 < 10)%nat)
    by (apply Nat.Div0.div_lt_upper_bound; lia).
  rewrite (proj1 (digit_char_digit _ H1)), (proj1 (digit_char_digit _ H5)),
    (proj1 (digit_char_digit _ H6)).
  rewrite !(fun n => proj1 (digit_char_digit (n mod 10)
                              (Nat.mod_upper_bound n 10 ltac:(lia)))).
  reflexivity.
Qed.

Lemma date_shape_without_dot (s : string) :
  date_shape s = true -> all_chars (fun c => negb (Ascii.eqb "." c)) s = true.
Proof.
  unfold date_shape.
  do 11 (destruct s as [|? s]; cbn [list_ascii_of_string]; try discriminate).
  intros H. rewrite !andb_true_iff in H. decompose [and] H. clear H.
  cbn [all_chars].
  repeat match goal with
         | Hd : Date.is_digit ?c = true |- _ =>
             rewrite (is_digit_not_dot c Hd); clear Hd
         | Hh : Ascii.eqb ?c "-" = true |- _ =>
             apply Ascii.eqb_eq in Hh; subst c
         end.
  reflexivity.
Qed.

Lemma contains_first_char (c : ascii) (m s : string) :
  all_chars (fun x => negb (Ascii.eqb c x)) s = true ->
  contains (String c m) s = false.
Proof.
  induction s as [|x s IH]; [reflexivity|].
  cbn [all_chars contains]. intros H. apply andb_prop in H as [Hx Hs].
  rewrite prefix_cons, (IH Hs). apply negb_true_iff in Hx. now rewrite Hx.
Qed.

Lemma split_stem (stem rest : string) :
  contains "." stem = false ->
  contains ".log." rest = false ->
  split ".log." (stem ++ ".log." ++ rest) = [stem; rest].
Proof.
  intros Hstem Hrest. unfold split.
  assert (H : split_from ".log." 0 (stem ++ ".log." ++ rest) = (stem, [rest])).
  { induction stem as [|c stem IH].
    - pose proof (prefix_append ".log." rest) as Hp.
      cbn [append] in Hp |- *. cbn [split_from]. rewrite Hp.
      cbn [length Nat.sub split_from].
      now rewrite (split_from_absent _ _ Hrest).
    - rewrite contains_char_cons in Hstem.
      apply orb_false_elim in Hstem as [Hc Hstem].
      change (String c stem ++ ".log." ++ rest)
        with (String c (stem ++ ".log." ++ rest)).
      cbn [split_from]. rewrite prefix_cons, Hc. cbn [andb].
      now rewrite (IH Hstem). }
  now rewrite H.
Qed.

Lemma re_match_rotation_stem (stem date : string) :
  contains nl stem = false ->
  date_shape date = true ->
  re_match_rotation (stem ++ ".log." ++ date) = true.
Proof.
  intros Hstem Hdate. induction stem as [|c stem IH].
  - assert (H : rotation_suffix (".log." ++ date) = true).
    { unfold rotation_suffix. rewrite prefix_append.
      change (drop 5 (".log." ++ date)) with date. now rewrite Hdate. }
    cbn [append] in *. destruct date; cbn [re_match_rotation]; now rewrite H.
  - unfold nl in Hstem. rewrite contains_char_cons in Hstem.
    apply orb_false_elim in Hstem as [Hc Hstem].
    change (String c stem ++ ".log." ++ date)
      with (String c (stem ++ ".log." ++ date)).
    cbn [re_match_rotation]. rewrite (IH Hstem).
    rewrite Ascii.eqb_sym, Hc. apply orb_true_r.
Qed.

(** X7: a valid date written as [YYYY-MM-DD] parses back to itself, and a
    name made of a stem without dot or line feed, [.log.] and such a date
    matches the rotation pattern and has that date as its sort key. *)
Theorem dated_rotation_is_recognised (stem : string) (d : Date.t) :
  valid_date d = true ->
  contains "." stem = false ->
  contains nl stem = false ->
  Date.strptime (isoformat d) = Ok d
  /\ re_match_rotation (stem ++ ".log." ++ isoformat d) = true
  /\ sort_key (stem ++ ".log." ++ isoformat d) = Ok d.
Proof.
  intros Hv Hdot Hnl. split; [now apply strptime_isoformat | split].
  - apply re_match_rotation_stem; [exact Hnl | now apply date_shape_isoformat].
  - unfold sort_key. rewrite split_stem; [| exact Hdot |].
    + cbn [index nth_error rbind]. now apply strptime_isoformat.
    + apply contains_first_char, date_shape_without_dot.
      now apply date_shape_isoformat.
Qed.

Lemma dated_rotation_is_recognised_witness :
  Date.strptime (isoformat (Date.mk 2024 3 15)) = Ok (Date.mk 2024 3 15)
  /\ re_match_rotation ("klippy" ++ ".log." ++ isoformat (Date.mk 2024 3 15))
     = true
  /\ sort_key ("klippy" ++ ".log." ++ isoformat (Date.mk 2024 3 15))
     = Ok (Date.mk 2024 3 15).
Proof.
  refine (dated_rotation_is_recognised "klippy" (Date.mk 2024 3 15) _ _ _);
    reflexivity.
Defined.

(** ** The outcome of the Locator and the final placement *)

(** *** Runs of a sequence *)

Lemma run_bind_raised (E : env) {A B} (p : prog A) (f : A -> prog B)
      (st : state E) (e : exn) :
  outcome (run E p st) = Raised e ->
  outcome (run E (bind p f) st) = Raised e
  /\ trace (run E (bind p f) st) = trace (run E p st).
Proof.
  revert st; induction p as [a|e0|o k IH|s k IH]; intros st H; simpl in *.
  - discriminate.
  - injection H as ->. now split.
  - destruct (handle E o st) as [r st']. simpl in *.
    destruct (IH r st' H) as [H1 H2]. split; [exact H1 | now rewrite H2].
  - destruct (IH st H) as [H1 H2]. split; [exact H1 | now rewrite H2].
Qed.

(** What holds of the trace of the last stage of a sequence that
    succeeded holds of the whole trace, when earlier events do not
    disturb it. *)
Lemma wp_bind_last {A B} (S : list event -> Prop) (p : prog A) (f : A -> prog B) :
  (forall tr tr', S tr' -> S (tr ++ tr')%list) ->
  (forall a, wp (f a) (fun out tr => (exists b, out = Ok b) -> S tr)) ->
  wp (bind p f) (fun out tr => (exists b, out = Ok b) -> S tr).
Proof.
  intros Hmono Hf. apply wp_bind. eapply wp_mono; [| apply wp_true].
  intros [a|e] tr _.
  - eapply wp_mono; [| exact (Hf a)]. intros out tr' H Hout.
    apply Hmono. now apply H.
  - intros [b Hb]. discriminate Hb.
Qed.

Ltac in_trace :=
  let H := fresh in
  intros H; cbn [map found lines_read line_read In] in H;
  repeat (destruct H as [H | H]; try discriminate H); try contradiction.

(** *** Why the Locator fails *)

Lemma locate_outcome :
  wp locate (fun out tr =>
    (forall path, In (Some (path, false)) (map found tr) ->
       out = Raised (FileNotFoundError (path ++ " does not exist.")))
    /\ (forall lines e, In (Some lines) (map lines_read tr) ->
          environment_file_path lines = Raised e -> out = Raised e)
    /\ (forall paths, out = Ok paths ->
          exists line, In (Some line) (map line_read tr)
                       /\ klipper_paths line = Ok paths)).
Proof.
  unfold locate, check_klipper_service, read_klipper_service,
    check_environment_file, read_environment_file, status_message,
    step_message, print, call.
  cbn [bind wp response negb].
  intros [[|]|e]; cbn [bind wp response negb].
  2,3: (split; [| split]; [intros ?; in_trace; try injection H as <-; reflexivity
                          | intros ? ?; in_trace | discriminate]).
  intros [lines|e]; cbn [bind wp response negb].
  2: (split; [| split]; [intros ?; in_trace | intros ? ?; in_trace | discriminate]).
  destruct (environment_file_path lines) as [path|e] eqn:Hpath;
    cbn [lift bind wp response negb].
  2: { split; [| split]; [intros ?; in_trace | | discriminate].
       intros ? ?; in_trace. injection H as <-. congruence. }
  intros [[|]|e]; cbn [bind wp response negb].
  2,3: (split; [| split];
        [ intros ?; in_trace; try injection H as <-; reflexivity
        | intros ? ?; in_trace; injection H as <-; congruence
        | discriminate ]).
  intros [first_line|e]; cbn [bind wp response negb].
  2: (split; [| split];
      [ intros ?; in_trace
      | intros ? ?; in_trace; injection H as <-; congruence
      | discriminate ]).
  destruct (klipper_paths first_line) as [paths|e] eqn:Hp;
    cbn [lift bind wp response negb].
  - split; [| split];
      [ intros ?; in_trace
      | intros ? ?; in_trace; injection H as <-; congruence | ].
    intros ? [= <-]. exists first_line. split; [|exact Hp].
    cbn [map line_read In]. find_line.
  - split; [| split];
      [ intros ?; in_trace
      | intros ? ?; in_trace; injection H as <-; congruence
      | discriminate ].
Qed.

Lemma found_In (tr : list event) (path : string) (b : bool) :
  In (Called (path_exists path) (Ok b)) tr -> In (Some (path, b)) (map found tr).
Proof. intros H. exact (in_map found _ _ H). Qed.

Lemma lines_read_In (tr : list event) (path : string) (lines : list string) :
  In (Called (readlines path) (Ok lines)) tr ->
  In (Some lines) (map lines_read tr).
Proof. intros H. exact (in_map lines_read _ _ H). Qed.

(** A run that fails in the Locator ends there: the handler prints the
    message and nothing was changed. *)
Lemma main_after_locate_error (E : env) (st : state E) (e : exn) :
  outcome (run E locate st) = Raised e ->
  outcome (run E main_body st) = Raised e
  /\ trace (run E main st)
     = (trace (run E locate st) ++ [Printed (fail_line (str_of_exn e))])%list
  /\ Forall (fun ev => harmless ev = true) (trace (run E main st)).
Proof.
  intros Hout.
  destruct (run_bind_raised E locate
              (fun paths =>
                 (base_path <- determine_base_path "printer.cfg"
                                 "Printer config path: " (fst paths) ;;
                  base_path_log <- determine_base_path "log file"
                                     "Log file path: " (snd paths) ;;
                  collect (fst paths) (snd paths) ;;
                  compress_support_folder ;;
                  final_message base_path)%prog) st e Hout) as [H1 H2].
  change (outcome (run E main_body st) = Raised e) in H1.
  change (trace (run E main_body st) = trace (run E locate st)) in H2.
  destruct (main_after_error E st e H1) as (_ & H3 & _).
  rewrite H2 in H3. split; [exact H1 | split; [exact H3 |]].
  rewrite H3. apply Forall_app. split; [| repeat constructor].
  exact (wp_sound _ _ locate_harmless E st).
Qed.

(** X8: when an existence test of the Locator answers no (the service
    definition or the environment file is missing), the run raises
    [FileNotFoundError] naming that path; the handler prints it as the
    last line, right after the events of the Locator, and nothing was
    created, copied, removed or started. *)
Theorem missing_file_aborts (E : env) (st : state E) (path : string) :
  In (Called (path_exists path) (Ok false)) (trace (run E locate st)) ->
  outcome (run E main_body st)
  = Raised (FileNotFoundError (path ++ " does not exist."))
  /\ trace (run E main st)
     = (trace (run E locate st)
        ++ [Printed (fail_line (path ++ " does not exist."))])%list
  /\ Forall (fun ev => harmless ev = true) (trace (run E main st)).
Proof.
  intros Hin. apply found_In in Hin.
  destruct (wp_sound _ _ locate_outcome E st) as (Hmiss & _ & _).
  exact (main_after_locate_error E st _ (Hmiss path Hin)).
Qed.

Lemma missing_file_aborts_witness :
  trace (run (scenario_env without_service) main 0)
  = (trace (run (scenario_env without_service) locate 0)
     ++ [Printed (fail_line ("/etc/systemd/system/klipper.service"
                             ++ " does not exist."))])%list.
Proof.
  refine (proj1 (proj2 (missing_file_aborts (scenario_env without_service) 0
                          "/etc/systemd/system/klipper.service" _))).
  vm_compute. find_line.
Defined.

(** X9: when no line of the service definition starts with
    [EnvironmentFile], the run raises [ValueError] with the text of line
    83; the handler prints it as the last line, and nothing was created,
    copied, removed or started. *)
Theorem service_without_environment_file_aborts
        (E : env) (st : state E) (path : string) (lines : list string) :
  In (Called (readlines path) (Ok lines)) (trace (run E locate st)) ->
  forallb (fun line => negb (startswith line "EnvironmentFile")) lines = true ->
  outcome (run E main_body st)
  = Raised (ValueError "EnvironmentFile not found in klipper.service.")
  /\ trace (run E main st)
     = (trace (run E locate st)
        ++ [Printed (fail_line "EnvironmentFile not found in klipper.service.")])%list
  /\ Forall (fun ev => harmless ev = true) (trace (run E main st)).
Proof.
  intros Hin Hnone. apply lines_read_In in Hin.
  destruct (wp_sound _ _ locate_outcome E st) as (_ & Hbad & _).
  refine (main_after_locate_error E st _ (Hbad lines _ Hin _)).
  unfold environment_file_path, environment_file_line.
  replace (filter (fun line => startswith line "EnvironmentFile") lines)
    with (@nil string); [reflexivity|].
  symmetry. clear Hin. induction lines as [|l lines IH]; [reflexivity|].
  cbn [forallb filter] in *. apply andb_prop in Hnone as [Hl Hrest].
  apply negb_true_iff in Hl. rewrite Hl. now apply IH.
Qed.

Lemma service_without_environment_file_aborts_witness :
  outcome (run (scenario_env (with_service_lines ["[Service]"; "ExecStart=x"]))
               main_body 0)
  = Raised (ValueError "EnvironmentFile not found in klipper.service.").
Proof.
  refine (proj1 (service_without_environment_file_aborts
                   (scenario_env (with_service_lines ["[Service]"; "ExecStart=x"]))
                   0 "/etc/systemd/system/klipper.service"
                   ["[Service]"; "ExecStart=x"] _ _)).
  - vm_compute. find_line.
  - reflexivity.
Defined.

(** *** The final placement *)

Lemma rstrip_last (p : ascii -> bool) (s : string) :
  holds_at p (last_char s) = true -> rstrip p s <> s.
Proof.
  induction s as [|c s IH]; [discriminate|].
  cbn [last_char rstrip].
  destruct (last_char s) as [d|] eqn:Hl.
  - intros H. specialize (IH H).
    destruct (is_empty (rstrip p s) && p c); [discriminate|].
    intros [= Heq]. now apply IH.
  - destruct s as [|x s].
    + cbn [holds_at rstrip is_empty andb]. intros ->. discriminate.
    + cbn [last_char] in Hl. destruct (last_char s); discriminate.
Qed.

Lemma endswith_char_last (c : ascii) (s : string) :
  endswith_char c s = holds_at (Ascii.eqb c) (last_char s).
Proof.
  unfold endswith_char.
  destruct (holds_at (Ascii.eqb c) (last_char s)) eqn:H.
  - apply negb_true_iff, String.eqb_neq. now apply rstrip_last.
  - apply negb_false_iff, String.eqb_eq.
    destruct s as [|x s]; [reflexivity|].
    apply rstrip_nonempty.
    destruct (last_char (String x s)) as [d|] eqn:Hl.
    + cbn [holds_at] in *. now rewrite H.
    + cbn [last_char] in Hl. destruct (last_char s); discriminate.
Qed.

Lemma is_empty_append (a b : string) :
  b <> "" -> is_empty (a ++ b) = false.
Proof. intros Hb. destruct a, b; try reflexivity. congruence. Qed.

(** Joining [logs] and a relative name to a derived base path only
    appends them. *)
Lemma join3_logs (p name : string) :
  contains "printer_data" p = true ->
  startswith name "/" = false ->
  Path.join3 (derive_base_path p) "logs" name
  = before "printer_data" p ++ "printer_data/logs/" ++ name.
Proof.
  intros Hc Hn. unfold derive_base_path. rewrite Hc, hd_split.
  unfold Path.join3.
  assert (H1 : Path.join (before "printer_data" p ++ "printer_data/") "logs"
               = before "printer_data" p ++ "printer_data/logs").
  { unfold Path.join. change (startswith "logs" "/") with false. cbv iota.
    rewrite endswith_char_last, last_char_append by discriminate.
    cbn [last_char holds_at]. rewrite orb_true_r.
    rewrite append_assoc. reflexivity. }
  rewrite H1. unfold Path.join. rewrite Hn.
  rewrite is_empty_append by discriminate.
  rewrite endswith_char_last, last_char_append by discriminate.
  cbn [last_char holds_at orb]. change ("/" =? "s")%char with false. cbv iota.
  rewrite !append_assoc. reflexivity.
Qed.

Lemma derive_base_path_marker (p : string) :
  contains "printer_data" (derive_base_path p) = contains "printer_data" p.
Proof.
  unfold derive_base_path. destruct (contains "printer_data" p) eqn:Hc.
  - change "printer_data/" with ("printer_data" ++ "/"). apply contains_append.
  - exact Hc.
Qed.

Lemma placed_app_l (dst ts : string) (tr tr' : list event) :
  placed dst ts tr' -> placed dst ts (tr ++ tr')%list.
Proof.
  unfold placed. rewrite !map_app, !in_app_iff. tauto.
Qed.

Lemma final_message_places (cfg : string) :
  wp (final_message (derive_base_path cfg)) (fun out tr =>
    (exists b, out = Ok b) -> exists ts, placed (final_place cfg ts) ts tr).
Proof.
  unfold final_message, print, call. rewrite derive_base_path_marker.
  cbn [bind wp response].
  intros [ts|e]; cbn [bind wp response]; [| intros [b Hb]; discriminate Hb].
  unfold final_place.
  destruct (contains "printer_data" cfg) eqn:Hc; cbn [bind wp response].
  - rewrite join3_logs by (exact Hc || reflexivity).
    intros [[]|e]; cbn [bind wp response]; [| intros [b Hb]; discriminate Hb].
    intros _. exists ts. unfold placed.
    cbn [map clock_read archive_copied_to printed In].
    change (String.eqb zip_path zip_path) with true. cbv iota.
    repeat split; find_line.
  - intros [[]|e]; cbn [bind wp response]; [| intros [b Hb]; discriminate Hb].
    intros _. exists ts. unfold placed.
    cbn [map clock_read archive_copied_to printed In].
    change (String.eqb zip_path zip_path) with true. cbv iota.
    repeat split; find_line.
Qed.

Lemma determine_base_path_returns (what label path : string) :
  wp (determine_base_path what label path)
     (fun out _ => out = Ok (derive_base_path path)).
Proof.
  unfold determine_base_path, status_message, step_message, print.
  destruct (contains "printer_data" path); reflexivity.
Qed.

Lemma main_body_places :
  wp main_body (fun out tr =>
    (exists b, out = Ok b) ->
    exists line cfg log ts,
      In (Some line) (map line_read tr)
      /\ klipper_paths line = Ok (cfg, log)
      /\ placed (final_place cfg ts) ts tr).
Proof.
  unfold main_body. apply wp_bind.
  eapply wp_mono; [| exact locate_outcome].
  intros [[cfg log]|e] tr (_ & _ & Hok); [| intros [b Hb]; discriminate Hb].
  destruct (Hok _ eq_refl) as (line & Hline & Hpaths).
  cbn [fst snd].
  apply wp_bind. eapply wp_mono; [| apply determine_base_path_returns].
  intros [bp|e] tr1 Hbp; [| discriminate Hbp]. injection Hbp as ->.
  eapply wp_mono.
  2: { apply (wp_bind_last (fun tr => exists ts, placed (final_place cfg ts) ts tr)).
       - intros ? ? [ts H]. exists ts. now apply placed_app_l.
       - intros _. apply wp_bind_last.
         + intros ? ? [ts H]. exists ts. now apply placed_app_l.
         + intros _. apply wp_bind_last.
           * intros ? ? [ts H]. exists ts. now apply placed_app_l.
           * intros _. apply final_message_places. }
  intros out tr2 H Hout. destruct (H Hout) as [ts Hts].
  exists line, cfg, log, ts. split; [| split; [exact Hpaths |]].
  - rewrite map_app, in_app_iff. now left.
  - apply placed_app_l, placed_app_l. exact Hts.
Qed.

(** X10: a run whose [try] block succeeds has copied the archive to its
    final place and named that place on the console.  The place is fixed
    by the config path of the environment file and a reading of the
    clock: under a managed data root it is
    [<root>printer_data/logs/klipper_support_<timestamp>.zip], otherwise
    [/tmp/klipper_support_<timestamp>.zip]. *)
Theorem successful_run_places_archive (E : env) (st : state E) :
  outcome (run E main_body st) = Ok tt ->
  exists line cfg log ts,
    In (Some line) (map line_read (trace (run E main st)))
    /\ klipper_paths line = Ok (cfg, log)
    /\ In (Some ts) (map clock_read (trace (run E main st)))
    /\ In (Some (final_place cfg ts))
          (map archive_copied_to (trace (run E main st)))
    /\ In (Some (created_line (final_place cfg ts)))
          (map printed (trace (run E main st))).
Proof.
  intros Hout.
  destruct (main_after_success E st Hout) as (_ & Htr & _). rewrite Htr.
  destruct (wp_sound _ _ main_body_places E st (ex_intro _ tt Hout))
    as (line & cfg & log & ts & H1 & H2 & H3 & H4 & H5).
  now exists line, cfg, log, ts.
Qed.

Lemma successful_run_places_archive_witness :
  exists line cfg log ts,
    In (Some line) (map line_read (trace (run (scenario_env standard) main 0)))
    /\ klipper_paths line = Ok (cfg, log)
    /\ In (Some ts) (map clock_read (trace (run (scenario_env standard) main 0)))
    /\ In (Some (final_place cfg ts))
          (map archive_copied_to (trace (run (scenario_env standard) main 0)))
    /\ In (Some (created_line (final_place cfg ts)))
          (map printed (trace (run (scenario_env standard) main 0))).
Proof.
  refine (successful_run_places_archive (scenario_env standard) 0 _).
  vm_compute. reflexivity.
Defined.

(** ** The scratch directory is reset before it is used *)

Lemma scratch_reset_app_r (tr tr' : list event) :
  scratch_reset tr -> scratch_reset (tr ++ tr')%list.
Proof. unfold scratch_reset. rewrite !in_app_iff. tauto. Qed.

Lemma scratch_reset_app_l (tr tr' : list event) :
  scratch_reset tr' -> scratch_reset (tr ++ tr')%list.
Proof. unfold scratch_reset. rewrite !in_app_iff. tauto. Qed.

Lemma reset_before_use_idle (tr : list event) :
  Forall (fun ev => fills ev = false) tr -> reset_before_use tr.
Proof.
  intros H pre ev post -> Hev. rewrite Forall_forall in H.
  rewrite (H ev) in Hev; [discriminate|]. apply in_elt.
Qed.

Lemma reset_before_use_app (tr tr' : list event) :
  reset_before_use tr ->
  (forall pre ev post,
      tr' = (pre ++ ev :: post)%list -> fills ev = true ->
      scratch_reset (tr ++ pre)%list) ->
  reset_before_use (tr ++ tr')%list.
Proof.
  intros Htr Htr' pre ev post Heq Hev.
  apply app_eq_app in Heq as [l [[-> Hl] | [-> Hl]]].
  - destruct l as [|x l]; cbn [app] in Hl.
    + subst tr'. specialize (Htr' [] ev post eq_refl Hev).
      rewrite !app_nil_r in Htr'. exact Htr'.
    + injection Hl as <- ->. exact (Htr pre ev l eq_refl Hev).
  - exact (Htr' l ev post Hl Hev).
Qed.

Lemma reset_before_use_after (tr tr' : list event) :
  reset_before_use tr -> scratch_reset tr -> reset_before_use (tr ++ tr')%list.
Proof.
  intros Htr Hr. apply reset_before_use_app; [exact Htr|].
  intros pre ev post _ _. now apply scratch_reset_app_r.
Qed.

Lemma reset_before_use_then_idle (tr tr' : list event) :
  reset_before_use tr -> Forall (fun ev => fills ev = false) tr' ->
  reset_before_use (tr ++ tr')%list.
Proof.
  intros Htr Hidle. apply reset_before_use_app; [exact Htr|].
  intros pre ev post -> Hev. rewrite Forall_forall in Hidle.
  rewrite (Hidle ev) in Hev; [discriminate | apply in_elt].
Qed.

Lemma reset_before_use_idle_then (tr tr' : list event) :
  Forall (fun ev => fills ev = false) tr -> reset_before_use tr' ->
  reset_before_use (tr ++ tr')%list.
Proof.
  intros Hidle Htr'. apply reset_before_use_app.
  - now apply reset_before_use_idle.
  - intros pre ev post Heq Hev. apply scratch_reset_app_l.
    exact (Htr' pre ev post Heq Hev).
Qed.

(** Once a stage has reset the scratch directory, whatever follows keeps
    the order. *)
Lemma resets_bind {A B} (p : prog A) (f : A -> prog B) :
  wp p resets -> wp (bind p f) resets.
Proof.
  intros Hp. apply wp_bind. eapply wp_mono; [| exact Hp].
  intros [a|e] tr [Htr Hok].
  - specialize (Hok (ex_intro _ a eq_refl)).
    eapply wp_mono; [| apply wp_true]. intros out tr' _. split.
    + now apply reset_before_use_after.
    + intros _. now apply scratch_reset_app_r.
  - split; [exact Htr|]. intros [b Hb]. discriminate Hb.
Qed.

Lemma idle_bind {A B} (p : prog A) (f : A -> prog B) :
  wp p (always (fun ev => fills ev = false)) ->
  (forall a, wp (f a) resets) -> wp (bind p f) resets.
Proof.
  intros Hp Hf. apply wp_bind. eapply wp_mono; [| exact Hp].
  intros [a|e] tr Hidle.
  - eapply wp_mono; [| exact (Hf a)]. intros out tr' [Htr' Hok]. split.
    + now apply reset_before_use_idle_then.
    + intros Hout. apply scratch_reset_app_l. now apply Hok.
  - split; [now apply reset_before_use_idle|].
    intros [b Hb]. discriminate Hb.
Qed.

Ltac idle_trace := apply reset_before_use_idle; repeat constructor.

Lemma prepare_support_directory_resets : wp prepare_support_directory resets.
Proof.
  unfold prepare_support_directory, ensure_empty_dir, status_message,
    step_message, print, call, resets.
  cbn [bind wp response].
  intros [[|]|e]; cbn [bind wp response].
  - intros [[]|e]; cbn [bind wp response].
    + intros [[]|e]; cbn [bind wp response].
      * split; [idle_trace|]. intros _. split; [find_line | right; find_line].
      * split; [idle_trace|]. intros [b Hb]. discriminate Hb.
    + split; [idle_trace|]. intros [b Hb]. discriminate Hb.
  - intros [[]|e]; cbn [bind wp response].
    + split; [idle_trace|]. intros _. split; [find_line | left; find_line].
    + split; [idle_trace|]. intros [b Hb]. discriminate Hb.
  - split; [idle_trace|]. intros [b Hb]. discriminate Hb.
Qed.

Lemma locate_idle : wp locate (always (fun ev => fills ev = false)).
Proof. always_auto reflexivity. Qed.

Lemma determine_base_path_idle (what label path : string) :
  wp (determine_base_path what label path)
     (always (fun ev => fills ev = false)).
Proof. always_auto reflexivity. Qed.

Lemma main_body_resets : wp main_body resets.
Proof.
  unfold main_body.
  apply idle_bind; [apply locate_idle | intros paths].
  apply idle_bind; [apply determine_base_path_idle | intros base_path].
  apply idle_bind; [apply determine_base_path_idle | intros base_path_log].
  apply resets_bind. unfold collect. apply resets_bind.
  apply prepare_support_directory_resets.
Qed.

(** X11: in every run of [main], whatever is copied, written, started with
    redirected output or archived comes after the scratch directory was
    made, and after it was found absent or removed. *)
Theorem scratch_is_reset_before_use
        (E : env) (st : state E) (pre post : list event) (ev : event) :
  trace (run E main st) = (pre ++ ev :: post)%list ->
  fills ev = true ->
  In (Called (makedirs "/tmp/klipper_support") (Ok tt)) pre
  /\ (In (Called (path_exists "/tmp/klipper_support") (Ok false)) pre
      \/ In (Called (rmtree "/tmp/klipper_support") (Ok tt)) pre).
Proof.
  intros Heq Hev.
  destruct (wp_sound _ _ main_body_resets E st) as [Hbody _].
  assert (H : reset_before_use (trace (run E main st))).
  { destruct (outcome (run E main_body st)) as [[]|e] eqn:Hout.
    - destruct (main_after_success E st Hout) as (_ & -> & _). exact Hbody.
    - destruct (main_after_error E st e Hout) as (_ & -> & _).
      apply reset_before_use_then_idle; [exact Hbody | repeat constructor]. }
  exact (H pre ev post Heq Hev).
Qed.

Lemma scratch_is_reset_before_use_witness :
  In (Called (makedirs "/tmp/klipper_support") (Ok tt))
     (firstn 23 (trace (run (scenario_env standard) main 0)))
  /\ (In (Called (path_exists "/tmp/klipper_support") (Ok false))
         (firstn 23 (trace (run (scenario_env standard) main 0)))
      \/ In (Called (rmtree "/tmp/klipper_support") (Ok tt))
            (firstn 23 (trace (run (scenario_env standard) main 0)))).
Proof.
  refine (scratch_is_reset_before_use (scenario_env standard) 0
            (firstn 23 (trace (run (scenario_env standard) main 0)))
            (skipn 24 (trace (run (scenario_env standard) main 0)))
            (Called (copy "/home/pi/printer_data/logs/klippy.log"
                          "/tmp/klipper_support/klippy.log") (Ok tt)) _ _).
  - vm_compute. reflexivity.
  - reflexivity.
Defined.

(** ** The Collector raises nothing of its own *)

Lemma blames_bind {A B} (p : prog A) (f : A -> prog B) :
  wp p blames -> (forall a, wp (f a) blames) -> wp (bind p f) blames.
Proof.
  intros Hp Hf. apply wp_bind. eapply wp_mono; [| exact Hp].
  intros [a|e] tr Htr.
  - eapply wp_mono; [| exact (Hf a)]. intros out tr' Htr' e He.
    destruct (Htr' e He) as [o Ho]. exists o. apply in_or_app. now right.
  - intros e' [= <-]. exact (Htr e eq_refl).
Qed.

Lemma blames_finally {A} (p : prog A) (q : prog unit) :
  wp p blames -> wp q blames -> wp (finally p q) blames.
Proof.
  intros Hp Hq. apply wp_finally. eapply wp_mono; [| exact Hp].
  intros out tr Htr. eapply wp_mono; [| exact Hq].
  intros [[]|e'] tr' Htr'.
  - intros e He. destruct (Htr e He) as [o Ho]. exists o.
    apply in_or_app. now left.
  - intros e [= <-]. destruct (Htr' e' eq_refl) as [o Ho]. exists o.
    apply in_or_app. now right.
Qed.

Lemma blames_for_each {X} (l : list X) (body : X -> prog unit) :
  (forall x, wp (body x) blames) -> wp (for_each l body) blames.
Proof.
  intros Hb. induction l as [|x l IH]; cbn [for_each].
  - intros e [=].
  - apply blames_bind; auto.
Qed.

Lemma blames_call (o : op) : wp (call o) blames.
Proof.
  intros [x|e]; cbn [wp]; intros e' [=]. subst e'. exists o. now left.
Qed.

Lemma blames_print (line : string) : wp (print line) blames.
Proof. intros e [=]. Qed.

Lemma blames_ret {A} (a : A) : wp (Ret a) blames.
Proof. intros e [=]. Qed.

(** The selection itself never raises: a failure to parse is caught, and
    a sorted non-empty list has a first element. *)
Lemma get_newest_log_blames (log_dir log_prefix : string) :
  wp (get_newest_log log_dir log_prefix) blames.
Proof.
  unfold get_newest_log. apply blames_bind; [apply blames_call|].
  intros all_files. unfold newest_of.
  destruct (is_nil (log_files all_files log_prefix)) eqn:Hnil;
    [apply blames_ret|].
  destruct (sorted_log_files (log_files all_files log_prefix)) as [sorted|e]
    eqn:Hs.
  - apply sorted_log_files_length in Hs.
    destruct sorted as [|newest rest].
    + destruct (log_files all_files log_prefix); discriminate.
    + apply blames_ret.
  - apply blames_bind; [apply blames_print | intros _; apply blames_ret].
Qed.

Ltac blames_step :=
  lazymatch goal with
  | |- wp (get_newest_log _ _) blames => apply get_newest_log_blames
  | |- wp (bind _ _) blames => apply blames_bind; [| intros ?]
  | |- wp (finally _ _) blames => apply blames_finally
  | |- wp (for_each _ _) blames => apply blames_for_each; intros ?
  | |- @wp _ (call ?o) _ => exact (blames_call o)
  | |- wp (print _) blames => apply blames_print
  | |- wp (Ret _) blames => apply blames_ret
  | |- wp (if ?b then _ else _) blames => destruct b
  | |- wp (match ?x with Some _ => _ | None => _ end) blames => destruct x
  end.

Lemma collect_blames (printer_cfg_path log_file_path : string) :
  wp (collect printer_cfg_path log_file_path) blames.
Proof.
  unfold collect, prepare_support_directory, ensure_empty_dir,
    copy_selective_logs, no_archived_log, copy_printer_cfg,
    collect_system_reports, collect_os_information,
    collect_network_information, collect_dmesg_information, with_open_w,
    status_message, step_message.
  repeat blames_step.
Qed.

(** X12: the Collector raises nothing of its own.  When it fails, the
    exception is one that a library call raised: a log that is missing,
    rotation names that do not parse, an empty selection and the exit
    status of a command are no errors. *)
Theorem collector_fails_only_when_a_call_raises
        (E : env) (st : state E) (printer_cfg_path log_file_path : string)
        (e : exn) :
  outcome (run E (collect printer_cfg_path log_file_path) st) = Raised e ->
  exists o,
    In (Called o (Raised e))
       (trace (run E (collect printer_cfg_path log_file_path) st)).
Proof.
  intros Hout.
  exact (wp_sound _ _ (collect_blames printer_cfg_path log_file_path) E st
           e Hout).
Qed.

Lemma collector_fails_only_when_a_call_raises_witness :
  exists o,
    In (Called o (Raised (FileNotFoundError
                            "[Errno 2] No such file or directory: 'ip'")))
       (trace (run (scenario_env (without_commands ["ip"]))
                   (collect "/home/pi/printer_data/config/printer.cfg"
                            "/home/pi/printer_data/logs/klippy.log") 0)).
Proof.
  refine (collector_fails_only_when_a_call_raises
            (scenario_env (without_commands ["ip"])) 0
            "/home/pi/printer_data/config/printer.cfg"
            "/home/pi/printer_data/logs/klippy.log" _ _).
  vm_compute. reflexivity.
Defined.

(** ** The names of the archive entries *)

Lemma plain_name_parts (c : string) :
  plain_name c = true ->
  is_empty c = false /\ contains "/" c = false
  /\ String.eqb c "." = false /\ String.eqb c ".." = false.
Proof.
  unfold plain_name. rewrite !andb_true_iff, !negb_true_iff. tauto.
Qed.

Lemma plain_name_relative (c : string) :
  plain_name c = true -> startswith c "/" = false.
Proof.
  intros H. apply plain_name_parts in H as (_ & H & _).
  unfold startswith. destruct (prefix "/" c) eqn:Hp; [|reflexivity].
  apply prefix_contains in Hp. congruence.
Qed.

Lemma last_char_without (ch : ascii) (c : string) :
  contains (String ch "") c = false ->
  holds_at (Ascii.eqb ch) (last_char c) = false.
Proof.
  induction c as [|x c IH]; [reflexivity|].
  rewrite contains_char_cons. intros H. apply orb_false_elim in H as [Hx Hc].
  cbn [last_char]. specialize (IH Hc).
  destruct (last_char c); [exact IH | exact Hx].
Qed.

Lemma is_empty_nonempty (s : string) : is_empty s = false -> s <> "".
Proof. intros H ->. discriminate H. Qed.

(** Joining a plain name to a directory that does not end in a slash. *)
Lemma join_plain (root c : string) :
  is_empty root = false -> endswith_char "/" root = false ->
  plain_name c = true ->
  Path.join root c = root ++ "/" ++ c.
Proof.
  intros Hr He Hc. unfold Path.join.
  now rewrite (plain_name_relative _ Hc), Hr, He.
Qed.

Lemma below_slashed (root : string) (dirs : list string) :
  is_empty root = false -> endswith_char "/" root = false ->
  forallb plain_name dirs = true ->
  below root dirs = root ++ slashed dirs.
Proof.
  unfold below. revert root. induction dirs as [|c dirs IH]; intros root Hr He Hd.
  - cbn [fold_left slashed]. now rewrite append_empty_r.
  - cbn [forallb] in Hd. apply andb_prop in Hd as [Hc Hd].
    cbn [fold_left slashed]. rewrite (join_plain _ _ Hr He Hc).
    pose proof (plain_name_parts _ Hc) as (Hne & Hsl & _).
    rewrite IH; [now rewrite !append_assoc | | | exact Hd].
    + apply is_empty_append. intros H. destruct c; discriminate.
    + rewrite endswith_char_last.
      rewrite <- append_assoc.
      rewrite last_char_append by now apply is_empty_nonempty.
      now apply last_char_without.
Qed.

Lemma slashed_app (l l' : list string) :
  slashed (l ++ l') = slashed l ++ slashed l'.
Proof.
  induction l as [|c l IH]; [reflexivity|].
  cbn [app slashed]. rewrite IH. cbn [append]. now rewrite !append_assoc.
Qed.

Lemma split_slashed (k : string) (l : list string) :
  contains "/" k = false -> forallb plain_name l = true ->
  split "/" (k ++ slashed l) = k :: l.
Proof.
  revert k. induction l as [|c l IH]; intros k Hk Hl.
  - cbn [slashed]. rewrite append_empty_r. now apply split_absent.
  - cbn [forallb] in Hl. apply andb_prop in Hl as [Hc Hl].
    cbn [slashed]. change ("/" ++ c ++ slashed l) with (String "/" (c ++ slashed l)).
    rewrite split_char_app by exact Hk.
    rewrite IH; [reflexivity | | exact Hl].
    now apply plain_name_parts in Hc.
Qed.

Lemma norm_comps_plain (l acc : list string) :
  forallb plain_name l = true -> Path.norm_comps l acc = (rev acc ++ l)%list.
Proof.
  revert acc. induction l as [|c l IH]; intros acc Hl.
  - cbn [Path.norm_comps]. now rewrite app_nil_r.
  - cbn [forallb] in Hl. apply andb_prop in Hl as [Hc Hl].
    pose proof (plain_name_parts _ Hc) as (H1 & _ & H2 & H3).
    cbn [Path.norm_comps]. rewrite H1, H2, H3. cbn [orb].
    rewrite IH by exact Hl. cbn [rev]. now rewrite <- app_assoc.
Qed.

Lemma components_below_scratch (l : list string) :
  forallb plain_name l = true ->
  Path.components (support_dir ++ slashed l)
  = ("tmp" :: "klipper_support" :: l)%list.
Proof.
  intros Hl. unfold Path.components.
  change support_dir with ("" ++ slashed ["tmp"; "klipper_support"]).
  rewrite append_assoc, <- slashed_app.
  rewrite split_slashed;
    [| reflexivity | cbn [app forallb]; now rewrite Hl].
  cbn [Path.norm_comps is_empty orb].
  rewrite norm_comps_plain; [reflexivity|].
  cbn [app forallb]. now rewrite Hl.
Qed.

Lemma slashed_join_all (l : list string) :
  l <> [] -> slashed l = "/" ++ Path.join_all l.
Proof.
  induction l as [|c l IH]; [congruence|]. intros _.
  destruct l as [|d l].
  - cbn [slashed Path.join_all]. now rewrite append_empty_r.
  - cbn [slashed Path.join_all] in *. rewrite IH by discriminate.
    reflexivity.
Qed.

(** A file below the scratch directory and its path relative to it. *)
Lemma relpath_below_scratch (dirs : list string) (file : string) :
  forallb plain_name (dirs ++ [file]) = true ->
  Path.join (below support_dir dirs) file
  = "/tmp/klipper_support/" ++ Path.join_all (dirs ++ [file])
  /\ Path.relpath (Path.join (below support_dir dirs) file) support_dir
     = Ok (Path.join_all (dirs ++ [file])).
Proof.
  intros Hl.
  assert (Hd : forallb plain_name dirs = true /\ plain_name file = true).
  { rewrite forallb_app in Hl. apply andb_prop in Hl as [Hd Hf].
    cbn [forallb] in Hf. now rewrite andb_true_r in Hf. }
  destruct Hd as [Hd Hf].
  assert (Hjoin : Path.join (below support_dir dirs) file
                  = support_dir ++ slashed (dirs ++ [file])).
  { rewrite <- (app_nil_r (dirs ++ [file])), <- app_assoc.
    change ([file] ++ [])%list with [file].
    rewrite <- (below_slashed support_dir (dirs ++ [file]))
      by (reflexivity || exact Hl).
    unfold below. now rewrite fold_left_app. }
  rewrite Hjoin. split.
  - rewrite slashed_join_all by (destruct dirs; discriminate). reflexivity.
  - unfold Path.relpath.
    rewrite components_below_scratch by exact Hl.
    change (Path.components support_dir) with ["tmp"; "klipper_support"].
    cbn [Path.strip_common String.eqb Ascii.eqb Bool.eqb map app].
    destruct (dirs ++ [file])%list eqn:Hnil; [destruct dirs; discriminate|].
    reflexivity.
Qed.

Lemma add_to_archive_written (root file rel : string) :
  Path.relpath (Path.join root file) support_dir = Ok rel ->
  wp (add_to_archive root file) (fun _ tr =>
    forall filename arcname,
      In (Some (filename, arcname)) (map written tr) ->
      filename = Path.join root file
      /\ exists ts, In (Called (strftime timestamp_format) (Ok ts)) tr
                    /\ arcname = rel ++ "_" ++ ts).
Proof.
  intros Hrel. unfold add_to_archive, call. rewrite Hrel.
  cbn [lift bind wp response].
  intros [ts|e]; cbn [bind wp response].
  2: { intros ? ? [H | []]. discriminate H. }
  intros r; destruct r as [[]|e]; cbn [bind wp response];
    (intros ? ? [H | [H | []]]; [discriminate H |];
     injection H as <- <-; split; [reflexivity|];
     exists ts; split; [left; reflexivity | reflexivity]).
Qed.

(** X13: a file that [os.walk] finds below the scratch directory, through
    the directories [dirs], is written to the archive from
    [/tmp/klipper_support/<dirs>/<file>] under the name
    [<dirs>/<file>_<timestamp>], with a timestamp read for this entry. *)
Theorem scratch_file_is_archived_under_its_relative_path
        (E : env) (st : state E) (dirs : list string) (file : string)
        (archive filename arcname : string) (r : result unit) :
  forallb plain_name (dirs ++ [file]) = true ->
  In (Called (zip_write archive filename arcname) r)
     (trace (run E (add_to_archive (below "/tmp/klipper_support" dirs) file) st)) ->
  filename = "/tmp/klipper_support/" ++ Path.join_all (dirs ++ [file])
  /\ exists ts,
       In (Called (strftime "%Y%m%d_%H%M%S") (Ok ts))
          (trace (run E (add_to_archive (below "/tmp/klipper_support" dirs) file) st))
       /\ arcname = Path.join_all (dirs ++ [file]) ++ "_" ++ ts.
Proof.
  intros Hl Hin. destruct (relpath_below_scratch dirs file Hl) as [Hjoin Hrel].
  change "/tmp/klipper_support" with support_dir in *.
  pose proof (wp_sound _ _ (add_to_archive_written _ _ _ Hrel) E st
                filename arcname (in_map written _ _ Hin)) as [Hf [ts [Hts Ha]]].
  split; [now rewrite Hf, Hjoin|]. now exists ts.
Qed.

Lemma scratch_file_is_archived_under_its_relative_path_witness :
  "/tmp/klipper_support/config/printer.cfg"
  = "/tmp/klipper_support/" ++ Path.join_all (["config"] ++ ["printer.cfg"])
  /\ exists ts,
       In (Called (strftime "%Y%m%d_%H%M%S") (Ok ts))
          (trace (run (scenario_env standard)
                      (add_to_archive (below "/tmp/klipper_support" ["config"])
                                      "printer.cfg") 0))
       /\ "config/printer.cfg_20240315_101559"
          = Path.join_all (["config"] ++ ["printer.cfg"]) ++ "_" ++ ts.
Proof.
  refine (scratch_file_is_archived_under_its_relative_path
            (scenario_env standard) 0 ["config"] "printer.cfg"
            "/tmp/klipper_support.zip" "/tmp/klipper_support/config/printer.cfg"
            "config/printer.cfg_20240315_101559" (Ok tt) _ _).
  - reflexivity.
  - vm_compute. find_line.
Defined.

(** ** What a run collects *)

Ltac permitted_leaf :=
  idtac;
  lazymatch goal with
  | |- permitted _ _ (Called (copy zip_path _) _) => left; reflexivity
  | |- permitted _ _ (Called (subprocess_run _ _) _) =>
      cbn [permitted In]; find_line
  | |- permitted _ _ _ => exact I
  end.

Lemma get_newest_log_permitted (cfg log : string) :
  contains "printer_data" log = true ->
  wp (get_newest_log (Path.dirname log) "klippy.log") (always (permitted cfg log)).
Proof.
  intros Hc. unfold get_newest_log, newest_of.
  always_step; [always_step; now split|].
  repeat always_step; exact I.
Qed.

Lemma copy_selective_logs_permitted (cfg log : string) :
  wp (copy_selective_logs log) (always (permitted cfg log)).
Proof.
  unfold copy_selective_logs, no_archived_log, status_message, step_message.
  cbn [for_each].
  always_step; [apply always_print; exact I|].
  always_step; [| apply always_print; exact I].
  destruct (contains "printer_data" log) eqn:Hc.
  2: { always_step. right. left. now repeat split. }
  always_step.
  { repeat always_step; try exact I;
      (do 3 right; split; [exact Hc|]; eexists; split; [reflexivity|];
       split; [reflexivity | tauto]). }
  eapply always_bind_with;
    [now apply get_newest_log_permitted | apply get_newest_log_filtered |].
  intros [name|] Hname; [|apply always_print; exact I].
  destruct (is_empty name); [apply always_print; exact I|].
  destruct (Hname name eq_refl) as [Hpre Hrot].
  always_step; [| apply always_print; exact I].
  always_step. do 3 right. split; [exact Hc|]. exists name.
  split; [reflexivity|]. split; [| tauto].
  apply join_scratch. now apply klippy_not_absolute.
Qed.

Lemma copy_printer_cfg_permitted (cfg log : string) :
  wp (copy_printer_cfg cfg) (always (permitted cfg log)).
Proof.
  unfold copy_printer_cfg, status_message, step_message.
  always_step; [apply always_print; exact I|].
  always_step; [| apply always_print; exact I].
  destruct (contains "printer_data" cfg) eqn:Hc.
  - always_step. now repeat split.
  - always_step. right. right. left. now repeat split.
Qed.

Lemma locate_permitted (cfg log : string) :
  wp locate (always (permitted cfg log)).
Proof. always_auto permitted_leaf. Qed.

Lemma after_locate_permitted (cfg log : string) :
  wp (base_path <- determine_base_path "printer.cfg" "Printer config path: "
                                       cfg ;;
      base_path_log <- determine_base_path "log file" "Log file path: " log ;;
      collect cfg log ;;
      compress_support_folder ;;
      final_message base_path)%prog
     (always (permitted cfg log)).
Proof.
  unfold collect, determine_base_path, prepare_support_directory,
    ensure_empty_dir, collect_system_reports, collect_os_information,
    collect_network_information, collect_dmesg_information, with_open_w,
    compress_support_folder, add_to_archive, final_message,
    status_message, step_message.
  repeat first [ apply copy_selective_logs_permitted
               | apply copy_printer_cfg_permitted
               | always_step ];
    permitted_leaf.
Qed.

Lemma main_body_permitted (cfg log : string) :
  wp main_body (fun _ tr =>
    forall line, In (Some line) (map line_read tr) ->
      klipper_paths line = Ok (cfg, log) ->
      Forall (permitted cfg log) tr).
Proof.
  unfold main_body. apply wp_bind.
  eapply wp_mono;
    [| exact (wp_conj _ _ _ locate_returns (locate_permitted cfg log))].
  intros [paths|e] tr [Hret Hperm].
  - eapply wp_mono;
      [| exact (wp_conj _ _ _ (after_locate_reads_no_line paths)
                  (after_locate_permitted (fst paths) (snd paths)))].
    intros out tr' [Hno Hrest] line Hin Hpaths.
    rewrite map_app in Hin. apply in_app_or in Hin as [Hin | Hin].
    + specialize (Hret line Hin). rewrite Hpaths in Hret.
      injection Hret as ->. apply Forall_app. split; [exact Hperm | exact Hrest].
    + exfalso. apply in_map_iff in Hin as (ev & Hev & Hin).
      unfold always in Hno. rewrite Forall_forall in Hno.
      specialize (Hno ev Hin). unfold no_line_read_by in Hno. congruence.
  - intros line Hin Hpaths. specialize (Hret line Hin). congruence.
Qed.

(** X14: a run copies, lists and starts only what the environment file
    and the script name.  With [cfg] and [log] the two paths extracted
    from the first line of the environment file, every copy is of the
    archive, of [log] or [cfg] itself outside a managed data root, or of
    [klippy.log], [moonraker.log] or a dated rotation of [klippy.log]
    from the directory of [log]; only the directory of [cfg] is copied
    as a tree, only the directory of [log] is listed, and only the four
    report commands are started. *)
Theorem main_collects_only_named_files
        (E : env) (st : state E) (path line cfg log : string) :
  In (Called (readline path) (Ok line)) (trace (run E main st)) ->
  klipper_paths line = Ok (cfg, log) ->
  Forall (permitted cfg log) (trace (run E main st)).
Proof.
  intros Hin Hpaths.
  pose proof (wp_sound _ _ (main_body_permitted cfg log) E st) as Hbody.
  destruct (outcome (run E main_body st)) as [[]|e] eqn:Hout.
  - destruct (main_after_success E st Hout) as (_ & H2 & _).
    rewrite H2 in *. apply (Hbody line); [|exact Hpaths].
    exact (in_map line_read _ _ Hin).
  - destruct (main_after_error E st e Hout) as (_ & H2 & _).
    rewrite H2 in *. apply Forall_app. split; [| repeat constructor].
    apply (Hbody line); [|exact Hpaths].
    apply in_app_or in Hin as [Hin | [Hin | []]].
    + exact (in_map line_read _ _ Hin).
    + discriminate Hin.
Qed.

Lemma main_collects_only_named_files_witness :
  Forall (permitted "/home/pi/printer_data/config/printer.cfg"
                    "/home/pi/printer_data/logs/klippy.log")
         (trace (run (scenario_env standard) main 0)).
Proof.
  refine (main_collects_only_named_files (scenario_env standard) 0
            "/home/pi/printer_data/systemd/klipper.env" standard_env_line
            "/home/pi/printer_data/config/printer.cfg"
            "/home/pi/printer_data/logs/klippy.log" _ _).
  - vm_compute. find_line.
  - vm_compute. reflexivity.
Defined.

(** ** The two candidate logs *)

Lemma append_inj_l (a b c : string) : a ++ b = a ++ c -> b = c.
Proof.
  induction a as [|x a IH]; [trivial|]. cbn [append]. intros [= H]. now apply IH.
Qed.

Lemma join_inj (dir b c : string) :
  startswith b "/" = false -> startswith c "/" = false ->
  Path.join dir b = Path.join dir c -> b = c.
Proof.
  unfold Path.join. intros -> ->.
  destruct (is_empty dir || endswith_char "/" dir); intros H.
  - exact (append_inj_l _ _ _ H).
  - apply append_inj_l in H. now injection H.
Qed.

Lemma candidate_handled_after (dir file : string) (tr tr' : list event) :
  candidate_handled dir file tr ->
  Forall (not_copied_from (Path.join dir file)) tr' ->
  candidate_handled dir file (tr ++ tr')%list.
Proof.
  intros [b [Hin Hb]] Htr'. exists b. split; [apply in_or_app; now left|].
  destruct b; [apply in_or_app; now left | apply Forall_app; now split].
Qed.

Lemma candidate_handled_before (dir file : string) (tr tr' : list event) :
  Forall (not_copied_from (Path.join dir file)) tr ->
  candidate_handled dir file tr' ->
  candidate_handled dir file (tr ++ tr')%list.
Proof.
  intros Htr [b [Hin Hb]]. exists b. split; [apply in_or_app; now right|].
  destruct b; [apply in_or_app; now right | apply Forall_app; now split].
Qed.

Lemma wp_frame_before {A B} (N : event -> Prop) (G : list event -> Prop)
      (p : prog A) (f : A -> prog B) :
  (forall tr tr', Forall N tr -> G tr' -> G (tr ++ tr')%list) ->
  wp p (always N) ->
  (forall a, wp (f a) (fun out tr => (exists b, out = Ok b) -> G tr)) ->
  wp (bind p f) (fun out tr => (exists b, out = Ok b) -> G tr).
Proof.
  intros HG Hp Hf. apply wp_bind. eapply wp_mono; [| exact Hp].
  intros [a|e] tr Htr; [| intros [b Hb]; discriminate Hb].
  eapply wp_mono; [| exact (Hf a)]. intros out tr' H Hout.
  apply HG; [exact Htr | now apply H].
Qed.

Lemma wp_frame_after {A B} (N : event -> Prop) (G : list event -> Prop)
      (p : prog A) (f : A -> prog B) :
  (forall tr tr', G tr -> Forall N tr' -> G (tr ++ tr')%list) ->
  wp p (fun out tr => (exists a, out = Ok a) -> G tr) ->
  (forall a, wp (f a) (always N)) ->
  wp (bind p f) (fun out tr => (exists b, out = Ok b) -> G tr).
Proof.
  intros HG Hp Hf. apply wp_bind. eapply wp_mono; [| exact Hp].
  intros [a|e] tr Htr; [| intros [b Hb]; discriminate Hb].
  eapply wp_mono; [| exact (Hf a)]. intros out tr' H _.
  apply HG; [apply Htr; now exists a | exact H].
Qed.

(** One round of the loop of lines 132-136. *)
Lemma candidate_round_handles (dir file : string) :
  startswith file "/" = false ->
  wp (b <- call (path_exists (Path.join dir file)) ;;
      if b
      then call (copy (Path.join dir file) (Path.join support_dir file)) ;;
           status_message ("Copied " ++ file) true
      else Ret tt)%prog
     (fun out tr => (exists a, out = Ok a) -> candidate_handled dir file tr).
Proof.
  intros Hrel. rewrite (join_scratch _ Hrel).
  unfold status_message, print, call. cbn [bind wp response].
  intros [[|]|e]; cbn [bind wp response].
  - intros [[]|e]; cbn [bind wp response].
    + intros _. exists true. split; find_line.
    + intros [a Ha]. discriminate Ha.
  - intros _. exists false. split; [find_line | repeat constructor].
  - intros [a Ha]. discriminate Ha.
Qed.

Lemma candidate_round_other (dir file src : string) :
  Path.join dir file <> src ->
  wp (b <- call (path_exists (Path.join dir file)) ;;
      if b
      then call (copy (Path.join dir file) (Path.join support_dir file)) ;;
           status_message ("Copied " ++ file) true
      else Ret tt)%prog
     (always (not_copied_from src)).
Proof.
  intros Hne. unfold status_message.
  repeat always_step; try exact I. exact Hne.
Qed.

Lemma get_newest_log_copies_nothing (dir prefix src : string) :
  wp (get_newest_log dir prefix) (always (not_copied_from src)).
Proof. always_auto ltac:(idtac; exact I). Qed.

(** The copy of the rotation is of neither candidate. *)
Lemma rotation_copy_other (dir file : string) :
  file = "klippy.log" \/ file = "moonraker.log" ->
  wp (newest_log <- get_newest_log dir "klippy.log" ;;
      match newest_log with
      | Some name =>
          if is_empty name then no_archived_log
          else
            call (copy (Path.join dir name) (Path.join support_dir name)) ;;
            status_message ("Copied last rolled-over log: " ++ name) true
      | None => no_archived_log
      end)%prog
     (always (not_copied_from (Path.join dir file))).
Proof.
  intros Hfile. unfold no_archived_log, status_message.
  eapply always_bind_with;
    [apply get_newest_log_copies_nothing | apply get_newest_log_filtered |].
  intros [name|] Hname; [|apply always_print; exact I].
  destruct (is_empty name); [apply always_print; exact I|].
  destruct (Hname name eq_refl) as [Hpre Hrot].
  always_step; [| apply always_print; exact I].
  always_step. intros Heq. apply join_inj in Heq.
  - subst name. destruct Hfile as [-> | ->]; discriminate.
  - now apply klippy_not_absolute.
  - destruct Hfile as [-> | ->]; reflexivity.
Qed.

Lemma copy_selective_logs_handles (log file : string) :
  contains "printer_data" log = true ->
  file = "klippy.log" \/ file = "moonraker.log" ->
  wp (copy_selective_logs log)
     (fun out tr =>
        (exists a, out = Ok a) -> candidate_handled (Path.dirname log) file tr).
Proof.
  intros Hc Hfile. unfold copy_selective_logs. rewrite Hc. cbn [for_each].
  unfold step_message.
  apply (wp_frame_before (not_copied_from (Path.join (Path.dirname log) file)));
    [apply candidate_handled_before | apply always_print; exact I | intros _].
  apply (wp_frame_after (not_copied_from (Path.join (Path.dirname log) file)));
    [apply candidate_handled_after | | intros _; apply always_print; exact I].
  apply (wp_frame_after (not_copied_from (Path.join (Path.dirname log) file)));
    [apply candidate_handled_after | | intros _; now apply rotation_copy_other].
  destruct Hfile as [-> | ->].
  - apply (wp_frame_after
             (not_copied_from (Path.join (Path.dirname log) "klippy.log")));
      [apply candidate_handled_after | now apply candidate_round_handles |].
    intros _. apply always_bind; [| intros _; apply always_ret].
    apply candidate_round_other. intros Heq.
    apply join_inj in Heq; [discriminate | reflexivity | reflexivity].
  - apply (wp_frame_before
             (not_copied_from (Path.join (Path.dirname log) "moonraker.log")));
      [apply candidate_handled_before | | intros _].
    + apply candidate_round_other. intros Heq.
      apply join_inj in Heq; [discriminate | reflexivity | reflexivity].
    + apply (wp_frame_after
               (not_copied_from (Path.join (Path.dirname log) "moonraker.log")));
        [apply candidate_handled_after | now apply candidate_round_handles |].
      intros _. apply always_ret.
Qed.

(** X15: when the log path lies under a managed data root and the copy
    of the logs ends normally, each of the candidates [klippy.log] and
    [moonraker.log] was looked for in the directory of the log file; one
    that was found was copied into the scratch directory under its name,
    and one that was missing was not copied and stopped nothing. *)
Theorem present_candidates_are_copied
        (E : env) (st : state E) (log file : string) :
  contains "printer_data" log = true ->
  file = "klippy.log" \/ file = "moonraker.log" ->
  outcome (run E (copy_selective_logs log) st) = Ok tt ->
  exists b,
    In (Called (path_exists (Path.join (Path.dirname log) file)) (Ok b))
       (trace (run E (copy_selective_logs log) st))
    /\ if b
       then In (Called (copy (Path.join (Path.dirname log) file)
                             ("/tmp/klipper_support/" ++ file)) (Ok tt))
               (trace (run E (copy_selective_logs log) st))
       else forall dst r,
              ~ In (Called (copy (Path.join (Path.dirname log) file) dst) r)
                   (trace (run E (copy_selective_logs log) st)).
Proof.
  intros Hc Hfile Hout.
  destruct (wp_sound _ _ (copy_selective_logs_handles log file Hc Hfile) E st
              (ex_intro _ tt Hout)) as [b [Hin Hb]].
  exists b. split; [exact Hin|]. destruct b; [exact Hb|].
  intros dst r Hcopy. rewrite Forall_forall in Hb.
  exact (Hb _ Hcopy eq_refl).
Qed.

Lemma present_candidates_are_copied_witness :
  exists b,
    In (Called (path_exists
                  (Path.join (Path.dirname "/home/pi/printer_data/logs/klippy.log")
                             "moonraker.log")) (Ok b))
       (trace (run (scenario_env standard)
                   (copy_selective_logs "/home/pi/printer_data/logs/klippy.log") 0))
    /\ if b
       then In (Called (copy (Path.join
                                (Path.dirname "/home/pi/printer_data/logs/klippy.log")
                                "moonraker.log")
                             ("/tmp/klipper_support/" ++ "moonraker.log")) (Ok tt))
               (trace (run (scenario_env standard)
                           (copy_selective_logs
                              "/home/pi/printer_data/logs/klippy.log") 0))
       else forall dst r,
              ~ In (Called (copy (Path.join
                                    (Path.dirname
                                       "/home/pi/printer_data/logs/klippy.log")
                                    "moonraker.log") dst) r)
                   (trace (run (scenario_env standard)
                               (copy_selective_logs
                                  "/home/pi/printer_data/logs/klippy.log") 0)).
Proof.
  refine (present_candidates_are_copied (scenario_env standard) 0
            "/home/pi/printer_data/logs/klippy.log" "moonraker.log" _ _ _).
  - reflexivity.
  - right. reflexivity.
  - vm_compute. reflexivity.
Defined.

(** ** Files that were opened are closed *)

(** X16: when the first [EnvironmentFile] line of the service definition
    has no [=], taking its value raises [IndexError]; the handler prints
    [list index out of range] as the last line, and nothing was created,
    copied, removed or started. *)
Theorem service_line_without_value_aborts
        (E : env) (st : state E) (path : string) (lines : list string)
        (l : string) (rest : list string) :
  In (Called (readlines path) (Ok lines)) (trace (run E locate st)) ->
  environment_file_line lines = l :: rest ->
  contains "=" l = false ->
  outcome (run E main_body st) = Raised (IndexError "list index out of range")
  /\ trace (run E main st)
     = (trace (run E locate st)
        ++ [Printed (fail_line "list index out of range")])%list
  /\ Forall (fun ev => harmless ev = true) (trace (run E main st)).
Proof.
  intros Hin Hline Hno. apply lines_read_In in Hin.
  destruct (wp_sound _ _ locate_outcome E st) as (_ & Hbad & _).
  refine (main_after_locate_error E st _ (Hbad lines _ Hin _)).
  unfold environment_file_path. rewrite Hline.
  cbn [is_nil index nth_error rbind]. now rewrite (split_absent _ _ Hno).
Qed.

Lemma service_line_without_value_aborts_witness :
  outcome (run (scenario_env (with_service_line "EnvironmentFile /etc/klipper.env"))
               main_body 0)
  = Raised (IndexError "list index out of range").
Proof.
  refine (proj1 (service_line_without_value_aborts
                   (scenario_env (with_service_line "EnvironmentFile /etc/klipper.env"))
                   0 "/etc/systemd/system/klipper.service"
                   ["[Service]" ++ nl; "EnvironmentFile /etc/klipper.env"]
                   "EnvironmentFile /etc/klipper.env" [] _ _ _)).
  - vm_compute. find_line.
  - reflexivity.
  - reflexivity.
Defined.

Lemma closed_later_app (ev : event) (post tr' : list event) :
  closed_later ev post -> closed_later ev (post ++ tr')%list.
Proof.
  destruct ev as [o r|line]; [| trivial].
  destruct o; try (intros _; exact I);
    destruct r as [x|e]; try (intros _; exact I);
    cbn [closed_later]; intros [r' H]; exists r'; apply in_or_app; now left.
Qed.

Lemma all_closed_app (tr tr' : list event) :
  all_closed tr -> all_closed tr' -> all_closed (tr ++ tr')%list.
Proof.
  intros Htr Htr' pre ev post Heq.
  apply app_eq_app in Heq as [l [[-> Hl] | [-> Hl]]].
  - destruct l as [|x l]; cbn [app] in Hl.
    + exact (Htr' [] ev post (eq_sym Hl)).
    + injection Hl as <- ->. apply closed_later_app.
      exact (Htr pre ev l eq_refl).
  - exact (Htr' l ev post Hl).
Qed.

Lemma all_closed_quiet (tr : list event) :
  Forall opens_nothing tr -> all_closed tr.
Proof.
  intros H pre ev post ->. rewrite Forall_forall in H.
  specialize (H ev (in_elt _ _ _)).
  destruct ev as [o r|line]; [| exact I].
  destruct o; try exact I; destruct r as [x|e]; try exact I; destruct H.
Qed.

Lemma all_closed_bind {A B} (p : prog A) (f : A -> prog B) :
  wp p (fun _ tr => all_closed tr) ->
  (forall a, wp (f a) (fun _ tr => all_closed tr)) ->
  wp (bind p f) (fun _ tr => all_closed tr).
Proof.
  intros Hp Hf. apply wp_bind. eapply wp_mono; [| exact Hp].
  intros [a|e] tr Htr; [| exact Htr].
  eapply wp_mono; [| exact (Hf a)]. intros out tr' Htr'.
  now apply all_closed_app.
Qed.

Lemma all_closed_always {A} (p : prog A) :
  wp p (always opens_nothing) -> wp p (fun _ tr => all_closed tr).
Proof.
  intros H. eapply wp_mono; [| exact H]. intros out tr. apply all_closed_quiet.
Qed.

Lemma all_closed_cons (ev : event) (tr : list event) :
  closed_later ev tr -> all_closed tr -> all_closed (ev :: tr).
Proof.
  intros Hev Htr pre ev' post Heq. destruct pre as [|x pre]; cbn [app] in Heq.
  - injection Heq as <- <-. exact Hev.
  - injection Heq as <- ->. exact (Htr pre ev' post eq_refl).
Qed.

(** A [with] block closes what it opened, however the body is left. *)
Lemma with_open_w_closes {A} (path : string) (body : prog A) :
  wp body (always opens_nothing) ->
  wp (with_open_w path body) (fun _ tr => all_closed tr).
Proof.
  intros Hbody. unfold with_open_w, call. cbn [bind wp response].
  intros [[]|e]; cbn [bind wp].
  2: { apply all_closed_quiet. repeat constructor. }
  apply wp_finally. eapply wp_mono; [| exact Hbody].
  intros out tr Htr r.
  assert (H : all_closed
                (Called (open_w path) (Ok tt) :: tr ++ [Called (close path) r])).
  { apply all_closed_cons.
    - exists r. apply in_or_app. right. now left.
    - apply all_closed_quiet, Forall_app. split; [exact Htr|].
      repeat constructor. }
  destruct r as [[]|e']; cbn [wp]; exact H.
Qed.

Lemma zip_block_closes (body k : prog unit) :
  wp body (always opens_nothing) ->
  wp k (always opens_nothing) ->
  wp (call (zip_open zip_path) ;;
      finally body (call (zip_close zip_path)) ;;
      k)%prog
     (fun _ tr => all_closed tr).
Proof.
  intros Hbody Hk. unfold call. cbn [bind wp response].
  intros [[]|e]; cbn [bind wp].
  2: { apply all_closed_quiet. repeat constructor. }
  apply wp_bind, wp_finally. eapply wp_mono; [| exact Hbody].
  intros out tr Htr r.
  assert (H : forall tr',
             Forall opens_nothing tr' ->
             all_closed
               (Called (zip_open zip_path) (Ok tt)
                :: ((tr ++ [Called (zip_close zip_path) r]) ++ tr'))%list).
  { intros tr' Htr'. apply all_closed_cons.
    - exists r. apply in_or_app. left. apply in_or_app. right. now left.
    - apply all_closed_quiet, Forall_app. split; [| exact Htr'].
      apply Forall_app. split; [exact Htr | repeat constructor]. }
  assert (H0 : all_closed
                 (Called (zip_open zip_path) (Ok tt)
                  :: tr ++ [Called (zip_close zip_path) r])).
  { specialize (H [] (Forall_nil _)). now rewrite app_nil_r in H. }
  destruct r as [[]|e']; cbn [wp]; [| exact H0].
  destruct out as [[]|e'']; [| exact H0].
  eapply wp_mono; [| exact Hk]. intros out' tr' Htr'. now apply H.
Qed.

Ltac opens_nothing_leaf :=
  idtac;
  lazymatch goal with
  | |- opens_nothing (Called _ ?r) => try exact I; destruct r; exact I
  | |- opens_nothing _ => exact I
  end.

Ltac closed_step :=
  lazymatch goal with
  | |- wp (with_open_w _ _) _ =>
      apply with_open_w_closes; repeat always_step; opens_nothing_leaf
  | |- wp (bind (call (zip_open _)) _) _ =>
      apply zip_block_closes; unfold add_to_archive, status_message;
      repeat always_step; opens_nothing_leaf
  | |- wp (bind _ _) _ => apply all_closed_bind; [| intros ?]
  | |- wp _ _ =>
      apply all_closed_always; always_auto opens_nothing_leaf
  end.

Lemma main_body_all_closed : wp main_body (fun _ tr => all_closed tr).
Proof.
  unfold main_body, collect, collect_system_reports, collect_os_information,
    collect_network_information, collect_dmesg_information,
    compress_support_folder.
  repeat closed_step.
Qed.

(** X17: in every run of [main], each file that was opened for writing
    and the archive, once opened, are closed later in the run, also when
    the block that uses them is left by an exception. *)
Theorem opened_files_are_closed
        (E : env) (st : state E) (pre post : list event) (ev : event) :
  trace (run E main st) = (pre ++ ev :: post)%list ->
  match ev with
  | Called (open_w path) (Ok _) => exists r, In (Called (close path) r) post
  | Called (zip_open path) (Ok _) =>
      exists r, In (Called (zip_close path) r) post
  | _ => True
  end.
Proof.
  intros Heq.
  pose proof (wp_sound _ _ main_body_all_closed E st) as Hbody.
  assert (H : all_closed (trace (run E main st))).
  { destruct (outcome (run E main_body st)) as [[]|e] eqn:Hout.
    - destruct (main_after_success E st Hout) as (_ & -> & _). exact Hbody.
    - destruct (main_after_error E st e Hout) as (_ & -> & _).
      apply all_closed_app; [exact Hbody|].
      apply all_closed_quiet. repeat constructor. }
  exact (H pre ev post Heq).
Qed.

Lemma opened_files_are_closed_witness :
  exists r,
    In (Called (close "/tmp/klipper_support/Network_Information.txt") r)
       (skipn 47 (trace (run (scenario_env (without_commands ["ip"])) main 0))).
Proof.
  refine (opened_files_are_closed (scenario_env (without_commands ["ip"])) 0
            (firstn 46 (trace (run (scenario_env (without_commands ["ip"])) main 0)))
            (skipn 47 (trace (run (scenario_env (without_commands ["ip"])) main 0)))
            (Called (open_w "/tmp/klipper_support/Network_Information.txt") (Ok tt))
            _).
  vm_compute. reflexivity.
Defined.

(** ** Installations outside a managed data root *)

Lemma determine_base_path_warns (what label path : string) :
  wp (determine_base_path what label path)
     (fun out tr =>
        (exists b, out = Ok b)
        /\ (contains "printer_data" path = false ->
            In (Printed (warning_line what path)) tr)).
Proof.
  unfold determine_base_path, derive_base_path, status_message, step_message,
    print.
  destruct (contains "printer_data" path); cbn [bind wp].
  - split; [now eexists | discriminate].
  - split; [now eexists |]. intros _. right. left. reflexivity.
Qed.

Lemma after_locate_warns (cfg log : string) :
  wp (base_path <- determine_base_path "printer.cfg" "Printer config path: "
                                       cfg ;;
      base_path_log <- determine_base_path "log file" "Log file path: " log ;;
      collect cfg log ;;
      compress_support_folder ;;
      final_message base_path)%prog
     (fun _ tr =>
        (contains "printer_data" cfg = false ->
         In (Printed (warning_line "printer.cfg" cfg)) tr)
        /\ (contains "printer_data" log = false ->
            In (Printed (warning_line "log file" log)) tr)).
Proof.
  apply wp_bind. eapply wp_mono; [| apply determine_base_path_warns].
  intros [bp|e] tr [[b Hb] Hcfg]; [| discriminate Hb].
  apply wp_bind. eapply wp_mono; [| apply determine_base_path_warns].
  intros [bpl|e] tr' [[b' Hb'] Hlog]; [| discriminate Hb'].
  eapply wp_mono; [| apply wp_true]. intros out tr'' _. split.
  - intros H. apply in_or_app. left. now apply Hcfg.
  - intros H. apply in_or_app. right. apply in_or_app. left. now apply Hlog.
Qed.

Lemma main_body_warns (cfg log : string) :
  wp main_body (fun _ tr =>
    forall line, In (Some line) (map line_read tr) ->
      klipper_paths line = Ok (cfg, log) ->
      (contains "printer_data" cfg = false ->
       In (Printed (warning_line "printer.cfg" cfg)) tr)
      /\ (contains "printer_data" log = false ->
          In (Printed (warning_line "log file" log)) tr)).
Proof.
  unfold main_body. apply wp_bind.
  eapply wp_mono; [| exact locate_returns].
  intros [paths|e] tr Hret.
  - eapply wp_mono;
      [| exact (wp_conj _ _ _ (after_locate_reads_no_line paths)
                  (after_locate_warns (fst paths) (snd paths)))].
    intros out tr' [Hno [H1 H2]] line Hin Hpaths.
    rewrite map_app in Hin. apply in_app_or in Hin as [Hin | Hin].
    + specialize (Hret line Hin). rewrite Hpaths in Hret.
      injection Hret as ->. cbn [fst snd] in *.
      split; intros H; apply in_or_app; right; auto.
    + exfalso. apply in_map_iff in Hin as (ev & Hev & Hin).
      unfold always in Hno. rewrite Forall_forall in Hno.
      specialize (Hno ev Hin). unfold no_line_read_by in Hno. congruence.
  - intros line Hin Hpaths. specialize (Hret line Hin). congruence.
Qed.

(** X18: a config path or a log path outside a managed data root does
    not stop the run: once the two paths are extracted, the run warns of
    a non-standard installation for each such path, naming the path
    itself as its base path. *)
Theorem non_standard_installation_is_warned
        (E : env) (st : state E) (path line cfg log what p : string) :
  In (Called (readline path) (Ok line)) (trace (run E main st)) ->
  klipper_paths line = Ok (cfg, log) ->
  (what, p) = ("printer.cfg", cfg) \/ (what, p) = ("log file", log) ->
  contains "printer_data" p = false ->
  In (Printed (warning_line what p)) (trace (run E main st)).
Proof.
  intros Hin Hpaths Hwhat Hp.
  pose proof (wp_sound _ _ (main_body_warns cfg log) E st) as Hbody.
  assert (H : In (Printed (warning_line what p)) (trace (run E main_body st))).
  { assert (Hline : In (Some line) (map line_read (trace (run E main_body st)))).
    { destruct (outcome (run E main_body st)) as [[]|e] eqn:Hout.
      - destruct (main_after_success E st Hout) as (_ & H2 & _).
        rewrite H2 in Hin. exact (in_map line_read _ _ Hin).
      - destruct (main_after_error E st e Hout) as (_ & H2 & _).
        rewrite H2 in Hin. apply in_app_or in Hin as [Hin | [Hin | []]].
        + exact (in_map line_read _ _ Hin).
        + discriminate Hin. }
    destruct (Hbody line Hline Hpaths) as [H1 H2].
    destruct Hwhat as [[= -> ->] | [= -> ->]]; auto. }
  now apply main_body_trace_incl.
Qed.

Lemma non_standard_installation_is_warned_witness :
  In (Printed (warning_line "log file" "/tmp/klippy.log"))
     (trace (run (scenario_env (with_env_line outside_root_env_line)) main 0)).
Proof.
  refine (non_standard_installation_is_warned
            (scenario_env (with_env_line outside_root_env_line)) 0
            "/home/pi/printer_data/systemd/klipper.env" outside_root_env_line
            "/home/pi/printer.cfg" "/tmp/klippy.log" "log file" "/tmp/klippy.log"
            _ _ _ _).
  - vm_compute. find_line.
  - vm_compute. reflexivity.
  - right. reflexivity.
  - reflexivity.
Defined.

(** * Line formats, errors and the archive *)

(** ** The first line of the environment file, for every value *)

Lemma grown_at_end_cons (x : string) (l l' : list string) :
  grown_at_end l l' -> grown_at_end (x :: l) (x :: l').
Proof.
  intros [[b ->] | (pre & y & b & -> & ->)].
  - left. now exists b.
  - right. now exists (x :: pre), y, b.
Qed.

Lemma grown_at_end_length (l l' : list string) :
  grown_at_end l l' ->
  (List.length l <= List.length l' <= S (List.length l))%nat.
Proof.
  intros [[b ->] | (pre & y & b & -> & ->)]; rewrite !length_app;
    cbn [List.length]; lia.
Qed.

(** All the elements before the last one are kept. *)
Lemma grown_at_end_nth (l l' : list string) (i : nat) :
  grown_at_end l l' -> (S i < List.length l')%nat ->
  nth_error l i = nth_error l' i.
Proof.
  intros [[b ->] | (pre & y & b & -> & ->)] Hi;
    rewrite length_app in Hi; cbn [List.length] in Hi.
  - symmetry. apply nth_error_app1. lia.
  - rewrite !nth_error_app1 by lia. reflexivity.
Qed.

Lemma split_ws_full (s : string) : split_ws s = full (words s).
Proof. unfold split_ws, full. now destruct (words s). Qed.

Lemma words_cons (c : ascii) (s : string) :
  words (String c s)
  = if is_space c then ("", full (words s))
    else (String c (fst (words s)), snd (words s)).
Proof. cbn [words]. unfold full. now destruct (words s). Qed.

(** Text without whitespace added at the end of [z]: the words of [z]
    before its last one stay. *)
Lemma words_snoc (z b : string) :
  b <> "" -> all_chars (fun c => negb (is_space c)) b = true ->
  (fst (words (z ++ b)) = fst (words z) ++ b
   /\ snd (words z) = [] /\ snd (words (z ++ b)) = [])
  \/ (fst (words (z ++ b)) = fst (words z)
      /\ grown_at_end (snd (words z)) (snd (words (z ++ b)))).
Proof.
  intros Hne Hb. induction z as [|c z IH].
  - left. cbn [append]. rewrite <- (append_empty_r b) at 1 3.
    rewrite (words_token _ _ Hb). cbn [words fst snd].
    now rewrite append_empty_r.
  - change (String c z ++ b) with (String c (z ++ b)).
    rewrite !words_cons. destruct (is_space c); cbn [fst snd].
    + right. split; [reflexivity|]. unfold full.
      destruct IH as [(H1 & H2 & H3) | (H1 & H2)].
      * rewrite H1, H2, H3.
        destruct (fst (words z)) as [|x w]; cbn [is_empty append].
        -- destruct b; [congruence|]. cbn [is_empty]. left. now eexists.
        -- right. now exists [], (String x w), b.
      * rewrite H1. destruct (is_empty (fst (words z)));
          [exact H2 | now apply grown_at_end_cons].
    + destruct IH as [(H1 & H2 & H3) | (H1 & H2)].
      * left. now rewrite H1, H2, H3.
      * right. now rewrite H1.
Qed.

Lemma split_ws_snoc (z b : string) :
  b <> "" -> all_chars (fun c => negb (is_space c)) b = true ->
  grown_at_end (split_ws z) (split_ws (z ++ b)).
Proof.
  intros Hne Hb. rewrite !split_ws_full. unfold full.
  destruct (words_snoc z b Hne Hb) as [(H1 & H2 & H3) | (H1 & H2)].
  - rewrite H1, H2, H3.
    destruct (fst (words z)) as [|x w]; cbn [is_empty append].
    + destruct b; [congruence|]. cbn [is_empty]. left. now eexists.
    + right. now exists [], (String x w), b.
  - rewrite H1. destruct (is_empty (fst (words z)));
      [exact H2 | now apply grown_at_end_cons].
Qed.

(** Whitespace added at the end changes no word. *)
Lemma words_snoc_space (z : string) (c : ascii) :
  is_space c = true -> words (z ++ String c "") = words z.
Proof.
  intros Hc. induction z as [|x z IH].
  - cbn [append words]. now rewrite Hc.
  - change (String x z ++ String c "") with (String x (z ++ String c "")).
    now rewrite !words_cons, IH.
Qed.

(** Adding text at the end never takes a word away. *)
Lemma split_ws_length_app (a s : string) :
  (List.length (split_ws a) <= List.length (split_ws (a ++ s)))%nat.
Proof.
  revert a. induction s as [|c s IH]; intros a.
  - now rewrite append_empty_r.
  - replace (a ++ String c s) with ((a ++ String c "") ++ s)
      by (rewrite append_assoc; reflexivity).
    etransitivity; [| apply IH].
    destruct (is_space c) eqn:Hc.
    + rewrite !split_ws_full, (words_snoc_space _ _ Hc). lia.
    + apply grown_at_end_length, split_ws_snoc; [discriminate|].
      cbn [all_chars]. now rewrite Hc.
Qed.

(** Text without whitespace put before [s]. *)
Lemma split_ws_glued (g s : string) :
  all_chars (fun c => negb (is_space c)) g = true ->
  holds_at (fun c => negb (is_space c)) (first_char s) = true ->
  exists w l, split_ws s = w :: l /\ split_ws (g ++ s) = (g ++ w) :: l.
Proof.
  intros Hg Hs. rewrite !split_ws_full, (words_token _ _ Hg). unfold full.
  destruct s as [|c s]; [discriminate|]. cbn [first_char holds_at] in Hs.
  apply negb_true_iff in Hs. rewrite words_cons, Hs. cbn [fst snd is_empty].
  exists (String c (fst (words s))), (snd (words s)). split; [reflexivity|].
  destruct g; reflexivity.
Qed.

Lemma split_ws_length_cons (g s : string) :
  all_chars (fun c => negb (is_space c)) g = true ->
  (List.length (split_ws s) <= List.length (split_ws (g ++ s)))%nat.
Proof.
  intros Hg. rewrite !split_ws_full, (words_token _ _ Hg). unfold full.
  cbn [fst snd]. destruct (fst (words s)); destruct g; cbn; lia.
Qed.

(** *** Stripping *)

Lemma dquote_not_space (c : ascii) : is_dquote c = true -> is_space c = false.
Proof.
  intros H. destruct (is_space c) eqn:Hs; [|reflexivity].
  now rewrite (space_not_dquote _ Hs) in H.
Qed.

Lemma all_dquote_not_space (q : string) :
  all_chars is_dquote q = true ->
  all_chars (fun c => negb (is_space c)) q = true.
Proof.
  induction q as [|c q IH]; [reflexivity|]. cbn [all_chars].
  intros H. apply andb_prop in H as [Hc Hq].
  now rewrite (dquote_not_space _ Hc), (IH Hq).
Qed.

Lemma all_chars_last (p : ascii -> bool) (t : string) :
  all_chars p t = true -> t <> "" -> holds_at p (last_char t) = true.
Proof.
  induction t as [|c t IH]; [congruence|]. cbn [all_chars last_char].
  intros H _. apply andb_prop in H as [Hc Ht].
  destruct t as [|x t]; [exact Hc|].
  specialize (IH Ht ltac:(discriminate)).
  destruct (last_char (String x t)); [exact IH | discriminate IH].
Qed.

(** What [lstrip] removes. *)
Lemma lstrip_split (p : ascii -> bool) (s : string) :
  exists a, s = a ++ lstrip p s /\ all_chars p a = true.
Proof.
  induction s as [|c s (a & Ha & Hp)]; [now exists ""|].
  cbn [lstrip]. destruct (p c) eqn:Hc; [|now exists ""].
  exists (String c a). cbn [append all_chars]. now rewrite <- Ha, Hc, Hp.
Qed.

Lemma lstrip_first (p : ascii -> bool) (s : string) :
  holds_at p (first_char (lstrip p s)) = false.
Proof.
  induction s as [|c s IH]; [reflexivity|]. cbn [lstrip].
  destruct (p c) eqn:Hc; [exact IH | exact Hc].
Qed.

(** What [rstrip] removes. *)
Lemma rstrip_split (p : ascii -> bool) (s : string) :
  exists t, s = rstrip p s ++ t /\ all_chars p t = true.
Proof.
  induction s as [|c s (t & Ht & Hp)]; [now exists ""|].
  cbn [rstrip]. destruct (rstrip p s) as [|y r] eqn:Hr; cbn [is_empty andb].
  - cbn [append] in Ht. subst t. destruct (p c) eqn:Hc.
    + exists (String c s). cbn [append all_chars]. now rewrite Hc, Hp.
    + exists s. now split.
  - exists t. cbn [append] in *. now rewrite <- Ht.
Qed.

Lemma rstrip_snoc (p : ascii -> bool) (s : string) (c : ascii) :
  p c = true -> rstrip p (s ++ String c "") = rstrip p s.
Proof.
  intros Hc. induction s as [|x s IH].
  - cbn [append rstrip is_empty andb]. now rewrite Hc.
  - change (String x s ++ String c "") with (String x (s ++ String c "")).
    cbn [rstrip]. now rewrite IH.
Qed.

Lemma rstrip_app_nonempty (p : ascii -> bool) (a s : string) :
  is_empty (rstrip p s) = false -> rstrip p (a ++ s) = a ++ rstrip p s.
Proof.
  intros Hs. induction a as [|x a IH]; [reflexivity|].
  change (String x a ++ s) with (String x (a ++ s)). cbn [rstrip].
  rewrite IH. destruct a; cbn [append]; [now rewrite Hs | reflexivity].
Qed.

Lemma rstrip_app_keep (p : ascii -> bool) (a s : string) :
  holds_at (fun c => negb (p c)) (last_char a) = true ->
  rstrip p (a ++ s) = a ++ rstrip p s.
Proof.
  induction a as [|x a IH]; [discriminate|]. cbn [last_char].
  change (String x a ++ s) with (String x (a ++ s)). cbn [rstrip].
  destruct a as [|y a].
  - cbn [last_char holds_at append]. intros H. apply negb_true_iff in H.
    now rewrite H, andb_false_r.
  - assert (Hl : exists d, last_char (String y a) = Some d).
    { cbn [last_char]. destruct (last_char a); eauto. }
    destruct Hl as [d Hd]. rewrite Hd. intros H.
    rewrite IH by (rewrite Hd; exact H). reflexivity.
Qed.

Lemma lstrip_snoc (p : ascii -> bool) (s : string) (c : ascii) :
  p c = true ->
  lstrip p (s ++ String c "")
  = if is_empty (lstrip p s) then "" else lstrip p s ++ String c "".
Proof.
  intros Hc. induction s as [|x s IH].
  - cbn [append lstrip is_empty]. now rewrite Hc.
  - change (String x s ++ String c "") with (String x (s ++ String c "")).
    cbn [lstrip]. destruct (p x); [exact IH | reflexivity].
Qed.

(** A closing character of [p] changes nothing of what [strip] leaves. *)
Lemma strip_chars_snoc (p : ascii -> bool) (s : string) (c : ascii) :
  p c = true -> strip_chars p (s ++ String c "") = strip_chars p s.
Proof.
  intros Hc. unfold strip_chars. rewrite (lstrip_snoc _ _ _ Hc).
  destruct (lstrip p s) as [|x y]; [reflexivity|]. cbn [is_empty].
  now apply rstrip_snoc.
Qed.

(** *** Cutting at [=] *)

Lemma before_char_skip (c : ascii) (a s : string) :
  contains (String c "") a = false ->
  before (String c "") (a ++ s) = a ++ before (String c "") s.
Proof.
  induction a as [|x a IH]; [reflexivity|].
  rewrite contains_char_cons. intros H. apply orb_false_elim in H as [Hx Ha].
  change (String x a ++ s) with (String x (a ++ s)). cbn [before].
  rewrite prefix_char, Hx. cbn [append]. now rewrite (IH Ha).
Qed.

Lemma before_char_absent (c : ascii) (s : string) :
  contains (String c "") s = false -> before (String c "") s = s.
Proof.
  intros H. rewrite <- (append_empty_r s) at 1.
  rewrite (before_char_skip _ _ _ H). cbn [before]. apply append_empty_r.
Qed.

Lemma before_char_app (c : ascii) (s t : string) :
  contains (String c "") s = true ->
  before (String c "") (s ++ t) = before (String c "") s.
Proof.
  induction s as [|x s IH]; [discriminate|].
  rewrite contains_char_cons.
  change (String x s ++ t) with (String x (s ++ t)). cbn [before].
  rewrite !prefix_char. destruct (Ascii.eqb c x); [reflexivity|].
  cbn [orb]. intros H. now rewrite (IH H).
Qed.

Lemma before_prefix (m s : string) : exists r, s = before m s ++ r.
Proof.
  induction s as [|c s [r Hr]]; [now exists ""|]. cbn [before].
  destruct (prefix m (String c s)); [now exists (String c s)|].
  exists r. cbn [append]. now rewrite <- Hr.
Qed.

Lemma index_split_0 (sep s : string) :
  index (split sep s) 0 = Ok (before sep s).
Proof.
  rewrite <- hd_split. unfold split.
  now destruct (split_from sep 0 s).
Qed.

(** The piece that [split('=')[1]] takes. *)
Lemma index_split_1 (k v : string) :
  contains "=" k = false ->
  index (split "=" (k ++ String "=" v)) 1 = Ok (before "=" v).
Proof.
  intros Hk. rewrite split_char_app by exact Hk.
  exact (index_split_0 "=" v).
Qed.

Lemma before_quoted (value : string) :
  strip_dquote (String dquote (before "=" (value ++ String dquote "")))
  = strip_dquote (kept value)
  /\ rstrip is_dquote (String dquote (before "=" (value ++ String dquote "")))
     = rstrip is_dquote (String dquote (kept value)).
Proof.
  unfold kept. destruct (contains "=" value) eqn:Hv.
  - rewrite (before_char_app _ _ _ Hv). split; reflexivity.
  - rewrite (before_char_absent _ value Hv).
    rewrite (before_char_absent _ (value ++ String dquote ""))
      by (rewrite contains_char_app, Hv; reflexivity).
    split.
    + unfold strip_dquote.
      change (String dquote (value ++ String dquote ""))
        with (String dquote value ++ String dquote "").
      now rewrite strip_chars_snoc.
    + change (String dquote (value ++ String dquote ""))
        with (String dquote value ++ String dquote "").
      now rewrite rstrip_snoc.
Qed.

(** The arguments that line 97 takes from a line [key = "value"]: with
    the opening quote right after [=] the quotes at both ends of the kept
    part go; after a blank the opening quote stays. *)
Lemma klipper_args_quoted (key ws1 ws2 value trail : string) :
  contains "=" key = false ->
  all_chars is_space ws1 = true ->
  all_chars is_space ws2 = true ->
  all_chars is_space trail = true ->
  klipper_args (env_line key ws1 ws2 value trail)
  = Ok (split_ws (if is_empty ws2 then strip_dquote (kept value)
                  else rstrip is_dquote (String dquote (kept value)))).
Proof.
  intros Hkey Hws1 Hws2 Htrail. unfold klipper_args.
  rewrite strip_env_line by exact Htrail.
  rewrite index_split_1.
  2: { apply contains_lstrip. rewrite contains_char_app, Hkey.
       now rewrite (all_chars_without is_space "=" ws1 Hws1 eq_refl). }
  cbn [rbind].
  rewrite before_char_skip
    by exact (all_chars_without is_space "=" ws2 Hws2 eq_refl).
  change (before "=" (String dquote (value ++ String dquote "")))
    with (String dquote (before "=" (value ++ String dquote ""))).
  destruct (before_quoted value) as [H0 H1].
  destruct ws2 as [|c w]; cbn [is_empty].
  - cbn [append]. now rewrite H0.
  - unfold strip_dquote, strip_chars.
    cbn [all_chars] in Hws2. apply andb_prop in Hws2 as [Hc Hw].
    rewrite lstrip_id
      by (cbn [append first_char holds_at]; now rewrite (space_not_dquote _ Hc)).
    rewrite rstrip_app_keep.
    + rewrite H1. rewrite split_ws_blank; [reflexivity|].
      cbn [all_chars]. now rewrite Hc, Hw.
    + assert (Hl : holds_at is_space (last_char (String c w)) = true).
      { apply all_chars_last; [|discriminate]. cbn [all_chars].
        now rewrite Hc, Hw. }
      destruct (last_char (String c w)) as [d|]; [|discriminate Hl].
      cbn [holds_at] in *. now rewrite (space_not_dquote _ Hl).
Qed.

(** ** Positions 1 and 5 *)

Lemma index_tl {A} (l : list A) (i : nat) : index l (S i) = index (tl l) i.
Proof. destruct l; [destruct i|]; reflexivity. Qed.

Lemma nth_error_tl_S {A} (l : list A) (i : nat) :
  nth_error l (S i) = nth_error (tl l) i.
Proof. destruct l; [destruct i|]; reflexivity. Qed.

Lemma index_nth_error {A} (l l' : list A) (i : nat) :
  nth_error l i = nth_error l' i -> index l i = index l' i.
Proof. unfold index. now intros ->. Qed.

Lemma split_ws_nonempty (s : string) :
  (0 < List.length (split_ws s))%nat -> s <> "".
Proof. intros H ->. cbn in H. lia. Qed.

(** Text without whitespace glued to the first token of [y]. *)
Lemma glued_positions (g y : string) :
  all_chars (fun c => negb (is_space c)) g = true ->
  holds_at (fun c => negb (is_space c)) (first_char y) = true ->
  List.length (split_ws (g ++ y)) = List.length (split_ws y)
  /\ tl (split_ws (g ++ y)) = tl (split_ws y)
  /\ last_char (g ++ y) = last_char y.
Proof.
  intros Hg Hy. destruct (split_ws_glued g y Hg Hy) as (w & l & H1 & H2).
  rewrite H1, H2. repeat split.
  apply last_char_append. destruct y; [discriminate | discriminate].
Qed.

(** What [rstrip] takes from the end reaches no position below the last. *)
Lemma rstrip_positions (s : string) (i : nat) :
  (7 <= List.length (split_ws s))%nat
  \/ holds_at is_dquote (last_char s) = false ->
  (i < 6)%nat ->
  nth_error (split_ws (rstrip is_dquote s)) i = nth_error (split_ws s) i.
Proof.
  intros Hs Hi. destruct (rstrip_split is_dquote s) as (t & Ht & Hq).
  destruct t as [|c t].
  - rewrite append_empty_r in Ht. now rewrite <- Ht.
  - assert (Hlast : holds_at is_dquote (last_char s) = true).
    { rewrite Ht, last_char_append by discriminate.
      apply all_chars_last; [exact Hq | discriminate]. }
    destruct Hs as [Hs | Hs]; [| congruence].
    rewrite Ht at 2. apply grown_at_end_nth.
    + apply split_ws_snoc; [discriminate | now apply all_dquote_not_space].
    + rewrite <- Ht. lia.
Qed.

Lemma closing_kept_cases (value : string) :
  closing_kept value = true ->
  (7 <= List.length (split_ws value))%nat
  \/ holds_at is_dquote (last_char value) = false.
Proof.
  unfold closing_kept. intros H. apply orb_prop in H as [H | H].
  - left. now apply Nat.leb_le.
  - right. now apply negb_true_iff.
Qed.

(** The arguments at positions 1 and 5 are the tokens of the value at
    these positions. *)
Lemma args_positions (ws2 value : string) (i : nat) :
  (6 <= List.length (split_ws value))%nat ->
  opening_kept ws2 value = true ->
  closing_kept value = true ->
  (1 <= i < 6)%nat ->
  nth_error (split_ws (if is_empty ws2 then strip_dquote value
                       else rstrip is_dquote (String dquote value))) i
  = nth_error (split_ws value) i.
Proof.
  intros Hlen Hopen Hclose Hi. apply closing_kept_cases in Hclose.
  assert (Hne : value <> "") by (apply split_ws_nonempty; lia).
  destruct i as [|i]; [lia|].
  unfold opening_kept in Hopen. destruct (is_empty ws2).
  - unfold strip_dquote, strip_chars.
    apply negb_true_iff in Hopen. unfold begins_with_loose_quote in Hopen.
    destruct (holds_at is_dquote (first_char value)) eqn:Hq.
    + cbn [andb] in Hopen. apply negb_false_iff in Hopen.
      destruct (lstrip_split is_dquote value) as (q & Hv & Hall).
      destruct (glued_positions q (lstrip is_dquote value)
                  (all_dquote_not_space _ Hall) Hopen) as (H1 & H2 & H3).
      rewrite <- Hv in H1, H2, H3.
      rewrite rstrip_positions; [| rewrite <- H1, <- H3; exact Hclose | lia].
      rewrite !nth_error_tl_S. now rewrite H2.
    + rewrite lstrip_id.
      * apply rstrip_positions; [exact Hclose | lia].
      * destruct value as [|c v]; [congruence|]. cbn [first_char holds_at] in *.
        now rewrite Hq.
  - destruct (glued_positions (String dquote "") value eq_refl Hopen)
      as (H1 & H2 & H3).
    change (String dquote "" ++ value) with (String dquote value) in *.
    rewrite rstrip_positions; [| rewrite H1, H3; exact Hclose | lia].
    rewrite !nth_error_tl_S. now rewrite H2.
Qed.

(** ** The environment file: which tokens come back *)

Lemma kept_absent (value : string) :
  contains "=" value = false -> kept value = value.
Proof. apply before_char_absent. Qed.

(** C2, as amended: for a first line made of a key without [=], the
    [=] with or without blanks around it, a double-quoted value and
    nothing but whitespace after the closing quote, where the value has
    at least six whitespace-separated tokens and no [=], does not begin
    with double quotes that stand alone before whitespace (or, when
    blanks separate the [=] from the opening quote, does not begin with
    whitespace), and has a seventh token or does not end with a double
    quote, the extraction returns the token at position 1 as the
    printer-config path and the token at position 5 as the log-file
    path. *)
Theorem klipper_paths_positions (key ws1 ws2 value trail : string) :
  contains "=" key = false ->
  all_chars is_space ws1 = true ->
  all_chars is_space ws2 = true ->
  all_chars is_space trail = true ->
  contains "=" value = false ->
  (6 <= List.length (split_ws value))%nat ->
  opening_kept ws2 value = true ->
  closing_kept value = true ->
  klipper_paths (env_line key ws1 ws2 value trail)
  = Ok (nth 1 (split_ws value) "", nth 5 (split_ws value) "").
Proof.
  intros Hkey Hws1 Hws2 Htrail Hval Hlen Hopen Hclose.
  unfold klipper_paths.
  rewrite klipper_args_quoted by assumption. cbn [rbind].
  rewrite (kept_absent _ Hval).
  rewrite (index_nth_error _ _ 1
             (args_positions ws2 value 1 Hlen Hopen Hclose ltac:(lia))).
  rewrite (index_nth_error _ _ 5
             (args_positions ws2 value 5 Hlen Hopen Hclose ltac:(lia))).
  rewrite (index_nth _ 1 "") by lia. rewrite (index_nth _ 5 "") by lia.
  reflexivity.
Qed.

Lemma klipper_paths_positions_witness :
  klipper_paths (env_line "KLIPPER_ARGS" "" "" standard_value nl)
  = Ok (nth 1 (split_ws standard_value) "", nth 5 (split_ws standard_value) "").
Proof.
  refine (klipper_paths_positions "KLIPPER_ARGS" "" "" standard_value nl
            _ _ _ _ _ _ _ _).
  - reflexivity.
  - reflexivity.
  - reflexivity.
  - reflexivity.
  - reflexivity.
  - vm_compute. lia.
  - reflexivity.
  - reflexivity.
Defined.

(** The claim C2 as stated fails in five ways.  A token with an [=] is
    cut there.  A double quote that begins the value and stands alone is
    stripped, so every token moves down one place.  A double quote that
    ends a value of six tokens is stripped from the token at position 5.
    With a blank after [=] the opening quote is not stripped: before a
    value that begins with whitespace it becomes a token and every token
    moves up one place.  And with text after the closing quote that quote
    is not stripped either: it stays on the token at position 5. *)
Lemma klipper_paths_cut_or_shifted :
  (List.length (split_ws value_with_equals) = 6
   /\ nth 5 (split_ws value_with_equals) ""
      = "/home/pi/printer_data/logs/run=1/klippy.log"
   /\ klipper_paths (env_line "KLIPPER_ARGS" "" "" value_with_equals nl)
      = Ok ("/home/pi/printer_data/config/printer.cfg",
            "/home/pi/printer_data/logs/run"))
  /\ (let value := String dquote " a b c d e f g" in
      List.length (split_ws value) = 8
      /\ (nth 1 (split_ws value) "", nth 5 (split_ws value) "") = ("a", "e")
      /\ klipper_paths (env_line "K" "" "" value nl) = Ok ("b", "f"))
  /\ (let value := "a b c d e f" ++ String dquote "" in
      List.length (split_ws value) = 6
      /\ nth 5 (split_ws value) "" = "f" ++ String dquote ""
      /\ klipper_paths (env_line "K" "" "" value nl) = Ok ("b", "f"))
  /\ (let value := " a b c d e f g" in
      List.length (split_ws value) = 7
      /\ (nth 1 (split_ws value) "", nth 5 (split_ws value) "") = ("b", "f")
      /\ klipper_paths (env_line "K" "" " " value nl) = Ok ("a", "e"))
  /\ (let value := "a b c d e f" in
      List.length (split_ws value) = 6
      /\ (nth 1 (split_ws value) "", nth 5 (split_ws value) "") = ("b", "f")
      /\ klipper_paths (env_line "K" "" "" value " x")
         = Ok ("b", "f" ++ String dquote "")).
Proof. vm_compute. repeat split. Qed.

(** ** Blanks around [=] *)

Lemma klipper_paths_tl (a b : list string) :
  tl a = tl b ->
  (printer_cfg_path <- index a 1 ;;
   log_file_path <- index a 5 ;;
   Ok (printer_cfg_path, log_file_path))%result
  = (printer_cfg_path <- index b 1 ;;
     log_file_path <- index b 5 ;;
     Ok (printer_cfg_path, log_file_path))%result.
Proof. intros H. rewrite !index_tl. now rewrite H. Qed.

(** With or without blanks after [=], the arguments differ at most in
    the first one when the value begins with a token. *)
Lemma args_blank_after_equals (value : string) :
  begins_with_token value = true ->
  tl (split_ws (rstrip is_dquote (String dquote (kept value))))
  = tl (split_ws (strip_dquote (kept value))).
Proof.
  unfold begins_with_token, kept. intros Hv.
  destruct (lstrip_split is_dquote value) as (q & Hq & Hall).
  pose proof (lstrip_first is_dquote value) as Hfirst.
  destruct (lstrip is_dquote value) as [|c rest]; [discriminate Hv|].
  cbn [first_char holds_at] in Hv, Hfirst.
  assert (Hqe : contains "=" q = false)
    by exact (all_chars_without is_dquote "=" q Hall eq_refl).
  rewrite Hq, (before_char_skip _ _ _ Hqe).
  cbn [before]. rewrite prefix_char.
  destruct (Ascii.eqb "=" c) eqn:Hc.
  - rewrite !append_empty_r.
    assert (H1 : rstrip is_dquote (String dquote q) = "")
      by (apply rstrip_all; cbn [all_chars]; now rewrite Hall).
    assert (H2 : strip_dquote q = "").
    { unfold strip_dquote, strip_chars. rewrite <- (append_empty_r q).
      now rewrite (lstrip_all _ _ _ Hall). }
    now rewrite H1, H2.
  - set (r := before "=" rest).
    assert (Hr : rstrip is_dquote (String c r)
                 = String c (rstrip is_dquote r)).
    { cbn [rstrip]. now rewrite Hfirst, andb_false_r. }
    unfold strip_dquote, strip_chars.
    rewrite (lstrip_all _ _ _ Hall). cbn [lstrip]. rewrite Hfirst.
    change (String dquote (q ++ String c r))
      with (String dquote q ++ String c r).
    rewrite rstrip_app_nonempty by now rewrite Hr.
    rewrite Hr.
    destruct (split_ws_glued (String dquote q) (String c (rstrip is_dquote r)))
      as (w & l & H1 & H2).
    + cbn [all_chars]. now rewrite (all_dquote_not_space _ Hall).
    + exact Hv.
    + now rewrite H1, H2.
Qed.

Lemma klipper_paths_quoted (key ws1 ws2 value trail : string) :
  contains "=" key = false ->
  all_chars is_space ws1 = true ->
  all_chars is_space ws2 = true ->
  all_chars is_space trail = true ->
  klipper_paths (env_line key ws1 ws2 value trail)
  = (let args := split_ws (if is_empty ws2 then strip_dquote (kept value)
                           else rstrip is_dquote (String dquote (kept value))) in
     printer_cfg_path <- index args 1 ;;
     log_file_path <- index args 5 ;;
     Ok (printer_cfg_path, log_file_path))%result.
Proof.
  intros. unfold klipper_paths. now rewrite klipper_args_quoted by assumption.
Qed.

Lemma klipper_paths_blanks (key ws1 ws2 value trail : string) :
  contains "=" key = false ->
  all_chars is_space ws1 = true ->
  all_chars is_space ws2 = true ->
  all_chars is_space trail = true ->
  klipper_paths (env_line key ws1 ws2 value trail)
  = klipper_paths (env_line key "" ws2 value trail)
  /\ (begins_with_token value = true ->
      klipper_paths (env_line key ws1 ws2 value trail)
      = klipper_paths (env_line key "" "" value trail)).
Proof.
  intros Hkey Hws1 Hws2 Htrail.
  rewrite !klipper_paths_quoted by (assumption || reflexivity).
  split; [reflexivity|]. intros Hv. cbn [is_empty].
  destruct (is_empty ws2); [reflexivity|]. cbv zeta.
  apply klipper_paths_tl. now apply args_blank_after_equals.
Qed.

Lemma strip_blank_before (ws s : string) :
  all_chars is_space ws = true -> strip (ws ++ s) = strip s.
Proof. intros H. unfold strip, strip_chars. now rewrite lstrip_all. Qed.

(** The value of an [EnvironmentFile] line. *)
Lemma service_line_value (ws1 ws2 path trail : string) :
  all_chars is_space ws1 = true ->
  all_chars is_space ws2 = true ->
  (v <- index (split "=" (service_line ws1 ws2 path trail)) 1 ;;
   Ok (strip v))%result
  = Ok (strip (before "=" (path ++ trail))).
Proof.
  intros Hws1 Hws2. unfold service_line.
  change ("=" ++ ws2 ++ path ++ trail) with (String "=" (ws2 ++ path ++ trail)).
  rewrite <- append_assoc, index_split_1.
  - cbn [rbind].
    rewrite before_char_skip
      by exact (all_chars_without is_space "=" ws2 Hws2 eq_refl).
    now rewrite strip_blank_before.
  - rewrite contains_char_app.
    now rewrite (all_chars_without is_space "=" ws1 Hws1 eq_refl).
Qed.

Lemma environment_file_path_blanks
      (pre post : list string) (ws1 ws2 path trail : string) :
  all_chars is_space ws1 = true ->
  all_chars is_space ws2 = true ->
  environment_file_path (pre ++ service_line ws1 ws2 path trail :: post)
  = environment_file_path (pre ++ service_line "" "" path trail :: post).
Proof.
  intros Hws1 Hws2. unfold environment_file_path, environment_file_line.
  rewrite !filter_app. cbn [filter].
  assert (Hs : forall a b, startswith (service_line a b path trail)
                                      "EnvironmentFile" = true).
  { intros a b. unfold startswith, service_line. apply prefix_append. }
  rewrite !Hs.
  destruct (filter (fun line => startswith line "EnvironmentFile") pre)
    as [|l0 ls]; [| reflexivity].
  cbn [app is_nil index nth_error rbind].
  rewrite (service_line_value ws1 ws2 path trail Hws1 Hws2).
  now rewrite (service_line_value "" "" path trail eq_refl eq_refl).
Qed.

(** C6, as amended: what the Locator extracts is a function of the
    contents of the two files.  Blanks before and after the [=] of the
    [EnvironmentFile] line never change the path of the environment file.
    In a first line made of a key without [=], the [=], a double-quoted
    value and nothing but whitespace after the closing quote, blanks
    before the [=] never change the two extracted paths, and blanks
    after it do not change them either when the value goes on, after any
    double quotes at its beginning, with a character that is not
    whitespace. *)
Theorem extraction_ignores_blanks_around_equals :
  (forall (E : env) (st : state E) (lines : list string) (path line : string),
      In (Called (readlines klipper_service_path) (Ok lines))
         (trace (run E locate st)) ->
      In (Called (readline path) (Ok line)) (trace (run E locate st)) ->
      environment_file_path lines = Ok path
      /\ outcome (run E locate st) = klipper_paths line)
  /\ (forall (pre post : list string) (ws1 ws2 path trail : string),
        all_chars is_space ws1 = true ->
        all_chars is_space ws2 = true ->
        environment_file_path (pre ++ service_line ws1 ws2 path trail :: post)
        = environment_file_path (pre ++ service_line "" "" path trail :: post))
  /\ (forall (key ws1 ws2 value trail : string),
        contains "=" key = false ->
        all_chars is_space ws1 = true ->
        all_chars is_space ws2 = true ->
        all_chars is_space trail = true ->
        klipper_paths (env_line key ws1 ws2 value trail)
        = klipper_paths (env_line key "" ws2 value trail)
        /\ (begins_with_token value = true ->
            klipper_paths (env_line key ws1 ws2 value trail)
            = klipper_paths (env_line key "" "" value trail))).
Proof.
  split; [|split].
  - intros E st lines path line H1 H2.
    apply (wp_sound _ _ locate_deterministic E st lines path line).
    + exact (in_map lines_read _ _ H1).
    + exact (in_map line_read_at _ _ H2).
  - intros pre post ws1 ws2 path trail Hws1 Hws2.
    now apply environment_file_path_blanks.
  - intros key ws1 ws2 value trail Hkey Hws1 Hws2 Htrail.
    now apply klipper_paths_blanks.
Qed.

Lemma extraction_ignores_blanks_around_equals_witness :
  klipper_paths (env_line "KLIPPER_ARGS" " " "  " standard_value nl)
  = klipper_paths (env_line "KLIPPER_ARGS" "" "" standard_value nl).
Proof.
  refine (proj2 (proj2 (proj2 extraction_ignores_blanks_around_equals)
                   "KLIPPER_ARGS" " " "  " standard_value nl _ _ _ _) _).
  - reflexivity.
  - reflexivity.
  - reflexivity.
  - reflexivity.
  - reflexivity.
Defined.

(** The claim C6 as stated fails for a value that begins with
    whitespace: without a blank after [=] the opening quote is stripped
    and positions 1 and 5 hold [b] and [f]; with a blank after [=] the
    quote stays, becomes the first argument, and the two paths are [a]
    and [e]. *)
Lemma blank_after_equals_moves_positions :
  let value := " a b c d e f g" in
  klipper_paths (env_line "K" "" "" value nl) = Ok ("b", "f")
  /\ klipper_paths (env_line "K" "" " " value nl) = Ok ("a", "e").
Proof. split; reflexivity. Qed.

(** ** A value with fewer than six tokens *)

Lemma strip_dquote_length (x : string) :
  (List.length (split_ws (strip_dquote x)) <= List.length (split_ws x))%nat.
Proof.
  unfold strip_dquote, strip_chars.
  destruct (lstrip_split is_dquote x) as (q & Hq & Hall).
  destruct (rstrip_split is_dquote (lstrip is_dquote x)) as (t & Ht & _).
  pose proof (split_ws_length_app (rstrip is_dquote (lstrip is_dquote x)) t)
    as H1.
  rewrite <- Ht in H1.
  pose proof (split_ws_length_cons q (lstrip is_dquote x)
                (all_dquote_not_space _ Hall)) as H2.
  rewrite <- Hq in H2. lia.
Qed.

Lemma kept_length (value : string) :
  (List.length (split_ws (kept value)) <= List.length (split_ws value))%nat.
Proof.
  unfold kept. destruct (before_prefix "=" value) as [r Hr].
  pose proof (split_ws_length_app (before "=" value) r) as H.
  now rewrite <- Hr in H.
Qed.

Lemma kept_first (value : string) :
  holds_at is_space (first_char value) = false ->
  kept value = ""
  \/ holds_at (fun c => negb (is_space c)) (first_char (kept value)) = true.
Proof.
  unfold kept. destruct value as [|c v]; [now left|].
  cbn [first_char holds_at before]. intros Hc.
  destruct (prefix "=" (String c v)); [now left|].
  right. cbn [first_char holds_at]. now rewrite Hc.
Qed.

(** With fewer than six tokens in the value, fewer than six arguments
    come back. *)
Lemma short_quoted_line_args (first_line : string) :
  short_quoted_line first_line ->
  exists args,
    klipper_args first_line = Ok args /\ (List.length args < 6)%nat.
Proof.
  intros (key & ws1 & ws2 & value & trail & -> & Hkey & Hws1 & Hws2 & Htrail
          & Hglued & Hlen).
  eexists. split; [now apply klipper_args_quoted|].
  pose proof (kept_length value) as Hk.
  unfold opening_glued in Hglued. destruct (is_empty ws2).
  - pose proof (strip_dquote_length (kept value)). lia.
  - cbn [orb] in Hglued. apply negb_true_iff in Hglued.
    destruct (kept_first value Hglued) as [He | Hf].
    + rewrite He. cbn. lia.
    + destruct (rstrip_split is_dquote (String dquote (kept value)))
        as (t & Ht & _).
      pose proof (split_ws_length_app
                    (rstrip is_dquote (String dquote (kept value))) t) as H1.
      rewrite <- Ht in H1.
      destruct (glued_positions (String dquote "") (kept value) eq_refl Hf)
        as (H2 & _ & _).
      change (String dquote "" ++ kept value)
        with (String dquote (kept value)) in H2.
      lia.
Qed.

(** C10, as amended: when the first line of the environment file has no
    [=], or is a key without [=], the [=] with or without blanks around
    it, a double-quoted value of fewer than six whitespace-separated
    tokens and nothing but whitespace after the closing quote, with the
    opening quote right after the [=] or a value that does not begin
    with whitespace, the token access raises [IndexError]; the handler
    of [main] reports it as the single failure message, and up to then
    nothing was created, copied, archived or started. *)
Theorem malformed_environment_file_aborts
        (E : env) (st : state E) (path first_line : string) :
  In (Called (readline path) (Ok first_line)) (trace (run E main st)) ->
  contains "=" first_line = false \/ short_quoted_line first_line ->
  outcome (run E main_body st) = Raised (IndexError "list index out of range")
  /\ outcome (run E main st) = Ok tt
  /\ trace (run E main st)
     = (trace (run E main_body st)
        ++ [Printed (fail_line "list index out of range")])%list
  /\ fail_lines (trace (run E main st)) = [fail_line "list index out of range"]
  /\ Forall (fun ev => harmless ev = true) (trace (run E main st)).
Proof.
  intros Hin Hbad.
  assert (Hpaths : klipper_paths first_line = Raised index_error).
  { apply klipper_paths_malformed. destruct Hbad as [H | H]; [now left|].
    right. now apply short_quoted_line_args. }
  pose proof (wp_sound _ _ main_body_malformed E st) as Hbody.
  assert (Hin' : In (Some first_line)
                    (map line_read (trace (run E main_body st)))).
  { destruct (outcome (run E main_body st)) as [[]|e] eqn:Hout.
    - destruct (main_after_success E st Hout) as (_ & H2 & _).
      rewrite H2 in Hin. exact (in_map line_read _ _ Hin).
    - destruct (main_after_error E st e Hout) as (_ & H2 & _).
      rewrite H2 in Hin. apply in_app_or in Hin as [Hin | [Hin | []]].
      + exact (in_map line_read _ _ Hin).
      + discriminate Hin. }
  destruct (Hbody first_line Hin' Hpaths) as [Hout Hharm].
  destruct (main_after_error E st _ Hout) as (H1 & H2 & H3).
  repeat split; auto.
  rewrite H2. apply Forall_app. split; [exact Hharm | repeat constructor].
Qed.

Lemma malformed_environment_file_aborts_witness :
  fail_lines (trace (run (scenario_env (with_env_line "KLIPPER_ARGS")) main 0))
  = [fail_line "list index out of range"]
  /\ fail_lines
       (trace (run (scenario_env (with_env_line four_arguments_line)) main 0))
     = [fail_line "list index out of range"].
Proof.
  split.
  - refine (proj1 (proj2 (proj2 (proj2
      (malformed_environment_file_aborts
         (scenario_env (with_env_line "KLIPPER_ARGS")) 0
         "/home/pi/printer_data/systemd/klipper.env" "KLIPPER_ARGS" _ _))))).
    + vm_compute. do 10 right. left. reflexivity.
    + left. vm_compute. reflexivity.
  - refine (proj1 (proj2 (proj2 (proj2
      (malformed_environment_file_aborts
         (scenario_env (with_env_line four_arguments_line)) 0
         "/home/pi/printer_data/systemd/klipper.env" four_arguments_line
         _ _))))).
    + vm_compute. do 10 right. left. reflexivity.
    + right.
      exists "KLIPPER_ARGS", "", "",
        "-c /home/pi/printer_data/config/printer.cfg -l /tmp/klippy.log", nl.
      repeat split; try reflexivity. vm_compute. lia.
Defined.

(** The claim C10 as stated fails for two lines whose quoted value has
    five tokens.  Text after the closing quote is a sixth argument, and
    with a blank after [=] the opening quote is one before a value that
    begins with whitespace: six arguments come back, no error is raised
    and the run goes on to its end. *)
Lemma short_value_does_not_always_abort :
  (List.length (split_ws "a b c d e") = 5
   /\ klipper_paths text_after_quote_line = Ok ("b", "x")
   /\ outcome (run (scenario_env (with_env_line text_after_quote_line))
                   main_body 0) = Ok tt
   /\ fail_lines (trace (run (scenario_env (with_env_line text_after_quote_line))
                             main 0)) = [])
  /\ (List.length (split_ws " a b c d e") = 5
      /\ klipper_paths blank_after_equals_line = Ok ("a", "e")
      /\ outcome (run (scenario_env (with_env_line blank_after_equals_line))
                      main_body 0) = Ok tt
      /\ fail_lines
           (trace (run (scenario_env (with_env_line blank_after_equals_line))
                       main 0)) = []).
Proof. vm_compute. repeat split. Qed.

(** ** Errors and the archive *)














(** ** The Packager, with the names written out *)

Lemma join_all_concat (l : list string) :
  Path.join_all l = String.concat "/" l.
Proof.
  induction l as [|x [|y l] IH]; try reflexivity.
  cbn [Path.join_all String.concat] in *. now rewrite IH.
Qed.

Lemma forallb_plain_snoc (dirs : list string) (file : string) :
  forallb plain_name dirs = true -> plain_name file = true ->
  forallb plain_name (dirs ++ [file]) = true.
Proof.
  intros Hd Hf. rewrite forallb_app, Hd. cbn [forallb]. now rewrite Hf.
Qed.

(** The files of a plain layout, by their paths and their relative
    names. *)
Lemma walked_files_layout
      (layout : list (list string * list string * list string)) :
  plain_layout layout = true ->
  walked_files (map scratch_triple layout)
  = map (append "/tmp/klipper_support/") (relative_names layout)
  /\ Forall (fun rel =>
               Path.relpath ("/tmp/klipper_support/" ++ rel) support_dir
               = Ok rel)
            (relative_names layout).
Proof.
  unfold plain_layout, walked_files, relative_names.
  induction layout as [|[[dirs subdirs] files] layout IH]; intros H.
  - split; [reflexivity | constructor].
  - cbn [forallb fst snd] in H. apply andb_prop in H as [Ht Hl].
    apply andb_prop in Ht as [Hd Hf]. destruct (IH Hl) as [IH1 IH2].
    cbn [map flat_map scratch_triple fst snd]. rewrite map_app, IH1.
    change "/tmp/klipper_support" with support_dir.
    rewrite <- (below_slashed support_dir dirs eq_refl eq_refl Hd).
    assert (Hfiles :
              map (Path.join (below support_dir dirs)) files
              = map (append "/tmp/klipper_support/")
                    (map (fun file => String.concat "/" (dirs ++ [file])) files)
              /\ Forall (fun rel =>
                           Path.relpath ("/tmp/klipper_support/" ++ rel)
                                        support_dir = Ok rel)
                        (map (fun file => String.concat "/" (dirs ++ [file]))
                             files)).
    { clear -Hd Hf. induction files as [|file files IHf].
      - split; [reflexivity | constructor].
      - cbn [forallb] in Hf. apply andb_prop in Hf as [Hfile Hfiles].
        destruct (IHf Hfiles) as [H1 H2].
        destruct (relpath_below_scratch dirs file
                    (forallb_plain_snoc _ _ Hd Hfile)) as [Hj Hr].
        rewrite join_all_concat in Hj, Hr.
        cbn [map]. rewrite H1, Hj. split; [reflexivity|].
        constructor; [now rewrite <- Hj | exact H2]. }
    destruct Hfiles as [H1 H2]. rewrite H1. split; [reflexivity|].
    apply Forall_app. now split.
Qed.

(** The entries of a packaging are those of the layout. *)
Lemma entries_of_layout (entries : list entry) (names : list string) :
  map abs_path entries = map (append "/tmp/klipper_support/") names ->
  Forall named_relative entries ->
  Forall (fun rel =>
            Path.relpath ("/tmp/klipper_support/" ++ rel) support_dir = Ok rel)
         names ->
  flat_map entry_events entries
  = flat_map
      (fun nt =>
         [Called (strftime timestamp_format) (Ok (snd nt));
          Called (zip_write zip_path ("/tmp/klipper_support/" ++ fst nt)
                            (fst nt ++ "_" ++ snd nt)) (Ok tt)])
      (combine names (map timestamp entries)).
Proof.
  revert names. induction entries as [|en entries IH]; intros names Hmap Hrel Hn.
  - destruct names; [reflexivity | discriminate].
  - destruct names as [|rel names]; [discriminate|].
    pose proof (f_equal (hd "") Hmap) as Habs. cbn [map hd] in Habs.
    apply (f_equal (@tl string)) in Hmap. cbn [map tl] in Hmap.
    apply Forall_cons_iff in Hrel as [Hen Hrel].
    apply Forall_cons_iff in Hn as [Hr Hn].
    cbv beta in Hr. unfold named_relative in Hen. rewrite Habs, Hr in Hen.
    injection Hen as Harc.
    cbn [flat_map map combine fst snd]. rewrite (IH names Hmap Hrel Hn).
    unfold entry_events. now rewrite Habs, <- Harc.
Qed.

Lemma entry_events_no_walk (entries : list entry) :
  Forall (fun ev => walked ev = None) (flat_map entry_events entries).
Proof.
  induction entries as [|en entries IH]; [constructor|].
  cbn [flat_map entry_events app]. repeat constructor. exact IH.
Qed.

Lemma not_walked (tr : list event)
      (triples : list (string * list string * list string)) :
  Forall (fun ev => walked ev = None) tr -> ~ In (Some triples) (map walked tr).
Proof.
  intros H Hin. apply in_map_iff in Hin as (ev & Hev & Hin).
  rewrite Forall_forall in H. rewrite (H ev Hin) in Hev. discriminate.
Qed.

Ltac walked_cases H :=
  repeat (rewrite map_app in H || rewrite in_app_iff in H
          || cbn [map walked In app] in H).

(** The Packager walks once. *)
Lemma compress_support_folder_walks_once :
  wp compress_support_folder
     (fun _ tr =>
        forall triples1 triples2,
          In (Some triples1) (map walked tr) ->
          In (Some triples2) (map walked tr) -> triples1 = triples2).
Proof.
  unfold compress_support_folder, status_message, step_message, print.
  cbn [bind wp]. unfold call at 1. cbn [bind wp response].
  intros [[]|e]; cbn [bind wp].
  2: { intros t1 t2 H1 _. walked_cases H1. intuition discriminate. }
  apply wp_bind. apply wp_finally.
  unfold call at 1. cbn [bind wp response].
  assert (Hloop : forall triples : list (string * list string * list string),
             wp (for_each triples (fun '(root, dirs, files) =>
                   for_each files (fun file => add_to_archive root file)))
                (always (fun ev => walked ev = None))).
  { intros triples. apply always_for_each. intros [[root dirs] files].
    apply always_for_each. intros file. unfold add_to_archive.
    repeat always_step; reflexivity. }
  intros [triples|e]; cbn [bind wp].
  - eapply wp_mono; [|apply Hloop].
    intros out tr Htr. unfold call. cbn [wp response].
    intros [[]|e']; cbn [wp]; destruct out as [[]|e]; cbn [wp];
      intros t1 t2 H1 H2; walked_cases H1; walked_cases H2;
      pose proof (not_walked tr t1 Htr); pose proof (not_walked tr t2 Htr);
      intuition congruence.
  - intros [[]|e']; cbn [bind wp]; intros t1 t2 H1 _; walked_cases H1;
      intuition discriminate.
Qed.

Lemma scratch_paths_nonempty (names : list string) :
  Forall (fun path => path <> "") (map (append "/tmp/klipper_support/") names).
Proof.
  apply Forall_forall. intros path Hin.
  apply in_map_iff in Hin as (rel & <- & _). discriminate.
Qed.

(** C8: the Packager opens one archive at the fixed temporary path,
    walks the scratch directory and adds every file that the walk
    reports, wherever it lies below the scratch directory.  For a
    scratch directory whose walk reports the directories and files of
    [layout], all of plain names, a run that ends normally is exactly:
    the step line, the opening of the archive, the walk, then for each
    file of the layout in the order of the walk one reading of the clock
    and one write of the file
    [/tmp/klipper_support/<relative path>] under the name
    [<relative path>_<reading>], where the relative path is the
    directories from the scratch directory down to the file and the file
    name joined by [/], and last the closing of the archive and the
    success line.  The run ends normally whenever no call raises. *)
Theorem every_walked_file_is_archived
        (E : env) (st : state E)
        (layout : list (list string * list string * list string)) :
  plain_layout layout = true ->
  In (Called (walk support_dir) (Ok (map scratch_triple layout)))
     (trace (run E compress_support_folder st)) ->
  (outcome (run E compress_support_folder st) = Ok tt ->
   exists stamps,
     List.length stamps = List.length (relative_names layout)
     /\ trace (run E compress_support_folder st)
        = ([Printed (step_line "Compressing support folder");
            Called (zip_open "/tmp/klipper_support.zip") (Ok tt);
            Called (walk "/tmp/klipper_support")
                   (Ok (map scratch_triple layout))]
           ++ flat_map
                (fun nt =>
                   [Called (strftime "%Y%m%d_%H%M%S") (Ok (snd nt));
                    Called (zip_write "/tmp/klipper_support.zip"
                                      ("/tmp/klipper_support/" ++ fst nt)
                                      (fst nt ++ "_" ++ snd nt)) (Ok tt)])
                (combine (relative_names layout) stamps)
           ++ [Called (zip_close "/tmp/klipper_support.zip") (Ok tt);
               Printed (ok_line "Support folder compressed")])%list)
  /\ (existsb raised (trace (run E compress_support_folder st)) = false ->
      outcome (run E compress_support_folder st) = Ok tt).
Proof.
  intros Hplain Hin.
  destruct (walked_files_layout layout Hplain) as [Hfiles Hrel].
  pose proof (in_map walked _ _ Hin) as Hw. cbn [walked] in Hw.
  split.
  - intros Hout.
    destruct (wp_sound _ _ compress_support_folder_spec E st Hout)
      as (triples & entries & Habs & Hnamed & Htr).
    rewrite Htr in Hw |- *. unfold packaged in Hw.
    assert (Ht : triples = map scratch_triple layout).
    { pose proof (not_walked _ (map scratch_triple layout)
                    (entry_events_no_walk entries)) as Hno.
      walked_cases Hw. intuition congruence. }
    subst triples. rewrite Hfiles in Habs.
    exists (map timestamp entries). split.
    + rewrite length_map.
      rewrite <- (length_map abs_path entries), Habs. now rewrite length_map.
    + unfold packaged.
      now rewrite (entries_of_layout entries _ Habs Hnamed Hrel).
  - intros Hno.
    destruct (wp_sound _ _ (wp_conj _ _ _ compress_support_folder_progresses
                              compress_support_folder_walks_once) E st)
      as [Hprog Honce].
    apply Hprog; [|exact Hno].
    intros triples0 H0. rewrite (Honce _ _ H0 Hw), Hfiles.
    apply scratch_paths_nonempty.
Qed.

Lemma every_walked_file_is_archived_witness :
  relative_names standard_layout
  = ["klippy.log"; "moonraker.log"; "dmesg.txt"; "config/printer.cfg"]
  /\ plain_layout standard_layout = true
  /\ In (Called (walk support_dir) (Ok (map scratch_triple standard_layout)))
        (trace (run (scenario_env standard) compress_support_folder 0))
  /\ outcome (run (scenario_env standard) compress_support_folder 0) = Ok tt.
Proof.
  assert (H1 : plain_layout standard_layout = true) by reflexivity.
  assert (H2 : In (Called (walk support_dir)
                          (Ok (map scratch_triple standard_layout)))
                  (trace (run (scenario_env standard)
                              compress_support_folder 0))).
  { vm_compute. right. right. left. reflexivity. }
  split; [reflexivity|]. split; [exact H1|]. split; [exact H2|].
  apply (proj2 (every_walked_file_is_archived
                  (scenario_env standard) 0 standard_layout H1 H2)).
  reflexivity.
Defined.
